(** * Kopia core: pack index, committed content index, uploader, snapshot GC

    A shallow embedding of the parts of the repository that the
    specification's testable properties talk about:

    - [index]      : content infos, the merged index, the v2 index builder
                     (repo/content/index),
    - [content]    : the committed content index (repo/content),
    - [snapshotfs] : the uploader's cancellation and parallelism rules and
                     the directory manifest builder (snapshot/snapshotfs),
    - [snapshotgc] : the sweep of the snapshot garbage collector
                     (snapshot/snapshotgc).

    Go values are modelled as the code has them: fixed-width integers are
    [Z] with the wrap-around written out, [time.Time] is an instant counted
    in nanoseconds, strings compare byte-wise, maps are [gmap]s, and slices
    are headers into a store of backing arrays, so that in-place sorting and
    [append] are seen through every alias.

    The file has three parts: the embedding of the code, the vocabulary the
    properties are stated in together with the sample inputs they are run
    on, and the properties with their proofs. *)

From Stdlib Require Import ZArith String Ascii Bool Lia.
From stdpp Require Import gmap strings list sorting.

#[local] Set Warnings "-clear-no-such-hyp".

Local Open Scope Z_scope.

(** ** Go basics *)

Module Go.

(** Go's [error] values, as far as the code distinguishes them: the sentinel
    [content.ErrContentNotFound], errors made with [errors.New]/[Errorf], and
    an error wrapped with a message ([errors.Wrap]).  [Panic] stands for a
    panic, which is no error value: it unwinds through every caller. *)
Inductive error : Type :=
| ErrContentNotFound
| ErrNew (msg : string)
| ErrWrap (inner : error) (msg : string)
| Panic (msg : string).

(** A Go result [(T, error)] of a call that either yields a value or fails. *)
Inductive result (A : Type) : Type :=
| Ok (a : A)
| Err (e : error).
Arguments Ok {A} a.
Arguments Err {A} e.

Definition bind {A B} (r : result A) (k : A -> result B) : result B :=
  match r with
  | Ok a => k a
  | Err e => Err e
  end.

(** [errors.Wrap(err, msg)]: nil stays nil (and a panic passes by). *)
Definition Wrap {A} (r : result A) (msg : string) : result A :=
  match r with
  | Ok a => Ok a
  | Err (Panic m) => Err (Panic m)
  | Err e => Err (ErrWrap e msg)
  end.

Definition isOk {A} (r : result A) : bool :=
  match r with Ok _ => true | Err _ => false end.

(** *** Fixed-width integers *)

Definition maxInt64 : Z := 2 ^ 63 - 1.
Definition minInt64 : Z := - 2 ^ 63.

(** The value an [int64] holds after an arithmetic result [z]. *)
Definition wrap64 (z : Z) : Z := (z + 2 ^ 63) mod 2 ^ 64 - 2 ^ 63.

Definition add64 (a b : Z) : Z := wrap64 (a + b).

Definition inInt64 (z : Z) : Prop := minInt64 <= z <= maxInt64.

Definition wrapU32 (z : Z) : Z := z mod 2 ^ 32.
Definition wrapU16 (z : Z) : Z := z mod 2 ^ 16.
Definition wrapU8 (z : Z) : Z := z mod 2 ^ 8.

(** *** time.Time and time.Duration

    An instant is the number of nanoseconds since the zero [time.Time]
    (January 1, year 1, 00:00 UTC), so the zero value of a Go struct field
    of type [time.Time] is [0]. *)
Definition Time : Type := Z.
Definition Duration : Type := Z.

Definition zeroTime : Time := 0.

(** Seconds between the zero time and the Unix epoch. *)
Definition unixToInternal : Z := 62135596800.

(** [time.Unix(sec, 0)]. *)
Definition Unix (sec : Z) : Time := (sec + unixToInternal) * 1000000000.

Definition After (t u : Time) : bool := u <? t.

(** [t.Sub(u)]: the difference as a [Duration], which is an [int64] count
    of nanoseconds; the library saturates at the extreme durations. *)
Definition Sub (t u : Time) : Duration :=
  if maxInt64 <? t - u then maxInt64
  else if t - u <? minInt64 then minInt64
  else t - u.

(** *** Strings: [<] and [>] compare byte-wise, lexicographically. *)
Definition strLess (a b : string) : bool := String.ltb a b.
Definition strGreater (a b : string) : bool := String.ltb b a.

(** The bytes of a string. *)
Definition bytesOf (s : string) : list Z :=
  (fun c => Z.of_N (N_of_ascii c)) <$> list_ascii_of_string s.

(** [binary.BigEndian.PutUint32], [PutUint16] and the 24-bit variant. *)
Definition PutUint32 (v : Z) : list Z :=
  [wrapU8 (v ≫ 24); wrapU8 (v ≫ 16); wrapU8 (v ≫ 8); wrapU8 v].
Definition PutUint16 (v : Z) : list Z :=
  [wrapU8 (v ≫ 8); wrapU8 v].
Definition encodeBigEndianUint24 (v : Z) : list Z :=
  [wrapU8 (v ≫ 16); wrapU8 (v ≫ 8); wrapU8 v].

(** *** Byte slices *)

(** [d[i]], [d[i:]] and [d[i:j]] of a byte slice or string, for indexes
    within it (the embedded code reads nowhere else: beyond, Go panics). *)
Definition byteAt (d : list Z) (i : Z) : Z := nth (Z.to_nat i) d 0.
Definition sliceFrom (d : list Z) (i : Z) : list Z := drop (Z.to_nat i) d.
Definition sliceRange (d : list Z) (i j : Z) : list Z :=
  take (Z.to_nat (j - i)) (drop (Z.to_nat i) d).

(** [string(bytes)], the inverse of [[]byte(s)]. *)
Definition stringOf (d : list Z) : string :=
  string_of_list_ascii ((fun x => ascii_of_N (Z.to_N x)) <$> d).

(** [binary.BigEndian.Uint32] and [Uint16]. *)
Definition Uint32 (b : list Z) : Z :=
  Z.lor (Z.lor (Z.lor (byteAt b 3) (byteAt b 2 ≪ 8)) (byteAt b 1 ≪ 16))
        (byteAt b 0 ≪ 24).
Definition Uint16 (b : list Z) : Z :=
  Z.lor (byteAt b 1) (byteAt b 0 ≪ 8).

(** [sort.Search(n, f)]: the binary search of the standard library,
    [for i < j { h := int(uint(i+j) >> 1); if !f(h) { i = h + 1 } else
    { j = h } }], for a predicate that may fail.  Every round narrows
    [j - i], so [n] rounds are enough; the model panics if they are not. *)
Fixpoint searchFrom (fuel : nat) (f : Z -> result bool) (i j : Z) : result Z :=
  if i <? j then
    match fuel with
    | O => Err (Panic "sort.Search: out of rounds")
    | S fuel =>
        let h := (i + j) ≫ 1 in
        match f h with
        | Err e => Err e
        | Ok false => searchFrom fuel f (h + 1) j
        | Ok true => searchFrom fuel f i h
        end
    end
  else Ok i.

Definition Search (n : Z) (f : Z -> result bool) : result Z :=
  searchFrom (Z.to_nat n) f 0 n.

(** [sort.Slice(s, less)]: the slice's elements, reordered so that no
    element is [less] than one before it.  (Go's sort is not stable; the
    properties below never depend on the order among equal elements.) *)
Definition notAfter {A} (less : A -> A -> bool) (x y : A) : Prop :=
  less y x = false.

#[export] Instance notAfter_dec {A} (less : A -> A -> bool) x y :
  Decision (notAfter less x y).
Proof. unfold notAfter. apply _. Defined.

Definition sortSlice {A} (less : A -> A -> bool) (l : list A) : list A :=
  merge_sort (notAfter less) l.

End Go.

Export Go.

#[export] Instance result_ret : MRet result := @Ok.
#[export] Instance result_bind : MBind result := fun A B k r => Go.bind r k.

(** ** repo/content/index *)

Module index.

(** [index.ID] and [blob.ID] are strings. *)
Definition ID : Type := string.
Definition blobID : Type := string.

(** [index.Info], with the getters of the Go interface as projections
    (an [InfoStruct] holds exactly these fields). *)
Record Info : Type := InfoStruct {
  GetContentID : ID;
  GetTimestampSeconds : Z;
  GetPackBlobID : blobID;
  GetPackOffset : Z;
  GetDeleted : bool;
  GetOriginalLength : Z;
  GetPackedLength : Z;
  GetFormatVersion : Z;
  GetCompressionHeaderID : Z;
  GetEncryptionKeyID : Z
}.

(** [Info.Timestamp()] is [time.Unix(GetTimestampSeconds(), 0)]. *)
Definition Timestamp (i : Info) : Time := Unix (GetTimestampSeconds i).

(** The [index.Index] interface, reduced to the methods the embedded code
    calls.  [GetInfo] yields [Ok None] for an ID the index does not hold. *)
Record Index : Type := mkIndex {
  GetInfo : ID -> result (option Info);
  ApproximateCount : Z;
  IterateAll : result (list Info)
}.

(** A pack index seen as its data: the entries it was built from.  The
    builder is keyed by content ID, so a lookup finds the entry of that ID. *)
Definition lookupEntry (id : ID) (entries : list Info) : option Info :=
  List.find (fun i => String.eqb (GetContentID i) id) entries.

Definition packIndex (entries : list Info) : Index :=
  {| GetInfo := fun id => Ok (lookupEntry id entries);
     ApproximateCount := Z.of_nat (length entries);
     IterateAll := Ok entries |}.

(** The [failingIndex] of the tests: every lookup fails with [err]. *)
Definition failingIndex (err : error) : Index :=
  {| GetInfo := fun _ => Err err;
     ApproximateCount := 0;
     IterateAll := Err err |}.

(** Modelled from the spec: the precedence between two entries of one
    content ID (the comparison lives in merged.go, which is not part of the
    sources at hand).  "(1) latest timestamp wins; (2) on tie, non-deleted
    wins over deleted; (3) on further tie, lexicographically greatest pack
    blob ID wins." *)
Definition contentInfoGreaterThan (a b : Info) : bool :=
  if negb (GetTimestampSeconds a =? GetTimestampSeconds b) then
    GetTimestampSeconds b <? GetTimestampSeconds a
  else if negb (Bool.eqb (GetDeleted a) (GetDeleted b)) then
    negb (GetDeleted a)
  else strGreater (GetPackBlobID a) (GetPackBlobID b).

(** [index.Merged] is a slice of indexes. *)
Definition Merged : Type := list Index.

Section merged.

(** The spec names the entry to keep by three fields; of two entries that
    agree on all three it does not say which is kept.  [keepNew i best]
    stands for that choice, whatever it is: whether the entry [i] of the
    index probed replaces the entry [best] kept so far. *)
Variable keepNew : Info -> Info -> bool.

(** Modelled from the spec: [Merged.GetInfo] (merged.go is not part of the
    sources at hand).  "Probe every index; if multiple return an entry for
    the same content ID, pick by deterministic precedence."  An entry
    replaces the best one so far when it wins the comparison, stays out
    when it loses it, and otherwise as [keepNew] says; a failing index
    fails the lookup, as [TestMergedGetInfoError] requires. *)
Fixpoint mergedGetInfoFrom (m : Merged) (id : ID) (best : option Info)
  : result (option Info) :=
  match m with
  | [] => Ok best
  | ndx :: rest =>
      i ← Wrap (GetInfo ndx id) "error getting id from index shard";
      match i, best with
      | Some i', None => mergedGetInfoFrom rest id (Some i')
      | Some i', Some b =>
          if contentInfoGreaterThan i' b
             || (negb (contentInfoGreaterThan b i') && keepNew i' b)
          then mergedGetInfoFrom rest id (Some i')
          else mergedGetInfoFrom rest id best
      | None, _ => mergedGetInfoFrom rest id best
      end
  end.

Definition MergedGetInfo (m : Merged) (id : ID) : result (option Info) :=
  mergedGetInfoFrom m id None.

End merged.



(** *** The v2 index builder (index_v2.go) *)

Definition Version2 : Z := 2.
Definition invalidFormatVersion : Z := 255.
Definition v2IndexHeaderSize : Z := 17.
Definition v2PackInfoSize : Z := 5.
Definition v2MaxFormatCount : Z := invalidFormatVersion.
Definition v2MaxUniquePackIDCount : Z := 1 ≪ 24.
Definition v2MaxShortPackIDCount : Z := 1 ≪ 16.
Definition v2MaxContentLength : Z := 1 ≪ 28.
Definition v2MaxShortContentLength : Z := 1 ≪ 24.
Definition v2MaxPackOffset : Z := 1 ≪ 30.
Definition v2DeletedMarker : Z := 2147483648.

Definition v2EntryOffsetFormatID : Z := 16.
Definition v2EntryMinLength : Z := v2EntryOffsetFormatID.
Definition v2EntryOffsetExtendedPackBlobID : Z := 17.
Definition v2EntryOffsetFormatIDEnd : Z := v2EntryOffsetExtendedPackBlobID.
Definition v2EntryOffsetHighLengthBits : Z := 18.
Definition v2EntryOffsetExtendedPackBlobIDEnd : Z := v2EntryOffsetHighLengthBits.
Definition v2EntryMaxLength : Z := 19.
Definition v2EntryOffsetHighLengthBitsEnd : Z := v2EntryMaxLength.
Definition v2EntryHighLengthShift : Z := 24.
Definition v2EntryHighLengthBitsOriginalLengthShift : Z := 4.
Definition v2EntryExtendedPackBlobIDShift : Z := 16.
Definition v2FormatInfoSize : Z := 6.

(** [indexV2FormatInfo]: a comparable struct, used as a map key. *)
Record indexV2FormatInfo : Type := mkFormatInfo {
  compressionHeaderID : Z;
  formatVersion : Z;
  encryptionKeyID : Z
}.

#[export] Instance indexV2FormatInfo_eq_dec : EqDecision indexV2FormatInfo.
Proof. solve_decision. Defined.

#[export] Instance indexV2FormatInfo_countable : Countable indexV2FormatInfo.
Proof.
  apply (inj_countable'
    (fun f => (compressionHeaderID f, formatVersion f, encryptionKeyID f))
    (fun t => mkFormatInfo t.1.1 t.1.2 t.2)).
  by intros [].
Defined.

Definition indexV2FormatInfoFromInfo (v : Info) : indexV2FormatInfo :=
  {| formatVersion := GetFormatVersion v;
     compressionHeaderID := GetCompressionHeaderID v;
     encryptionKeyID := GetEncryptionKeyID v |}.

(** [buildUniqueFormatToIndexMap]: each new format gets [byte(len(result))]. *)
Definition buildUniqueFormatToIndexMap (sortedInfos : list Info)
  : gmap indexV2FormatInfo Z :=
  foldl (fun result v =>
           let key := indexV2FormatInfoFromInfo v in
           match result !! key with
           | Some _ => result
           | None => <[key := wrapU8 (Z.of_nat (size result))]> result
           end) ∅ sortedInfos.

(** [buildPackIDToIndexMap]: each new pack blob ID gets [len(result)]. *)
Definition buildPackIDToIndexMap (sortedInfos : list Info) : gmap blobID Z :=
  foldl (fun result v =>
           let blobID := GetPackBlobID v in
           match result !! blobID with
           | Some _ => result
           | None => <[blobID := Z.of_nat (size result)]> result
           end) ∅ sortedInfos.

(** [maxContentLengths]: the three running maxima, starting from zero. *)
Definition maxContentLengths (sortedInfos : list Info) : Z * Z * Z :=
  foldl (fun '(maxPackedLength, maxOriginalLength, maxPackOffset) v =>
           (if maxPackedLength <? GetPackedLength v
            then GetPackedLength v else maxPackedLength,
            if maxOriginalLength <? GetOriginalLength v
            then GetOriginalLength v else maxOriginalLength,
            if maxPackOffset <? GetPackOffset v
            then GetPackOffset v else maxPackOffset))
        (0, 0, 0) sortedInfos.

Definition max (a b : Z) : Z := if b <? a then a else b.

Record indexBuilderV2 : Type := mkIndexBuilderV2 {
  packBlobIDOffsets : gmap blobID Z;
  entryCount : Z;
  keyLength : Z;
  entrySize : Z;
  extraDataOffset : Z;
  uniqueFormatInfo2Index : gmap indexV2FormatInfo Z;
  packID2Index : gmap blobID Z;
  baseTimestamp : Z
}.

Section builderV2.

(** [contentIDToBytes] is declared in a file of the package that is not
    part of the sources at hand; the builder only needs the bytes it
    yields for a content ID. *)
Variable contentIDToBytes : ID -> list Z.

Definition len {A} (l : list A) : Z := Z.of_nat (length l).

Definition newIndexBuilderV2 (sortedInfos : list Info) : result indexBuilderV2 :=
  let entrySize := v2EntryOffsetFormatID in
  let uniqueFormat2Index := buildUniqueFormatToIndexMap sortedInfos in
  if v2MaxFormatCount <? Z.of_nat (size uniqueFormat2Index) then
    Err (ErrNew "unsupported - too many unique formats")
  else
  let entrySize :=
    if 1 <? Z.of_nat (size uniqueFormat2Index)
    then max entrySize v2EntryOffsetFormatIDEnd else entrySize in
  let packID2Index := buildPackIDToIndexMap sortedInfos in
  if v2MaxUniquePackIDCount <? Z.of_nat (size packID2Index) then
    Err (ErrNew "unsupported - too many unique pack IDs")
  else
  let entrySize :=
    if v2MaxShortPackIDCount <? Z.of_nat (size packID2Index)
    then max entrySize v2EntryOffsetExtendedPackBlobIDEnd else entrySize in
  let '(maxPackedLen, maxOriginalLength, maxPackOffset) :=
    maxContentLengths sortedInfos in
  if (v2MaxContentLength <=? maxPackedLen)
     || (v2MaxContentLength <=? maxOriginalLength) then
    Err (ErrNew "maximum content length is too high")
  else
  let entrySize :=
    if (v2MaxShortContentLength <=? maxPackedLen)
       || (v2MaxShortContentLength <=? maxOriginalLength)
    then max entrySize v2EntryOffsetHighLengthBitsEnd else entrySize in
  if v2MaxPackOffset <=? maxPackOffset then
    Err (ErrNew "pack offset is too high")
  else
  let keyLength :=
    match sortedInfos with
    | [] => -1
    | first :: _ => len (contentIDToBytes (GetContentID first))
    end in
  Ok {| packBlobIDOffsets := ∅;
        keyLength := keyLength;
        entrySize := entrySize;
        entryCount := len sortedInfos;
        uniqueFormatInfo2Index := uniqueFormat2Index;
        packID2Index := packID2Index;
        extraDataOffset := 0;
        baseTimestamp := 0 |}.

(** [prepareExtraData]: the pack blob names, each once, and where each
    starts; the builder learns the offsets and where the region begins. *)
Definition prepareExtraData (b : indexBuilderV2) (sortedInfos : list Info)
  : indexBuilderV2 * list Z :=
  let '(offsets, extraData) :=
    foldl (fun '(offsets, extraData) it =>
             if negb (String.eqb (GetPackBlobID it) "") then
               match offsets !! GetPackBlobID it with
               | Some _ => (offsets, extraData)
               | None =>
                   (<[GetPackBlobID it := wrapU32 (len extraData)]> offsets,
                    extraData ++ bytesOf (GetPackBlobID it))
               end
             else (offsets, extraData))
          (packBlobIDOffsets b, []) sortedInfos in
  let off := v2IndexHeaderSize in
  let off := wrapU32 (off + wrapU32 (entryCount b * (keyLength b + entrySize b))) in
  let off := wrapU32 (off + wrapU32 (Z.of_nat (size (packID2Index b)) * v2PackInfoSize)) in
  let off := wrapU32 (off + wrapU32 (Z.of_nat (size (uniqueFormatInfo2Index b)) * v2FormatInfoSize)) in
  ({| packBlobIDOffsets := offsets;
      keyLength := keyLength b;
      entrySize := entrySize b;
      entryCount := entryCount b;
      uniqueFormatInfo2Index := uniqueFormatInfo2Index b;
      packID2Index := packID2Index b;
      extraDataOffset := off;
      baseTimestamp := baseTimestamp b |}, extraData).

(** [writeIndexValueEntry]: the 19-byte buffer, cut to [entrySize].  The Go
    code panics when a byte beyond [entrySize] is not zero. *)
Definition writeIndexValueEntry (b : indexBuilderV2) (it : Info) : result (list Z) :=
  let packOffsetAndFlags :=
    if GetDeleted it then Z.lor (GetPackOffset it) v2DeletedMarker
    else GetPackOffset it in
  let packBlobIndex := default 0 (packID2Index b !! GetPackBlobID it) in
  let buf :=
    PutUint32 (wrapU32 (GetTimestampSeconds it - baseTimestamp b))
    ++ PutUint32 packOffsetAndFlags
    ++ encodeBigEndianUint24 (GetOriginalLength it)
    ++ encodeBigEndianUint24 (GetPackedLength it)
    ++ PutUint16 (wrapU16 packBlobIndex)
    ++ [default 0 (uniqueFormatInfo2Index b !! indexV2FormatInfoFromInfo it);
        wrapU8 (packBlobIndex ≫ v2EntryExtendedPackBlobIDShift);
        Z.lor (wrapU8 (GetPackedLength it ≫ v2EntryHighLengthShift))
              (wrapU8 ((GetOriginalLength it ≫ v2EntryHighLengthShift)
                         ≪ v2EntryHighLengthBitsOriginalLengthShift))] in
  if forallb (fun x => x =? 0) (drop (Z.to_nat (entrySize b)) buf)
  then Ok (take (Z.to_nat (entrySize b)) buf)
  else Err (Panic "encoding bug").

Definition writeIndexEntry (b : indexBuilderV2) (it : Info) : result (list Z) :=
  let k := contentIDToBytes (GetContentID it) in
  if negb (len k =? keyLength b) then Err (ErrNew "inconsistent key length")
  else
    v ← Wrap (writeIndexValueEntry b it) "error writing entry";
    Ok (k ++ v).

Definition writePackIDEntry (b : indexBuilderV2) (packID : blobID) : list Z :=
  wrapU8 (Z.of_nat (String.length packID))
  :: PutUint32 (wrapU32 (default 0 (packBlobIDOffsets b !! packID)
                         + extraDataOffset b)).

Definition writeFormatInfoEntry (f : indexV2FormatInfo) : list Z :=
  PutUint32 (compressionHeaderID f) ++ [formatVersion f; encryptionKeyID f].

(** [reverse[v] = k] for every [(k, v)] of the map, in a slice of the
    map's size. *)
Definition reverseIndex {K} `{Countable K} (zero : K) (m : gmap K Z) : list K :=
  foldr (fun '(k, v) acc => <[Z.to_nat v := k]> acc)
        (replicate (size m) zero) (map_to_list m).

(** The entries, one after the other, until one fails, over a writer that
    does not fail: the bytes written so far. *)
Fixpoint writeEntries (b : indexBuilderV2) (infos : list Info) (w : list Z)
  : list Z * result unit :=
  match infos with
  | [] => (w, Ok tt)
  | it :: rest =>
      match Wrap (writeIndexEntry b it) "unable to write entry" with
      | Err e => (w, Err e)
      | Ok bytes => writeEntries b rest (w ++ bytes)
      end
  end.

(** [buildV2], from the sorted contents on, over a writer that does not
    fail and keeps what it is handed (the [bytes.Buffer] of
    [indexWithItems]): the bytes written, and the error if the build
    failed.  [buildV2To] below is [buildV2] over any writer, with the
    errors of its writes; over the buffer the two agree (lemma
    [buildV2To_buffer]). *)
Definition buildV2 (sortedInfos : list Info) : list Z * result unit :=
  match newIndexBuilderV2 sortedInfos with
  | Err e => ([], Err e)
  | Ok b2 =>
      let '(b2, extraData) := prepareExtraData b2 sortedInfos in
      if keyLength b2 <=? 1 then ([], Err (ErrNew "invalid key length"))
      else
        let header :=
          [Version2; wrapU8 (keyLength b2)]
          ++ PutUint16 (wrapU16 (entrySize b2))
          ++ PutUint32 (wrapU32 (entryCount b2))
          ++ PutUint32 (wrapU32 (Z.of_nat (size (packID2Index b2))))
          ++ [wrapU8 (Z.of_nat (size (uniqueFormatInfo2Index b2)))]
          ++ PutUint32 (wrapU32 (baseTimestamp b2)) in
        match writeEntries b2 sortedInfos header with
        | (w, Err e) => (w, Err e)
        | (w, Ok _) =>
            let packs := reverseIndex ""%string (packID2Index b2) in
            let w := w ++ concat (writePackIDEntry b2 <$> packs) in
            let formats :=
              reverseIndex (mkFormatInfo 0 0 0) (uniqueFormatInfo2Index b2) in
            let w := w ++ concat (writeFormatInfoEntry <$> formats) in
            (w ++ extraData, Ok tt)
        end
  end.

Section writer.

(** [w := bufio.NewWriter(output)], as [buildV2] and the functions it calls
    use it: [Write] and [Flush] give the writer after the call and the error
    they return, or none.  (bufio, and the output behind it, are outside
    the sources at hand.) *)
Context {Writer : Type}.
Variable Write : Writer -> list Z -> Writer * option error.
Variable Flush : Writer -> Writer * option error.

(** [errors.Wrap(err, msg)] of an error that may be nil. *)
Definition wrapErr (err : option error) (msg : string) : result unit :=
  match err with
  | None => Ok tt
  | Some e => Wrap (Err e) msg
  end.

(** [writeIndexValueEntry(w, it)]: the bytes of [writeIndexValueEntry]
    above (or its panic), handed to the writer. *)
Definition writeIndexValueEntryTo (w : Writer) (b : indexBuilderV2) (it : Info)
  : Writer * result unit :=
  match writeIndexValueEntry b it with
  | Err e => (w, Err e)
  | Ok buf =>
      let '(w, err) := Write w buf in
      (w, wrapErr err "error writing index value entry")
  end.

(** [writeIndexEntry(w, it)]: the key, then the value. *)
Definition writeIndexEntryTo (w : Writer) (b : indexBuilderV2) (it : Info)
  : Writer * result unit :=
  let k := contentIDToBytes (GetContentID it) in
  if negb (len k =? keyLength b) then (w, Err (ErrNew "inconsistent key length"))
  else
    let '(w, err) := Write w k in
    match err with
    | Some e => (w, Wrap (Err e) "error writing entry key")
    | None =>
        let '(w, r) := writeIndexValueEntryTo w b it in
        (w, Wrap r "error writing entry")
    end.

(** [writePackIDEntry(w, packID)] and [writeFormatInfoEntry(w, f)]. *)
Definition writePackIDEntryTo (w : Writer) (b : indexBuilderV2) (packID : blobID)
  : Writer * result unit :=
  let '(w, err) := Write w (writePackIDEntry b packID) in
  (w, wrapErr err "error writing pack ID entry").

Definition writeFormatInfoEntryTo (w : Writer) (f : indexV2FormatInfo)
  : Writer * result unit :=
  let '(w, err) := Write w (writeFormatInfoEntry f) in
  (w, wrapErr err "error writing format info entry").

(** The three loops of [buildV2], each until a write fails. *)
Fixpoint writeEntriesTo (w : Writer) (b : indexBuilderV2) (infos : list Info)
  : Writer * result unit :=
  match infos with
  | [] => (w, Ok tt)
  | it :: rest =>
      match writeIndexEntryTo w b it with
      | (w, Err e) => (w, Wrap (Err e) "unable to write entry")
      | (w, Ok _) => writeEntriesTo w b rest
      end
  end.

Fixpoint writePackIDEntriesTo (w : Writer) (b : indexBuilderV2) (packs : list blobID)
  : Writer * result unit :=
  match packs with
  | [] => (w, Ok tt)
  | e :: rest =>
      match writePackIDEntryTo w b e with
      | (w, Err e) => (w, Wrap (Err e) "error writing format info entry")
      | (w, Ok _) => writePackIDEntriesTo w b rest
      end
  end.

Fixpoint writeFormatInfoEntriesTo (w : Writer) (formats : list indexV2FormatInfo)
  : Writer * result unit :=
  match formats with
  | [] => (w, Ok tt)
  | f :: rest =>
      match writeFormatInfoEntryTo w f with
      | (w, Err e) => (w, Wrap (Err e) "error writing format info entry")
      | (w, Ok _) => writeFormatInfoEntriesTo w rest
      end
  end.

(** [buildV2], from the sorted contents on, writing to [w]: the writer when
    it returns, and its error (or nil). *)
Definition buildV2To (w : Writer) (sortedInfos : list Info) : Writer * result unit :=
  match newIndexBuilderV2 sortedInfos with
  | Err e => (w, Err e)
  | Ok b2 =>
      let '(b2, extraData) := prepareExtraData b2 sortedInfos in
      if keyLength b2 <=? 1 then (w, Err (ErrNew "invalid key length"))
      else
        let header :=
          [Version2; wrapU8 (keyLength b2)]
          ++ PutUint16 (wrapU16 (entrySize b2))
          ++ PutUint32 (wrapU32 (entryCount b2))
          ++ PutUint32 (wrapU32 (Z.of_nat (size (packID2Index b2))))
          ++ [wrapU8 (Z.of_nat (size (uniqueFormatInfo2Index b2)))]
          ++ PutUint32 (wrapU32 (baseTimestamp b2)) in
        let '(w, err) := Write w header in
        match err with
        | Some e => (w, Wrap (Err e) "unable to write header")
        | None =>
            match writeEntriesTo w b2 sortedInfos with
            | (w, Err e) => (w, Err e)
            | (w, Ok _) =>
                let packs := reverseIndex ""%string (packID2Index b2) in
                match writePackIDEntriesTo w b2 packs with
                | (w, Err e) => (w, Err e)
                | (w, Ok _) =>
                    let formats :=
                      reverseIndex (mkFormatInfo 0 0 0) (uniqueFormatInfo2Index b2) in
                    match writeFormatInfoEntriesTo w formats with
                    | (w, Err e) => (w, Err e)
                    | (w, Ok _) =>
                        let '(w, err) := Write w extraData in
                        match err with
                        | Some e => (w, Wrap (Err e) "error writing extra data")
                        | None =>
                            let '(w, err) := Flush w in
                            (w, wrapErr err "error flushing index")
                        end
                    end
                end
            end
        end
  end.

End writer.

End builderV2.

(** The distinct format descriptors and pack blob IDs of the input. *)
Definition uniqueFormats (infos : list Info) : gset indexV2FormatInfo :=
  list_to_set (indexV2FormatInfoFromInfo <$> infos).

Definition uniquePackIDs (infos : list Info) : gset blobID :=
  list_to_set (GetPackBlobID <$> infos).

End index.

(** ** repo/content/index: reading a v2 index (index_v2.go) *)

Module indexV2.
Import index.

Definition invalidBlobID : blobID := "---invalid---".
Definition invalidCompressionHeaderID : Z := 65535.
Definition invalidEncryptionKeyID : Z := 255.
Definition v2MaxEntrySize : Z := 256.

Definition v2EntryOffsetTimestampSeconds : Z := 0.
Definition v2EntryOffsetPackOffsetAndFlags : Z := 4.
Definition v2EntryOffsetOriginalLength : Z := 8.
Definition v2EntryOffsetPackedLength : Z := 11.
Definition v2EntryOffsetPackBlobID : Z := 14.
Definition v2EntryDeletedFlag : Z := 128.
Definition v2EntryPackOffsetMask : Z := 1 ≪ 31 - 1.
Definition v2EntryHghLengthBitsPackedLengthMask : Z := 15.

Definition v2FormatOffsetCompressionID : Z := 0.
Definition v2FormatOffsetFormatVersion : Z := 4.
Definition v2FormatOffsetEncryptionKeyID : Z := 5.

(** Declared in files of the package that are not part of the sources at
    hand; modelled from their names and their use: the big-endian readers
    of 32, 24 and 16 bits, the counterparts of [PutUint32],
    [encodeBigEndianUint24] and [PutUint16]. *)
Definition decodeBigEndianUint32 (d : list Z) : Z :=
  Z.lor (Z.lor (Z.lor (byteAt d 0 ≪ 24) (byteAt d 1 ≪ 16)) (byteAt d 2 ≪ 8))
        (byteAt d 3).
Definition decodeBigEndianUint24 (d : list Z) : Z :=
  Z.lor (Z.lor (byteAt d 0 ≪ 16) (byteAt d 1 ≪ 8)) (byteAt d 2).
Definition decodeBigEndianUint16 (d : list Z) : Z :=
  Z.lor (byteAt d 0 ≪ 8) (byteAt d 1).

(** Likewise [readAtAll(readerAt, buf, offset)], over a reader of a byte
    slice ([bytes.NewReader]): it fills the whole buffer, of [n] bytes,
    with the bytes at [offset], or fails; an empty buffer is filled at any
    offset that is not negative. *)
Definition readAtAll (readerAt : list Z) (n : Z) (offset : Z) : result (list Z) :=
  if (0 <=? offset) && ((n =? 0) || (offset + n <=? len readerAt)) then
    Ok (take (Z.to_nat n) (drop (Z.to_nat offset) readerAt))
  else Err (ErrNew "incomplete read").

Record v2HeaderInfo : Type := mkHeaderInfo {
  version : Z;
  keySize : Z;
  entrySize : Z;
  entryCount : Z;
  packCount : Z;
  formatCount : Z;
  baseTimestamp : Z;
  entriesOffset : Z;
  formatsOffset : Z;
  packsOffset : Z;
  entryStride : Z
}.

Record indexV2 : Type := mkIndexV2 {
  hdr : v2HeaderInfo;
  readerAt : list Z;
  formats : list indexV2FormatInfo
}.

Record indexV2EntryInfo : Type := mkEntryInfo {
  data : list Z;
  contentID : ID;
  b : indexV2
}.

Definition GetContentID (e : indexV2EntryInfo) : ID := contentID e.

Definition GetTimestampSeconds (e : indexV2EntryInfo) : Z :=
  decodeBigEndianUint32 (sliceFrom (data e) v2EntryOffsetTimestampSeconds)
  + baseTimestamp (hdr (b e)).

Definition GetDeleted (e : indexV2EntryInfo) : bool :=
  negb (Z.land (byteAt (data e) v2EntryOffsetPackOffsetAndFlags) v2EntryDeletedFlag
        =? 0).

Definition GetPackOffset (e : indexV2EntryInfo) : Z :=
  Z.land (decodeBigEndianUint32 (sliceFrom (data e) v2EntryOffsetPackOffsetAndFlags))
         v2EntryPackOffsetMask.

Definition GetOriginalLength (e : indexV2EntryInfo) : Z :=
  let v := decodeBigEndianUint24 (sliceFrom (data e) v2EntryOffsetOriginalLength) in
  if v2EntryOffsetHighLengthBits <? len (data e) then
    Z.lor v (wrapU32 ((byteAt (data e) v2EntryOffsetHighLengthBits
                       ≫ v2EntryHighLengthBitsOriginalLengthShift)
                      ≪ v2EntryHighLengthShift))
  else v.

Definition GetPackedLength (e : indexV2EntryInfo) : Z :=
  let v := decodeBigEndianUint24 (sliceFrom (data e) v2EntryOffsetPackedLength) in
  if v2EntryOffsetHighLengthBits <? len (data e) then
    Z.lor v (wrapU32 (Z.land (byteAt (data e) v2EntryOffsetHighLengthBits)
                             v2EntryHghLengthBitsPackedLengthMask
                      ≪ v2EntryHighLengthShift))
  else v.

Definition formatIDIndex (e : indexV2EntryInfo) : Z :=
  if v2EntryOffsetFormatID <? len (data e) then
    byteAt (data e) v2EntryOffsetFormatID
  else 0.

(** [e.b.formats[fid]] is guarded by [fid > len(e.b.formats)]: for [fid]
    equal to the length the index is out of range and Go panics. *)
Definition formatOf {A} (e : indexV2EntryInfo) (invalid : A)
    (field : indexV2FormatInfo -> A) : result A :=
  let fid := formatIDIndex e in
  if len (formats (b e)) <? fid then Ok invalid
  else
    match formats (b e) !! Z.to_nat fid with
    | Some f => Ok (field f)
    | None => Err (Panic "index out of range")
    end.

Definition GetFormatVersion (e : indexV2EntryInfo) : result Z :=
  formatOf e invalidFormatVersion formatVersion.

Definition GetCompressionHeaderID (e : indexV2EntryInfo) : result Z :=
  formatOf e invalidCompressionHeaderID compressionHeaderID.

Definition GetEncryptionKeyID (e : indexV2EntryInfo) : result Z :=
  formatOf e invalidEncryptionKeyID encryptionKeyID.

Definition getPackBlobIDByIndex (b : indexV2) (ndx : Z) : blobID :=
  if wrapU32 (packCount (hdr b)) <=? ndx then invalidBlobID
  else
    match readAtAll (readerAt b) v2PackInfoSize
            (packsOffset (hdr b) + wrapU32 (v2PackInfoSize * ndx)) with
    | Err _ => invalidBlobID
    | Ok buf =>
        let nameLength := byteAt buf 0 in
        let nameOffset := Uint32 (sliceFrom buf 1) in
        match readAtAll (readerAt b) nameLength nameOffset with
        | Err _ => invalidBlobID
        | Ok nameBuf => stringOf nameBuf
        end
    end.

(** The index into [Packs[]] that [GetPackBlobID] reads off the entry. *)
Definition packIDIndex (e : indexV2EntryInfo) : Z :=
  let packIDIndex :=
    decodeBigEndianUint16 (sliceFrom (data e) v2EntryOffsetPackBlobID) in
  if v2EntryOffsetExtendedPackBlobID <? len (data e) then
    Z.lor packIDIndex
          (wrapU32 (byteAt (data e) v2EntryOffsetExtendedPackBlobID
                    ≪ v2EntryExtendedPackBlobIDShift))
  else packIDIndex.

Definition GetPackBlobID (e : indexV2EntryInfo) : blobID :=
  getPackBlobIDByIndex (b e) (packIDIndex e).

Definition Timestamp (e : indexV2EntryInfo) : Time := Unix (GetTimestampSeconds e).

Definition ApproximateCount (b : indexV2) : Z := entryCount (hdr b).

Definition entryOffset (b : indexV2) (p : Z) : Z :=
  entriesOffset (hdr b) + entryStride (hdr b) * p.

Definition entryToInfo (b : indexV2) (contentID : ID) (entryData : list Z)
  : result indexV2EntryInfo :=
  if len entryData <? v2EntryMinLength then Err (ErrNew "invalid entry length")
  else Ok {| data := entryData; contentID := contentID; b := b |}.

Definition parseFormatsBuffer (formatsBuf : list Z) (cnt : Z) : list indexV2FormatInfo :=
  (fun i : nat =>
     let f := sliceFrom formatsBuf (v2FormatInfoSize * Z.of_nat i) in
     {| compressionHeaderID := Uint32 (sliceFrom f v2FormatOffsetCompressionID);
        formatVersion := byteAt f v2FormatOffsetFormatVersion;
        encryptionKeyID := byteAt f v2FormatOffsetEncryptionKeyID |})
  <$> seq 0 (Z.to_nat cnt).

Definition openV2PackIndex (readerAt : list Z) : result indexV2 :=
  match readAtAll readerAt v2IndexHeaderSize 0 with
  | Err e => Err (ErrWrap e "invalid header")
  | Ok header =>
      let version := byteAt header 0 in
      let keySize := byteAt header 1 in
      let entrySize := Uint16 (sliceRange header 2 4) in
      let entryCount := Uint32 (sliceRange header 4 8) in
      let packCount := Uint32 (sliceRange header 8 12) in
      let formatCount := byteAt header 12 in
      let baseTimestamp := Uint32 (sliceRange header 13 17) in
      if (keySize <=? 1) || (entrySize <? v2EntryMinLength)
         || (v2EntryMaxLength <? entrySize) || (entryCount <? 0)
         || (v2MaxFormatCount <? formatCount)
      then Err (ErrNew "invalid header")
      else
        let entryStride := keySize + entrySize in
        if v2MaxEntrySize <? entryStride
        then Err (ErrNew "invalid header - entry stride too big")
        else
          let entriesOffset := v2IndexHeaderSize in
          let packsOffset := entriesOffset + entryCount * entryStride in
          let formatsOffset := packsOffset + packCount * v2PackInfoSize in
          match readAtAll readerAt (formatCount * v2FormatInfoSize) formatsOffset with
          | Err _ => Err (ErrNew "unable to read formats section")
          | Ok formatsBuf =>
              Ok {| hdr := {| version := version; keySize := keySize;
                              entrySize := entrySize; entryCount := entryCount;
                              packCount := packCount; formatCount := formatCount;
                              baseTimestamp := baseTimestamp;
                              entriesOffset := entriesOffset;
                              formatsOffset := formatsOffset;
                              packsOffset := packsOffset;
                              entryStride := entryStride |};
                    readerAt := readerAt;
                    formats := parseFormatsBuffer formatsBuf formatCount |}
          end
  end.

Section lookup.

(** [contentIDToBytes], [contentIDBytesGreaterOrEqual] and the constant
    [unknownKeySize] are declared in files of the package that are not part
    of the sources at hand. *)
Variable contentIDToBytes : ID -> list Z.
Variable contentIDBytesGreaterOrEqual : list Z -> list Z -> bool.
Variable unknownKeySize : Z.

(** [findEntryPositionExact]: the position the search ends at, or the
    error of the first read that failed (the Go code goes on searching with
    a predicate that is false from then on, and hands back the error
    beside a position that its caller drops). *)
Definition findEntryPositionExact (b : indexV2) (idBytes : list Z) : result Z :=
  Search (entryCount (hdr b))
    (fun p =>
       match readAtAll (readerAt b) (entryStride (hdr b)) (entryOffset b p) with
       | Err e => Err e
       | Ok entryBuf =>
           Ok (contentIDBytesGreaterOrEqual
                 (sliceRange entryBuf 0 (keySize (hdr b))) idBytes)
       end).

(** [findEntry]: the bytes of the entry after its key, or nil. *)
Definition findEntry (b : indexV2) (contentID : ID) : result (option (list Z)) :=
  let key := contentIDToBytes contentID in
  if keySize (hdr b) =? unknownKeySize then Ok None
  else if negb (len key =? keySize (hdr b)) then Err (ErrNew "invalid content ID")
  else
    position ← findEntryPositionExact b key;
    if entryCount (hdr b) <=? position then Ok None
    else
      match readAtAll (readerAt b) (entryStride (hdr b)) (entryOffset b position) with
      | Err e => Err (ErrWrap e "error reading header")
      | Ok entryBuf =>
          if bool_decide (sliceRange entryBuf 0 (len key) = key)
          then Ok (Some (sliceFrom entryBuf (len key)))
          else Ok None
      end.

(** [GetInfo]: nil for a content the index does not hold. *)
Definition GetInfo (b : indexV2) (contentID : ID) : result (option indexV2EntryInfo) :=
  e ← findEntry b contentID;
  match e with
  | None => Ok None
  | Some e => i ← entryToInfo b contentID e; Ok (Some i)
  end.

End lookup.

(** [IDRange] is declared in a file of the package that is not part of the
    sources at hand; [Iterate] reads its two fields, [StartID] and [EndID],
    and the tests build it from two IDs. *)
Record IDRange : Type := mkIDRange {
  StartID : ID;
  EndID : ID
}.

Section iterate.

(** [bytesToContentID] is declared in a file of the package that is not
    part of the sources at hand. *)
Variable bytesToContentID : list Z -> ID.

(** [findEntryPosition]: as [findEntryPositionExact], over the content IDs
    read back from the keys, in the order of strings. *)
Definition findEntryPosition (b : indexV2) (contentID : ID) : result Z :=
  Search (entryCount (hdr b))
    (fun p =>
       match readAtAll (readerAt b) (entryStride (hdr b)) (entryOffset b p) with
       | Err e => Err e
       | Ok entryBuf =>
           Ok (negb (strLess (bytesToContentID
                                (sliceRange entryBuf 0 (keySize (hdr b))))
                             contentID))
       end).

(** The callback of [Iterate], with what it keeps between calls. *)
Context {State : Type}.
Variable cb : State -> indexV2EntryInfo -> State * option error.

(** The loop of [Iterate], [for i := startPos; i < b.hdr.entryCount; i++]:
    [n] is the number of positions left. *)
Fixpoint iterateFrom (b : indexV2) (r : IDRange) (n : nat) (i : Z) (s : State)
  : State * result unit :=
  match n with
  | O => (s, Ok tt)
  | S n =>
      match readAtAll (readerAt b) (entryStride (hdr b)) (entryOffset b i) with
      | Err e => (s, Err (ErrWrap e "unable to read from index"))
      | Ok entry =>
          let key := sliceRange entry 0 (keySize (hdr b)) in
          let contentID := bytesToContentID key in
          if negb (strLess contentID (EndID r)) then (s, Ok tt)
          else
            match entryToInfo b contentID (sliceFrom entry (keySize (hdr b))) with
            | Err e => (s, Err (ErrWrap e "invalid index data"))
            | Ok info =>
                match cb s info with
                | (s, Some e) => (s, Err e)
                | (s, None) => iterateFrom b r n (i + 1) s
                end
            end
      end
  end.

Definition Iterate (b : indexV2) (r : IDRange) (s : State) : State * result unit :=
  match findEntryPosition b (StartID r) with
  | Err e => (s, Err (ErrWrap e "could not find starting position"))
  | Ok startPos =>
      iterateFrom b r (Z.to_nat (entryCount (hdr b) - startPos)) startPos s
  end.

End iterate.

End indexV2.

(** ** repo/content: the committed content index *)

Module content.
Import index.

Definition smallIndexEntryCountThreshold : Z := 100.

(** [committedContentIndexCache], reduced to what [use] calls. *)
Record committedContentIndexCache : Type := mkCache {
  openIndex : blobID -> result Index;
  expireUnused : list blobID -> result unit
}.

Record committedContentIndex : Type := mkCommitted {
  rev : Z;
  cache : committedContentIndexCache;
  deletionWatermark : Time;
  inUse : gmap blobID Index;
  merged : Merged
}.

(** [shouldIgnore]: a deleted entry is hidden unless its timestamp is
    after the watermark. *)
Definition shouldIgnore (id : Info) (deletionWatermark : Time) : bool :=
  if negb (GetDeleted id) then false
  else negb (After (Timestamp id) deletionWatermark).

Section committed.

(** [index.Merged.GetInfo] as a Go call: the info (or nil) and the error
    (or nil) it returns.  The method is declared in merged.go, outside the
    sources at hand, so [getContent] is read against any such method. *)
Variable mergedGetInfo : Merged -> ID -> option Info * option error.

(** [index.Builder.Build] (over the entries added to the builder, for the
    index version in use) and [index.Open] are declared outside the sources
    at hand: building yields the bytes of an index, opening yields the
    index over them. *)
Variable builderBuild : list Info -> result (list Z).
Variable indexOpen : list Z -> result Index.

Definition getContent (c : committedContentIndex) (contentID : ID) : result Info :=
  let '(info, err) := mergedGetInfo (merged c) contentID in
  match info with
  | Some info =>
      if shouldIgnore info (deletionWatermark c) then Err ErrContentNotFound
      else Ok info
  | None =>
      match err with
      | None => Err ErrContentNotFound
      | Some e => Err (ErrWrap e "error getting content info from index")
      end
  end.

Definition indexFilesChanged (c : committedContentIndex) (indexFiles : list blobID) : bool :=
  if negb (len indexFiles =? Z.of_nat (size (inUse c))) then true
  else existsb (fun ndx => bool_decide (inUse c !! ndx = None)) indexFiles.

(** The entries of the indexes to merge, index after index. *)
Fixpoint iterateInto (toMerge : list Index) (b : list Info) : result (list Info) :=
  match toMerge with
  | [] => Ok b
  | ndx :: rest =>
      entries ← Wrap (IterateAll ndx) "unable to iterate index entries";
      iterateInto rest (b ++ entries)
  end.

Definition combineSmallIndexes (m : Merged) : result Merged :=
  let toMerge := List.filter (fun ndx => ApproximateCount ndx <? smallIndexEntryCountThreshold) m in
  let toKeep := List.filter (fun ndx => negb (ApproximateCount ndx <? smallIndexEntryCountThreshold)) m in
  if len toMerge <=? 1 then Ok m
  else
    b ← iterateInto toMerge [];
    buf ← Wrap (builderBuild b) "error building combined in-memory index";
    combined ← Wrap (indexOpen buf) "error opening combined in-memory index";
    Ok (toKeep ++ [combined]).

(** The loop of [merge]: open every index file, in order. *)
Fixpoint openAll (cache : committedContentIndexCache) (indexFiles : list blobID)
    (merged : Merged) (used : gmap blobID Index)
  : result (Merged * gmap blobID Index) :=
  match indexFiles with
  | [] => Ok (merged, used)
  | e :: rest =>
      ndx ← Wrap (openIndex cache e) "unable to open pack index";
      openAll cache rest (merged ++ [ndx]) (<[e := ndx]> used)
  end.

(** [merge]: on failure nothing is handed back (and what was opened is
    closed, which leaves no trace in this model). *)
Definition merge (c : committedContentIndex) (indexFiles : list blobID)
  : result (Merged * gmap blobID Index) :=
  '(merged, used) ← openAll (cache c) indexFiles [] ∅;
  mergedAndCombined ← Wrap (combineSmallIndexes merged) "unable to combine small indexes";
  Ok (mergedAndCombined, used).

Definition setWatermark (c : committedContentIndex) (t : Time) : committedContentIndex :=
  {| rev := rev c; cache := cache c; deletionWatermark := t;
     inUse := inUse c; merged := merged c |}.

(** [use]: the index after the call, and the error it returns (or nil).
    A failure of [expireUnused] is only logged. *)
Definition use (c : committedContentIndex) (indexFiles : list blobID)
    (ignoreDeletedBefore : Time) : committedContentIndex * result unit :=
  let c := setWatermark c ignoreDeletedBefore in
  if negb (indexFilesChanged c indexFiles) then (c, Ok tt)
  else
    match merge c indexFiles with
    | Err e => (c, Err e)
    | Ok (mergedAndCombined, newInUse) =>
        ({| rev := add64 (rev c) 1; cache := cache c;
            deletionWatermark := deletionWatermark c;
            inUse := newInUse; merged := mergedAndCombined |}, Ok tt)
    end.

End committed.

Section addBlob.

(** [committedContentIndexCache.addContentToCache], of the same interface
    as [openIndex]: what it answers for a blob and its data. *)
Variable addContentToCache : blobID -> list Z -> result unit.

Definition bumpRev (c : committedContentIndex) : committedContentIndex :=
  {| rev := add64 (rev c) 1; cache := cache c;
     deletionWatermark := deletionWatermark c;
     inUse := inUse c; merged := merged c |}.

(** [addIndexBlob]: the deferred function bumps the revision on every
    path, after the rest of the body. *)
Definition addIndexBlob (c : committedContentIndex) (indexBlobID : blobID)
    (data : list Z) (use : bool) : committedContentIndex * result unit :=
  match Wrap (addContentToCache indexBlobID data) "error adding content to cache" with
  | Err e => (bumpRev c, Err e)
  | Ok _ =>
      if negb use then (bumpRev c, Ok tt)
      else
        match inUse c !! indexBlobID with
        | Some _ => (bumpRev c, Ok tt)
        | None =>
            match Wrap (openIndex (cache c) indexBlobID) "unable to open pack index" with
            | Err e => (bumpRev c, Err e)
            | Ok ndx =>
                (bumpRev {| rev := rev c; cache := cache c;
                            deletionWatermark := deletionWatermark c;
                            inUse := <[indexBlobID := ndx]> (inUse c);
                            merged := merged c ++ [ndx] |}, Ok tt)
            end
        end
  end.

End addBlob.

(** [revision]. *)
Definition revision (c : committedContentIndex) : Z := rev c.

(** A Go result seen as the pair [(value, err)] the caller receives. *)
Definition asPair {A} (r : result (option A)) : option A * option error :=
  match r with
  | Ok v => (v, None)
  | Err e => (None, Some e)
  end.

End content.

(** ** Go slices over a store of backing arrays *)

Module slices.

(** A slice header: the backing array it points into, its length and its
    capacity.  (Every slice of the embedded code starts at offset 0 of its
    array.)  The nil slice has length and capacity 0. *)
Record slice : Type := Slice {
  sliceArr : positive;
  sliceLen : nat;
  sliceCap : nat
}.

Definition nilSlice : slice := Slice 1 0 0.

Section store.
Context {A : Type}.

(** How the runtime picks the capacity of a grown array (given the old
    capacity and the length needed) is left to the implementation. *)
Variable growCap : nat -> nat -> nat.

(** The backing arrays, by address; a cell holds what was last written. *)
Abbreviation store := (gmap positive (list A)).

Definition arrayOf (h : store) (s : slice) : list A :=
  default [] (h !! sliceArr s).

(** The elements seen through the slice. *)
Definition readSlice (h : store) (s : slice) : list A :=
  take (sliceLen s) (arrayOf h s).

(** [append(s, xs...)]: in place when the capacity allows, which every
    alias of the array sees; into a fresh array otherwise. *)
Definition appendSlice (h : store) (s : slice) (xs : list A) : store * slice :=
  match xs with
  | [] => (h, s)
  | _ =>
      let n := (sliceLen s + length xs)%nat in
      if (n <=? sliceCap s)%nat then
        (<[sliceArr s := readSlice h s ++ xs ++ drop n (arrayOf h s)]> h,
         Slice (sliceArr s) n (sliceCap s))
      else
        let p := fresh (dom h) in
        (<[p := readSlice h s ++ xs]> h,
         Slice p n (Nat.max n (growCap (sliceCap s) n)))
  end.

(** [sort.Slice(s, less)]: the cells under the slice are reordered in the
    backing array itself. *)
Definition sortInPlace (less : A -> A -> bool) (h : store) (s : slice) : store :=
  match sliceLen s with
  | O => h
  | _ => <[sliceArr s := sortSlice less (readSlice h s)
                         ++ drop (sliceLen s) (arrayOf h s)]> h
  end.

(** [s[0:n]]. *)
Definition reslice (s : slice) (n : nat) : slice :=
  Slice (sliceArr s) n (sliceCap s).

(** The slice's array holds all the cells the slice spans. *)
Definition wfSlice (h : store) (s : slice) : Prop :=
  (sliceLen s <= length (arrayOf h s))%nat.

End store.

End slices.

(** ** snapshot/snapshotfs: the uploader and the directory manifest builder *)

Module snapshotfs.
Import slices.

(** Reasons why a snapshot is incomplete. *)
Definition IncompleteReasonCheckpoint : string := "checkpoint".
Definition IncompleteReasonCanceled : string := "canceled".
Definition IncompleteReasonLimitReached : string := "limit reached".

(** The fields of [Uploader] that cancellation and parallelism read. *)
Record Uploader : Type := mkUploader {
  totalWrittenBytes : Z;
  MaxUploadBytes : Z;
  ParallelUploads : Z;
  canceled : Z
}.

Definition incompleteReason (u : Uploader) : string :=
  if negb (canceled u =? 0) then IncompleteReasonCanceled
  else
    let wb := totalWrittenBytes u in
    let mub := MaxUploadBytes u in
    if (0 <? mub) && (mub <? wb) then IncompleteReasonLimitReached
    else "".

Definition IsCanceled (u : Uploader) : bool :=
  negb (String.eqb (incompleteReason u) "").

(** [Cancel]: [atomic.StoreInt32(&u.canceled, 1)]. *)
Definition Cancel (u : Uploader) : Uploader :=
  {| totalWrittenBytes := totalWrittenBytes u;
     MaxUploadBytes := MaxUploadBytes u;
     ParallelUploads := ParallelUploads u;
     canceled := 1 |}.

Definition setTotalWrittenBytes (u : Uploader) (n : Z) : Uploader :=
  {| totalWrittenBytes := n;
     MaxUploadBytes := MaxUploadBytes u;
     ParallelUploads := ParallelUploads u;
     canceled := canceled u |}.

(** The part of [policy.Policy] the uploader reads for its parallelism:
    [UploadPolicy.MaxParallelFileReads], an optional integer. *)
Record Policy : Type := mkPolicy {
  MaxParallelFileReads : option Z
}.

(** [OptionalInt.OrDefault] is declared in the policy package, outside the
    sources at hand: the value when it is set, the default otherwise. *)
Definition OrDefault (o : option Z) (def : Z) : Z :=
  match o with
  | Some v => v
  | None => def
  end.

(** [effectiveParallelFileReads]; [numCPU] is what [runtime.NumCPU()]
    returns. *)
Definition effectiveParallelFileReads (u : Uploader) (pol : Policy) (numCPU : Z) : Z :=
  let p := ParallelUploads u in
  let max := OrDefault (MaxParallelFileReads pol) numCPU in
  if (p <? 1) || (max <? p) then max else p.

(** What [Upload] hands to [workshare.NewPool]. *)
Definition uploadWorkerPoolSize (u : Uploader) (pol : Policy) (numCPU : Z) : Z :=
  let parallel := effectiveParallelFileReads u pol numCPU in
  parallel - 1.

(** What happens to the uploader's shared counters while [Upload] runs:
    the copy loop adds the bytes of a write to [totalWrittenBytes], and
    [Cancel] may be called (by the user, on a fatal error under [FailFast],
    or by a failed checkpoint). *)
Inductive uploadEvent : Type :=
| EvWrote (wroteBytes : Z)
| EvCancel.

Definition uploadStep (u : Uploader) (ev : uploadEvent) : Uploader :=
  match ev with
  | EvWrote n => setTotalWrittenBytes u (add64 (totalWrittenBytes u) n)
  | EvCancel => Cancel u
  end.

(** [Upload] stores 0 into [totalWrittenBytes] before it starts. *)
Definition uploadStart (u : Uploader) : Uploader := setTotalWrittenBytes u 0.

Definition uploadRun (u : Uploader) (evs : list uploadEvent) : Uploader :=
  foldl uploadStep (uploadStart u) evs.

(** [s.IncompleteReason = u.incompleteReason()] at the end of [Upload]. *)
Definition uploadIncompleteReason (u : Uploader) (evs : list uploadEvent) : string :=
  incompleteReason (uploadRun u evs).

(** The first reason a reader of [incompleteReason] could have observed
    during the run: the reason in the earliest state that has one. *)
Fixpoint firstReasonFrom (u : Uploader) (evs : list uploadEvent) : string :=
  if negb (String.eqb (incompleteReason u) "") then incompleteReason u
  else
    match evs with
    | [] => ""
    | ev :: rest => firstReasonFrom (uploadStep u ev) rest
    end.

Definition firstObservedReason (u : Uploader) (evs : list uploadEvent) : string :=
  firstReasonFrom (uploadStart u) evs.

(** *** The directory manifest builder *)

Inductive EntryType : Type :=
| EntryTypeUnknown
| EntryTypeFile
| EntryTypeDirectory
| EntryTypeSymlink.

#[export] Instance EntryType_eq_dec : EqDecision EntryType.
Proof. solve_decision. Defined.

(** [fs.EntryWithError]. *)
Record EntryWithError : Type := mkEntryWithError {
  EntryPath : string;
  Error : string
}.

(** [fs.DirectorySummary]; the counters are 64-bit integers, and
    [FailedEntries] is a slice. *)
Record DirectorySummary : Type := mkSummary {
  TotalFileSize : Z;
  TotalFileCount : Z;
  TotalSymlinkCount : Z;
  TotalDirCount : Z;
  MaxModTime : Time;
  IncompleteReason : string;
  FatalErrorCount : Z;
  IgnoredErrorCount : Z;
  FailedEntries : slice
}.

(** Assignments to the fields of a summary. *)
Definition setTotalFileSize (s : DirectorySummary) (v : Z) : DirectorySummary :=
  mkSummary v (TotalFileCount s) (TotalSymlinkCount s) (TotalDirCount s)
    (MaxModTime s) (IncompleteReason s) (FatalErrorCount s)
    (IgnoredErrorCount s) (FailedEntries s).
Definition setTotalFileCount (s : DirectorySummary) (v : Z) : DirectorySummary :=
  mkSummary (TotalFileSize s) v (TotalSymlinkCount s) (TotalDirCount s)
    (MaxModTime s) (IncompleteReason s) (FatalErrorCount s)
    (IgnoredErrorCount s) (FailedEntries s).
Definition setTotalSymlinkCount (s : DirectorySummary) (v : Z) : DirectorySummary :=
  mkSummary (TotalFileSize s) (TotalFileCount s) v (TotalDirCount s)
    (MaxModTime s) (IncompleteReason s) (FatalErrorCount s)
    (IgnoredErrorCount s) (FailedEntries s).
Definition setTotalDirCount (s : DirectorySummary) (v : Z) : DirectorySummary :=
  mkSummary (TotalFileSize s) (TotalFileCount s) (TotalSymlinkCount s) v
    (MaxModTime s) (IncompleteReason s) (FatalErrorCount s)
    (IgnoredErrorCount s) (FailedEntries s).
Definition setMaxModTime (s : DirectorySummary) (v : Time) : DirectorySummary :=
  mkSummary (TotalFileSize s) (TotalFileCount s) (TotalSymlinkCount s)
    (TotalDirCount s) v (IncompleteReason s) (FatalErrorCount s)
    (IgnoredErrorCount s) (FailedEntries s).
Definition setIncompleteReason (s : DirectorySummary) (v : string) : DirectorySummary :=
  mkSummary (TotalFileSize s) (TotalFileCount s) (TotalSymlinkCount s)
    (TotalDirCount s) (MaxModTime s) v (FatalErrorCount s)
    (IgnoredErrorCount s) (FailedEntries s).
Definition setFatalErrorCount (s : DirectorySummary) (v : Z) : DirectorySummary :=
  mkSummary (TotalFileSize s) (TotalFileCount s) (TotalSymlinkCount s)
    (TotalDirCount s) (MaxModTime s) (IncompleteReason s) v
    (IgnoredErrorCount s) (FailedEntries s).
Definition setIgnoredErrorCount (s : DirectorySummary) (v : Z) : DirectorySummary :=
  mkSummary (TotalFileSize s) (TotalFileCount s) (TotalSymlinkCount s)
    (TotalDirCount s) (MaxModTime s) (IncompleteReason s)
    (FatalErrorCount s) v (FailedEntries s).
Definition setFailedEntries (s : DirectorySummary) (v : slice) : DirectorySummary :=
  mkSummary (TotalFileSize s) (TotalFileCount s) (TotalSymlinkCount s)
    (TotalDirCount s) (MaxModTime s) (IncompleteReason s)
    (FatalErrorCount s) (IgnoredErrorCount s) v.

(** [snapshot.DirEntry]; [DirSummary] is a pointer that may be nil. *)
Record DirEntry : Type := mkDirEntry {
  Name : string;
  Type_ : EntryType;
  Permissions : Z;
  FileSize : Z;
  ModTime : Time;
  UserID : Z;
  GroupID : Z;
  ObjectID : string;
  DirSummary : option DirectorySummary
}.

Record DirManifest : Type := mkDirManifest {
  StreamType : string;
  Summary : DirectorySummary;
  Entries : slice
}.

Record dirManifestBuilder : Type := mkBuilder {
  summary : DirectorySummary;
  entries : slice
}.

(** The backing arrays of the two kinds of slices. *)
Record memory : Type := mkMemory {
  failedStore : gmap positive (list EntryWithError);
  entryStore : gmap positive (list DirEntry)
}.

Definition emptyMemory : memory := {| failedStore := ∅; entryStore := ∅ |}.

(** The zero value of [fs.DirectorySummary] and of the builder. *)
Definition zeroSummary : DirectorySummary :=
  {| TotalFileSize := 0; TotalFileCount := 0; TotalSymlinkCount := 0;
     TotalDirCount := 0; MaxModTime := zeroTime; IncompleteReason := "";
     FatalErrorCount := 0; IgnoredErrorCount := 0; FailedEntries := nilSlice |}.

Definition zeroBuilder : dirManifestBuilder :=
  {| summary := zeroSummary; entries := nilSlice |}.

Definition isDir (e : DirEntry) : bool :=
  bool_decide (Type_ e = EntryTypeDirectory).

(** The comparison [Build] sorts the entries with: directories before
    non-directories, then by name. *)
Definition lessEntry (l r : DirEntry) : bool :=
  if negb (Bool.eqb (isDir l) (isDir r)) then isDir l
  else strLess (Name l) (Name r).

Definition lessFailed (l r : EntryWithError) : bool :=
  strLess (EntryPath l) (EntryPath r).

Section builder.

Variable growCap : nat -> nat -> nat.

(** [fs.MaxFailedEntriesPerDirectorySummary] and [directoryStreamType]
    are constants declared outside the sources at hand. *)
Variable MaxFailedEntriesPerDirectorySummary : nat.
Variable directoryStreamType : string.

Definition addEntry (m : memory) (b : dirManifestBuilder) (de : DirEntry)
  : memory * dirManifestBuilder :=
  let '(es, entries') := appendSlice growCap (entryStore m) (entries b) [de] in
  let s := summary b in
  let s :=
    if After (ModTime de) (MaxModTime s) then setMaxModTime s (ModTime de) else s in
  let '(fs, s) :=
    match Type_ de with
    | EntryTypeSymlink =>
        (failedStore m, setTotalSymlinkCount s (add64 (TotalSymlinkCount s) 1))
    | EntryTypeFile =>
        let s := setTotalFileCount s (add64 (TotalFileCount s) 1) in
        (failedStore m, setTotalFileSize s (add64 (TotalFileSize s) (FileSize de)))
    | EntryTypeDirectory =>
        match DirSummary de with
        | Some childSummary =>
            let s := setTotalFileCount s
                       (add64 (TotalFileCount s) (TotalFileCount childSummary)) in
            let s := setTotalFileSize s
                       (add64 (TotalFileSize s) (TotalFileSize childSummary)) in
            let s := setTotalDirCount s
                       (add64 (TotalDirCount s) (TotalDirCount childSummary)) in
            let s := setFatalErrorCount s
                       (add64 (FatalErrorCount s) (FatalErrorCount childSummary)) in
            let s := setIgnoredErrorCount s
                       (add64 (IgnoredErrorCount s) (IgnoredErrorCount childSummary)) in
            let '(fs, failed') :=
              appendSlice growCap (failedStore m) (FailedEntries s)
                (readSlice (failedStore m) (FailedEntries childSummary)) in
            let s := setFailedEntries s failed' in
            let s :=
              if After (MaxModTime childSummary) (MaxModTime s)
              then setMaxModTime s (MaxModTime childSummary) else s in
            (fs, s)
        | None => (failedStore m, s)
        end
    | EntryTypeUnknown => (failedStore m, s)
    end in
  ({| failedStore := fs; entryStore := es |},
   {| summary := s; entries := entries' |}).

Definition addFailedEntry (m : memory) (b : dirManifestBuilder)
    (relPath : string) (isIgnoredError : bool) (err : string)
  : memory * dirManifestBuilder :=
  let s := summary b in
  let s :=
    if isIgnoredError
    then setIgnoredErrorCount s (add64 (IgnoredErrorCount s) 1)
    else setFatalErrorCount s (add64 (FatalErrorCount s) 1) in
  let '(fs, failed') :=
    appendSlice growCap (failedStore m) (FailedEntries s)
      [{| EntryPath := relPath; Error := err |}] in
  ({| failedStore := fs; entryStore := entryStore m |},
   {| summary := setFailedEntries s failed'; entries := entries b |}).

(** [sortedTopFailures]: sorts the slice it is given in place and returns
    it, cut to the maximum. *)
Definition sortedTopFailures (h : gmap positive (list EntryWithError)) (entries : slice)
  : gmap positive (list EntryWithError) * slice :=
  let h := sortInPlace lessFailed h entries in
  if (MaxFailedEntriesPerDirectorySummary <? sliceLen entries)%nat
  then (h, reslice entries MaxFailedEntriesPerDirectorySummary)
  else (h, entries).

(** [Build]: [s] is a copy of the builder's summary struct, so its
    [FailedEntries] is a second header on the same backing array; the
    result of [sortedTopFailures] is stored in the builder's own summary.
    The manifest holds [s] and the [entries] header. *)
Definition Build (m : memory) (b : dirManifestBuilder)
    (dirModTime : Time) (incompleteReason : string)
  : memory * dirManifestBuilder * DirManifest :=
  let s := summary b in
  let s := setTotalDirCount s (add64 (TotalDirCount s) 1) in
  let entries0 := entries b in
  let s := if (sliceLen entries0 =? 0)%nat then setMaxModTime s dirModTime else s in
  let s := setIncompleteReason s incompleteReason in
  let '(fs, top) := sortedTopFailures (failedStore m) (FailedEntries (summary b)) in
  let b := {| summary := setFailedEntries (summary b) top; entries := entries b |} in
  let es := sortInPlace lessEntry (entryStore m) (entries b) in
  ({| failedStore := fs; entryStore := es |}, b,
   {| StreamType := directoryStreamType; Summary := s; Entries := entries0 |}).

(** What a reader of the returned manifest sees. *)
Definition manifestEntries (m : memory) (man : DirManifest) : list DirEntry :=
  readSlice (entryStore m) (Entries man).

Definition manifestFailedEntries (m : memory) (man : DirManifest) : list EntryWithError :=
  readSlice (failedStore m) (FailedEntries (Summary man)).

(** The calls that feed a builder. *)
Inductive builderOp : Type :=
| OpAddEntry (de : DirEntry)
| OpAddFailedEntry (relPath : string) (isIgnoredError : bool) (err : string).

Definition applyOp (mb : memory * dirManifestBuilder) (op : builderOp)
  : memory * dirManifestBuilder :=
  match op with
  | OpAddEntry de => addEntry mb.1 mb.2 de
  | OpAddFailedEntry p i e => addFailedEntry mb.1 mb.2 p i e
  end.

Definition applyOps (mb : memory * dirManifestBuilder) (ops : list builderOp)
  : memory * dirManifestBuilder :=
  foldl applyOp mb ops.

(** A fresh builder, fed by [ops], then built. *)
Definition buildAfter (ops : list builderOp) (dirModTime : Time) (reason : string)
  : memory * dirManifestBuilder * DirManifest :=
  let mb := applyOps (emptyMemory, zeroBuilder) ops in
  Build mb.1 mb.2 dirModTime reason.

End builder.

End snapshotfs.

(** ** snapshot/snapshotgc: the garbage collector *)

Module snapshotgc.
Import index.

(** Modelled from the spec: [stats.CountSum] (internal/stats is outside
    the sources at hand) - "counters are reported with (count,
    totalPackedBytes) per bucket".  [Add] counts one more item of the given
    size and returns the new count and sum. *)
Record CountSum : Type := mkCountSum {
  csCount : Z;
  csSum : Z
}.

Definition zeroCountSum : CountSum := {| csCount := 0; csSum := 0 |}.

Definition Add (s : CountSum) (size : Z) : CountSum :=
  {| csCount := csCount s + 1; csSum := csSum s + size |}.

Definition Approximate (s : CountSum) : Z * Z := (csCount s, csSum s).

Record Stats : Type := mkStats {
  UnusedCount : Z; UnusedBytes : Z;
  InUseCount : Z; InUseBytes : Z;
  SystemCount : Z; SystemBytes : Z;
  TooRecentCount : Z; TooRecentBytes : Z;
  UndeletedCount : Z; UndeletedBytes : Z
}.

Definition zeroStats : Stats := mkStats 0 0 0 0 0 0 0 0 0 0.

(** [maintenance.SafetyParameters], as far as the collector reads it. *)
Record SafetyParameters : Type := mkSafety {
  MinContentAgeSubjectToGC : Duration
}.

Definition OID : Type := string.

(** What the collector asks of the content manager and the repository;
    [at] is the position, in the iteration, of the content being visited. *)
Inductive call : Type :=
| CallUndeleteContent (at_ : nat) (id : ID)
| CallDeleteContent (at_ : nat) (id : ID)
| CallFlush (at_ : nat).

(** The repository as the collector meets it.  The tree walker, the
    manifest loader and the content manager are outside the sources at
    hand; the record holds what they answer:
    - [walkedObjects]: the object IDs the tree walker reports over the roots
      of all snapshots (or the error of listing, loading or walking),
    - [VerifyObject]: the content IDs behind an object,
    - [contents]: what [IterateContents] yields with [IncludeDeleted],
    - [Time]: the repository clock when the n-th content is visited,
    - the errors, if any, of the calls made while visiting the n-th
      content ([flushErr] at [length contents] is the final flush). *)
Record Repository : Type := mkRepository {
  walkedObjects : result (list OID);
  VerifyObject : OID -> result (list ID);
  contents : list Info;
  Time : nat -> Go.Time;
  undeleteErr : nat -> option error;
  deleteErr : nat -> option error;
  flushErr : nat -> option error
}.

(** Modelled from the spec: the content manager keeps a deleted mark per
    content; [DeleteContent] sets it and [UndeleteContent] clears it (a
    failed call changes nothing).  The marks start as the iteration
    reports them. *)
Definition initiallyDeleted (rep : Repository) : gset ID :=
  list_to_set (GetContentID <$> List.filter GetDeleted (contents rep)).

(** The state of a sweep: how many contents were visited, the calls made,
    the deleted marks, and the five buckets. *)
Record sweepState : Type := mkSweep {
  visited : nat;
  calls : list call;
  deletedNow : gset ID;
  unused : CountSum;
  inUse : CountSum;
  system : CountSum;
  tooRecent : CountSum;
  undeleted : CountSum
}.

Definition startSweep (rep : Repository) : sweepState :=
  {| visited := 0; calls := []; deletedNow := initiallyDeleted rep;
     unused := zeroCountSum; inUse := zeroCountSum; system := zeroCountSum;
     tooRecent := zeroCountSum; undeleted := zeroCountSum |}.

Section gc.

(** [ID.Prefix] and [manifest.ContentPrefix] are declared outside the
    sources at hand. *)
Variable Prefix : ID -> string.
Variable ContentPrefix : string.

(** [findInUseContentIDs]: every content ID behind every object the walker
    reports goes into [used]. *)
Fixpoint storeUsed (rep : Repository) (oids : list OID) (used : gset ID)
  : result (gset ID) :=
  match oids with
  | [] => Ok used
  | oid :: rest =>
      contentIDs ← Wrap (VerifyObject rep oid) "error verifying";
      storeUsed rep rest (used ∪ list_to_set contentIDs)
  end.

Definition findInUseContentIDs (rep : Repository) : result (gset ID) :=
  oids ← walkedObjects rep;
  storeUsed rep oids ∅.

Definition age (rep : Repository) (n : nat) (ci : Info) : Duration :=
  Sub (Time rep n) (Timestamp ci).

(** The callback [runInternal] hands to [IterateContents], for the content
    at position [visited st]. *)
Definition visit (rep : Repository) (gcDelete : bool) (safety : SafetyParameters)
    (used : gset ID) (st : sweepState) (ci : Info) : sweepState * result unit :=
  let n := visited st in
  let next (calls' : list call) (deleted' : gset ID)
           (unused' inUse' system' tooRecent' undeleted' : CountSum) :=
    {| visited := S n; calls := calls'; deletedNow := deleted';
       unused := unused'; inUse := inUse'; system := system';
       tooRecent := tooRecent'; undeleted := undeleted' |} in
  if String.eqb ContentPrefix (Prefix (GetContentID ci)) then
    (next (calls st) (deletedNow st) (unused st) (inUse st)
          (Add (system st) (GetPackedLength ci)) (tooRecent st) (undeleted st),
     Ok tt)
  else if bool_decide (GetContentID ci ∈ used) then
    if GetDeleted ci then
      let calls' := calls st ++ [CallUndeleteContent n (GetContentID ci)] in
      match undeleteErr rep n with
      | Some e =>
          (next calls' (deletedNow st) (unused st) (inUse st) (system st)
                (tooRecent st) (undeleted st),
           Err (ErrWrap e "Could not undelete referenced content"))
      | None =>
          (next calls' (deletedNow st ∖ {[GetContentID ci]}) (unused st)
                (Add (inUse st) (GetPackedLength ci)) (system st) (tooRecent st)
                (Add (undeleted st) (GetPackedLength ci)),
           Ok tt)
      end
    else
      (next (calls st) (deletedNow st) (unused st)
            (Add (inUse st) (GetPackedLength ci)) (system st) (tooRecent st)
            (undeleted st),
       Ok tt)
  else if age rep n ci <? MinContentAgeSubjectToGC safety then
    (next (calls st) (deletedNow st) (unused st) (inUse st) (system st)
          (Add (tooRecent st) (GetPackedLength ci)) (undeleted st),
     Ok tt)
  else
    let unused' := Add (unused st) (GetPackedLength ci) in
    let cnt := csCount unused' in
    let afterDelete : list call * gset ID * option error :=
      if gcDelete then
        match deleteErr rep n with
        | Some e => (calls st ++ [CallDeleteContent n (GetContentID ci)],
                     deletedNow st, Some (ErrWrap e "error deleting content"))
        | None => (calls st ++ [CallDeleteContent n (GetContentID ci)],
                   deletedNow st ∪ {[GetContentID ci]}, None)
        end
      else (calls st, deletedNow st, None) in
    let '(calls', deleted', err) := afterDelete in
    match err with
    | Some e =>
        (next calls' deleted' unused' (inUse st) (system st) (tooRecent st)
              (undeleted st), Err e)
    | None =>
        if (cnt mod 100000 =? 0) && gcDelete then
          match flushErr rep n with
          | Some e =>
              (next (calls' ++ [CallFlush n]) deleted' unused' (inUse st)
                    (system st) (tooRecent st) (undeleted st),
               Err (ErrWrap e "flush error"))
          | None =>
              (next (calls' ++ [CallFlush n]) deleted' unused' (inUse st)
                    (system st) (tooRecent st) (undeleted st), Ok tt)
          end
        else
          (next calls' deleted' unused' (inUse st) (system st) (tooRecent st)
                (undeleted st), Ok tt)
    end.

(** [IterateContents]: the callback on every content, in order, until it
    returns an error. *)
Fixpoint iterateContents (rep : Repository) (gcDelete : bool)
    (safety : SafetyParameters) (used : gset ID) (st : sweepState)
    (cis : list Info) : sweepState * result unit :=
  match cis with
  | [] => (st, Ok tt)
  | ci :: rest =>
      match visit rep gcDelete safety used st ci with
      | (st', Ok _) => iterateContents rep gcDelete safety used st' rest
      | (st', Err e) => (st', Err e)
      end
  end.

Definition statsOf (st : sweepState) : Stats :=
  {| UnusedCount := (Approximate (unused st)).1;
     UnusedBytes := (Approximate (unused st)).2;
     InUseCount := (Approximate (inUse st)).1;
     InUseBytes := (Approximate (inUse st)).2;
     SystemCount := (Approximate (system st)).1;
     SystemBytes := (Approximate (system st)).2;
     TooRecentCount := (Approximate (tooRecent st)).1;
     TooRecentBytes := (Approximate (tooRecent st)).2;
     UndeletedCount := (Approximate (undeleted st)).1;
     UndeletedBytes := (Approximate (undeleted st)).2 |}.

Definition addCall (st : sweepState) (c : call) : sweepState :=
  {| visited := visited st; calls := calls st ++ [c];
     deletedNow := deletedNow st; unused := unused st; inUse := inUse st;
     system := system st; tooRecent := tooRecent st;
     undeleted := undeleted st |}.

(** [runInternal]: the sweep's final state, the statistics handed back,
    and the error returned (or nil). *)
Definition runInternal (rep : Repository) (gcDelete : bool)
    (safety : SafetyParameters) : sweepState * Stats * result unit :=
  match findInUseContentIDs rep with
  | Err e =>
      (startSweep rep, zeroStats,
       Err (ErrWrap e "unable to find in-use content ID"))
  | Ok used =>
      let '(st, err) :=
        iterateContents rep gcDelete safety used (startSweep rep) (contents rep) in
      let stats := statsOf st in
      match err with
      | Err e => (st, stats, Err (ErrWrap e "error iterating contents"))
      | Ok _ =>
          if (0 <? UnusedCount stats) && negb gcDelete then
            (st, stats,
             Err (ErrNew "Not deleting because '--delete' flag was not set"))
          else
            let st := addCall st (CallFlush (visited st)) in
            match flushErr rep (visited st) with
            | Some e => (st, stats, Err (ErrWrap e "flush error"))
            | None => (st, stats, Ok tt)
            end
      end
  end.

(** [Run]: [maintenance.ReportRun] (outside the sources at hand) runs the
    task and hands back its error. *)
Definition Run (rep : Repository) (gcDelete : bool) (safety : SafetyParameters)
  : sweepState * Stats * result unit :=
  let '(st, stats, err) := runInternal rep gcDelete safety in
  (st, stats, Wrap err "error running snapshot gc").

(** The contents of each bucket, read off the repository. *)
Definition isSystem (ci : Info) : bool :=
  String.eqb ContentPrefix (Prefix (GetContentID ci)).

Definition isUsed (used : gset ID) (ci : Info) : bool :=
  bool_decide (GetContentID ci ∈ used).

End gc.

End snapshotgc.

(** * Vocabulary of the properties, and sample inputs *)

(** ** Orders *)

Module OrderSpec.

(** [a <= b] in the byte-wise order. *)
Definition strLe (a b : string) : Prop := strLess b a = false.

End OrderSpec.

(** ** The merged index *)

Module MergedSpec.
Import index.


End MergedSpec.

Module MergedSamples.
Import index.




End MergedSamples.

(** ** The committed content index *)

Module CommittedSamples.
Import index content.

(** A cache that cannot open any index. *)
Definition brokenCache : committedContentIndexCache :=
  {| openIndex := fun _ => Err (ErrNew "unable to read index blob");
     expireUnused := fun _ => Ok tt |}.

Definition emptyCommitted : committedContentIndex :=
  {| rev := 7; cache := brokenCache; deletionWatermark := 100;
     inUse := ∅; merged := [] |}.

(** A builder and an opener of combined indexes that are never reached when
    no index can be opened. *)
Definition noBuild (entries : list Info) : result (list Z) :=
  Err (ErrNew "not reached").

Definition noOpen (buf : list Z) : result Index :=
  Err (ErrNew "not reached").

(** A cache that opens every index blob as an empty pack index, and an
    index that uses no blob yet. *)
Definition emptyIndexCache : committedContentIndexCache :=
  {| openIndex := fun _ => Ok (packIndex []);
     expireUnused := fun _ => Ok tt |}.

Definition freshCommitted : committedContentIndex :=
  {| rev := 0; cache := emptyIndexCache; deletionWatermark := 0;
     inUse := ∅; merged := [] |}.

(** A builder and an opener of combined indexes that always succeed, and
    an index that uses the blobs [n1] and [n2]. *)
Definition buildEmpty (entries : list Info) : result (list Z) := Ok [].

Definition openEmpty (buf : list Z) : result Index := Ok (packIndex []).

Definition committedTwo : committedContentIndex :=
  {| rev := 3; cache := emptyIndexCache; deletionWatermark := 0;
     inUse := {["n1"%string := packIndex []; "n2"%string := packIndex []]};
     merged := [packIndex []; packIndex []] |}.

End CommittedSamples.

(** ** The v2 index builder *)

Module IndexBuilderSpec.
Import index.

(** One running maximum, as [maxContentLengths] keeps three of them. *)
Definition runningMax (g : Info -> Z) (init : Z) (infos : list Info) : Z :=
  foldl (fun acc v => if acc <? g v then g v else acc) init infos.

End IndexBuilderSpec.

(** ** The uploader *)

Module UploaderSpec.
Import snapshotfs.

(** An event that leaves the byte counter no lower: a cancel request, or a
    write of a positive number of bytes that keeps the counter within the
    64-bit range. *)
Definition keepsCounting (u : Uploader) (ev : uploadEvent) : Prop :=
  match ev with
  | EvWrote n => 0 < n /\ totalWrittenBytes u + n <= maxInt64
  | EvCancel => True
  end.

End UploaderSpec.

Module UploaderSamples.
Import snapshotfs.

(** An upload limited to 1000 bytes that writes 2000 bytes and is then
    canceled. *)
Definition limitedUploader : Uploader := mkUploader 0 1000 0 0.

Definition limitThenCancel : list uploadEvent := [EvWrote 2000; EvCancel].

End UploaderSamples.

(** ** The directory manifest builder *)

Module BuilderSpec.
Import slices snapshotfs.

(** The entries handed to [addEntry], in order. *)
Definition addedEntries (ops : list builderOp) : list DirEntry :=
  omap (fun op => match op with
                  | OpAddEntry de => Some de
                  | OpAddFailedEntry _ _ _ => None
                  end) ops.

(** The failed entries handed to [addFailedEntry], in order. *)
Definition addedFailures (ops : list builderOp) : list EntryWithError :=
  omap (fun op => match op with
                  | OpAddEntry _ => None
                  | OpAddFailedEntry p _ e => Some (mkEntryWithError p e)
                  end) ops.

(** By path, and by name: not after, in the byte-wise order. *)
Definition pathLe (x y : EntryWithError) : Prop :=
  strLess (EntryPath y) (EntryPath x) = false.

Definition nameLe (x y : DirEntry) : Prop :=
  strLess (Name y) (Name x) = false.

(** Both slices of a builder lie within their backing arrays. *)
Definition wfBuilder (m : memory) (b : dirManifestBuilder) : Prop :=
  wfSlice (entryStore m) (entries b)
  /\ wfSlice (failedStore m) (FailedEntries (summary b)).

(** Feeding a builder with failed entries only. *)
Definition failureOps (failures : list (string * bool * string)) : list builderOp :=
  (fun f => OpAddFailedEntry f.1.1 f.1.2 f.2) <$> failures.

Definition failureRecords (failures : list (string * bool * string))
  : list EntryWithError :=
  (fun f => mkEntryWithError f.1.1 f.2) <$> failures.

(** What one call adds to each counter of the summary. *)
Definition childOf (de : DirEntry) : option DirectorySummary :=
  match Type_ de with
  | EntryTypeDirectory => DirSummary de
  | _ => None
  end.

Definition filesOf (op : builderOp) : Z :=
  match op with
  | OpAddEntry de =>
      match Type_ de with
      | EntryTypeFile => 1
      | _ => from_option TotalFileCount 0 (childOf de)
      end
  | OpAddFailedEntry _ _ _ => 0
  end.

Definition sizeOf (op : builderOp) : Z :=
  match op with
  | OpAddEntry de =>
      match Type_ de with
      | EntryTypeFile => FileSize de
      | _ => from_option TotalFileSize 0 (childOf de)
      end
  | OpAddFailedEntry _ _ _ => 0
  end.

Definition dirsOf (op : builderOp) : Z :=
  match op with
  | OpAddEntry de => from_option TotalDirCount 0 (childOf de)
  | OpAddFailedEntry _ _ _ => 0
  end.

Definition fatalOf (op : builderOp) : Z :=
  match op with
  | OpAddEntry de => from_option FatalErrorCount 0 (childOf de)
  | OpAddFailedEntry _ isIgnored _ => if isIgnored then 0 else 1
  end.

Definition ignoredOf (op : builderOp) : Z :=
  match op with
  | OpAddEntry de => from_option IgnoredErrorCount 0 (childOf de)
  | OpAddFailedEntry _ isIgnored _ => if isIgnored then 1 else 0
  end.

Definition total (w : builderOp -> Z) (ops : list builderOp) : Z :=
  foldr (fun op acc => w op + acc) 0 ops.

(** No call adds a negative amount, and no counter leaves the range of a
    64-bit integer (the directory count has room for the one of [Build]). *)
Definition nonNegativeOp (op : builderOp) : bool :=
  (0 <=? filesOf op) && (0 <=? sizeOf op) && (0 <=? dirsOf op)
  && (0 <=? fatalOf op) && (0 <=? ignoredOf op).

Definition withinInt64 (ops : list builderOp) : bool :=
  forallb nonNegativeOp ops
  && (total filesOf ops <=? maxInt64) && (total sizeOf ops <=? maxInt64)
  && (total dirsOf ops <? maxInt64)
  && (total fatalOf ops <=? maxInt64) && (total ignoredOf ops <=? maxInt64).

Definition countersAre (s : DirectorySummary) (files size dirs fatal ignored : Z) : Prop :=
  TotalFileCount s = files /\ TotalFileSize s = size /\ TotalDirCount s = dirs
  /\ FatalErrorCount s = fatal /\ IgnoredErrorCount s = ignored.

End BuilderSpec.

Module BuilderSamples.
Import slices snapshotfs BuilderSpec.

(** Eleven files that could not be read, in a directory whose summaries
    are to hold at most ten failed entries. *)
Definition elevenFailures : list (string * bool * string) :=
  (fun p => (p, false, "permission denied"%string)) <$>
  ["k"; "j"; "i"; "h"; "g"; "f"; "e"; "d"; "c"; "b"; "a"]%string.

(** A directory with a subdirectory (three files, an ignored error), a
    file, a symlink and one entry that failed. *)
Definition subdirSummary : DirectorySummary :=
  mkSummary 3000 3 0 1 1700000000 "" 0 1 nilSlice.

Definition sampleOps : list builderOp :=
  [OpAddEntry (mkDirEntry "sub" EntryTypeDirectory 493 0 1600000000 0 0 "k1"
                 (Some subdirSummary));
   OpAddEntry (mkDirEntry "a.txt" EntryTypeFile 420 12 1650000000 0 0 "o1" None);
   OpAddFailedEntry "b.txt" false "permission denied";
   OpAddEntry (mkDirEntry "link" EntryTypeSymlink 511 5 1500000000 0 0 "o2" None)].

(** An entry of type file that carries a directory summary (a placeholder
    can hold any entry): [addEntry] counts one file and ignores the
    summary. *)
Definition fileWithSummary : DirEntry :=
  mkDirEntry "f" EntryTypeFile 420 0 0 0 0 "o1"
    (Some (mkSummary 0 5 0 0 0 "" 0 0 nilSlice)).

(** Two subdirectories, one of whose summaries holds a negative count. *)
Definition dirFive : DirEntry :=
  mkDirEntry "a" EntryTypeDirectory 493 0 0 0 0 "k1"
    (Some (mkSummary 0 5 0 1 0 "" 0 0 nilSlice)).

Definition dirMinusSeven : DirEntry :=
  mkDirEntry "b" EntryTypeDirectory 493 0 0 0 0 "k2"
    (Some (mkSummary 0 (-7) 0 1 0 "" 0 0 nilSlice)).

(** A subdirectory whose total size is the greatest 64-bit integer, next
    to a file of one byte. *)
Definition dirHuge : DirEntry :=
  mkDirEntry "a" EntryTypeDirectory 493 0 0 0 0 "k1"
    (Some (mkSummary maxInt64 1 0 1 0 "" 0 0 nilSlice)).

Definition oneByteFile : DirEntry :=
  mkDirEntry "z" EntryTypeFile 420 1 0 0 0 "o1" None.

End BuilderSamples.

(** ** The sweep of the garbage collector *)

Module SweepSpec.
Import index snapshotgc.

(** The contents a predicate on position and content selects, the first
    content being at position [base]. *)
Fixpoint bucket (p : nat -> Info -> bool) (base : nat) (cis : list Info) : list Info :=
  match cis with
  | [] => []
  | ci :: rest =>
      if p base ci then ci :: bucket p (S base) rest
      else bucket p (S base) rest
  end.

Definition sumPacked (cis : list Info) : Z :=
  foldr (fun ci acc => GetPackedLength ci + acc) 0 cis.

(** A counter holds exactly the contents [cis] more than another. *)
Definition holdsMore (after before : CountSum) (cis : list Info) : Prop :=
  csCount after = csCount before + Z.of_nat (length cis)
  /\ csSum after = csSum before + sumPacked cis.

Section gc.
Variable Prefix : ID -> string.
Variable ContentPrefix : string.
Variable rep : Repository.
Variable gcDelete : bool.
Variable safety : SafetyParameters.
Variable used : gset ID.

Abbreviation isSystem := (isSystem Prefix ContentPrefix).

(** The five buckets, as predicates on a content visited at a position. *)
Definition inUseAt (n : nat) (ci : Info) : bool :=
  negb (isSystem ci) && isUsed used ci.

Definition undeletedAt (n : nat) (ci : Info) : bool :=
  negb (isSystem ci) && isUsed used ci && GetDeleted ci.

Definition tooRecentAt (n : nat) (ci : Info) : bool :=
  negb (isSystem ci) && negb (isUsed used ci)
  && (age rep n ci <? MinContentAgeSubjectToGC safety).

Definition unusedAt (n : nat) (ci : Info) : bool :=
  negb (isSystem ci) && negb (isUsed used ci)
  && negb (age rep n ci <? MinContentAgeSubjectToGC safety).

(** What a call made while visiting [ci] at position [n] can be. *)
Definition callAt (n : nat) (ci : Info) (c : call) : Prop :=
  match c with
  | CallUndeleteContent k id =>
      k = n /\ id = GetContentID ci /\ undeletedAt n ci = true
  | CallDeleteContent k id =>
      k = n /\ id = GetContentID ci /\ unusedAt n ci = true /\ gcDelete = true
  | CallFlush k => k = n
  end.

(** What a call made during an iteration over [cis], started at position
    [base], can be. *)
Definition callDuring (base : nat) (cis : list Info) (c : call) : Prop :=
  match c with
  | CallFlush _ => True
  | _ => exists i ci, cis !! i = Some ci /\ callAt (base + i) ci c
  end.

End gc.

Section run.
Variable Prefix : ID -> string.
Variable ContentPrefix : string.

(** The unreferenced, non-system contents that are younger than the
    minimum age when they are visited. *)
Definition tooRecentContents (rep : Repository) (safety : SafetyParameters)
    (used : gset ID) (cis : list Info) : list Info :=
  bucket (tooRecentAt Prefix ContentPrefix rep safety used) 0 cis.

(** The referenced, non-system contents, and those of them that are
    marked deleted. *)
Definition inUseContents (used : gset ID) (cis : list Info) : list Info :=
  bucket (inUseAt Prefix ContentPrefix used) 0 cis.

Definition undeletedContents (used : gset ID) (cis : list Info) : list Info :=
  bucket (undeletedAt Prefix ContentPrefix used) 0 cis.

End run.

Section buckets.
Variable Prefix : ID -> string.
Variable ContentPrefix : string.

(** The unreferenced, non-system contents that have reached the minimum
    age when they are visited, and the contents with the manifest prefix. *)
Definition unusedContents (rep : Repository) (safety : SafetyParameters)
    (used : gset ID) (cis : list Info) : list Info :=
  bucket (unusedAt Prefix ContentPrefix rep safety used) 0 cis.

Definition systemContents (cis : list Info) : list Info :=
  bucket (fun _ ci => isSystem Prefix ContentPrefix ci) 0 cis.

End buckets.

End SweepSpec.

Module SweepSamples.
Import index snapshotgc SweepSpec.

(** A content ID's prefix: its first character when that is a letter from
    g to z (hexadecimal digits are the hash). *)
Definition samplePrefix (id : ID) : string :=
  match id with
  | String c _ =>
      if (Ascii.leb "g" c && Ascii.leb c "z")%char then String c "" else ""
  | EmptyString => ""
  end.

Definition oneHour : Duration := 3600 * 1000000000.

(** A repository whose one snapshot references the content [aabbcc],
    which is marked deleted. *)
Definition repoWithDeletedX : Repository :=
  {| walkedObjects := Ok ["k7f00"%string];
     VerifyObject := fun _ => Ok ["aabbcc"%string];
     contents := [InfoStruct "aabbcc" 1000 "p1" 0 true 80 100 1 0 0];
     Time := fun _ => Unix 100000;
     undeleteErr := fun _ => None;
     deleteErr := fun _ => None;
     flushErr := fun _ => None |}.

(** A repository with one content, [m0012], written ten minutes ago: it
    carries the manifest prefix and no snapshot references it. *)
Definition repoWithYoungManifest : Repository :=
  {| walkedObjects := Ok [];
     VerifyObject := fun _ => Ok [];
     contents := [InfoStruct "m0012" 1000 "q1" 0 false 80 100 1 0 0];
     Time := fun _ => Unix 1600;
     undeleteErr := fun _ => None;
     deleteErr := fun _ => None;
     flushErr := fun _ => None |}.

Definition youngManifestRun : sweepState * Stats * result unit :=
  Run samplePrefix "m" repoWithYoungManifest true (mkSafety oneHour).

(** A repository in which a snapshot's object resolves to the content
    [m0011], which carries the manifest prefix and is marked deleted. *)
Definition repoWithDeletedManifest : Repository :=
  {| walkedObjects := Ok ["m0011"%string];
     VerifyObject := fun _ => Ok ["m0011"%string];
     contents := [InfoStruct "m0011" 1000 "q1" 0 true 80 100 1 0 0];
     Time := fun _ => Unix 100000;
     undeleteErr := fun _ => None;
     deleteErr := fun _ => None;
     flushErr := fun _ => None |}.

Definition manifestRun : sweepState * Stats * result unit :=
  Run samplePrefix "m" repoWithDeletedManifest true (mkSafety oneHour).

(** A repository with one content of each kind: [aabbcc] is referenced,
    [ddeeff] is unreferenced and old, [112233] is unreferenced and ten
    minutes old, [m0001] carries the manifest prefix. *)
Definition repoWithGarbage : Repository :=
  {| walkedObjects := Ok ["k7f00"%string];
     VerifyObject := fun _ => Ok ["aabbcc"%string];
     contents := [InfoStruct "aabbcc" 1000 "p1" 0 false 80 100 1 0 0;
                  InfoStruct "ddeeff" 1000 "p1" 100 false 60 70 1 0 0;
                  InfoStruct "112233" 99400 "p2" 0 false 40 50 1 0 0;
                  InfoStruct "m0001" 1000 "q1" 0 false 20 30 1 0 0];
     Time := fun _ => Unix 100000;
     undeleteErr := fun _ => None;
     deleteErr := fun _ => None;
     flushErr := fun _ => None |}.

End SweepSamples.

(** ** Pack index v2: ranges of the fields, the header, the order of keys *)

Module IndexV2Spec.
Import index.

(** The ranges of the Go types behind the fields of an [Info]: [uint32]
    for the pack offset, the two lengths and the compression header ID,
    [byte] for the format version and the encryption key ID. *)
Definition inRange (it : Info) : Prop :=
  0 <= GetPackOffset it < 2 ^ 32
  /\ 0 <= GetOriginalLength it < 2 ^ 32
  /\ 0 <= GetPackedLength it < 2 ^ 32
  /\ 0 <= GetFormatVersion it < 256
  /\ 0 <= GetCompressionHeaderID it < 2 ^ 32
  /\ 0 <= GetEncryptionKeyID it < 256.

Definition formatInRange (f : indexV2FormatInfo) : Prop :=
  0 <= compressionHeaderID f < 2 ^ 32
  /\ 0 <= formatVersion f < 256
  /\ 0 <= encryptionKeyID f < 256.

(** A map that numbers its keys: the values are the numbers below its
    size, each given once. *)
Definition numbering {K} `{Countable K} (m : gmap K Z) : Prop :=
  (forall k v, m !! k = Some v -> 0 <= v < Z.of_nat (size m))
  /\ (forall k1 k2 v, m !! k1 = Some v -> m !! k2 = Some v -> k1 = k2).

(** The header [buildV2] writes for a builder. *)
Definition v2Header (b2 : indexBuilderV2) : list Z :=
  [Version2; wrapU8 (keyLength b2)]
  ++ PutUint16 (wrapU16 (entrySize b2))
  ++ PutUint32 (wrapU32 (entryCount b2))
  ++ PutUint32 (wrapU32 (Z.of_nat (size (packID2Index b2))))
  ++ [wrapU8 (Z.of_nat (size (uniqueFormatInfo2Index b2)))]
  ++ PutUint32 (wrapU32 (baseTimestamp b2)).

(** The keys of an index are in order when the comparison of two of them
    says which comes first. *)
Definition keysInOrder (greaterOrEqual : list Z -> list Z -> bool)
    (keys : list (list Z)) : Prop :=
  forall i j ki kj, keys !! i = Some ki -> keys !! j = Some kj ->
    (greaterOrEqual ki kj = true <-> (j <= i)%nat).

(** What the reader asks of a key, and of the name of a pack blob: an
    entry of the largest size with its key is within [v2MaxEntrySize], the
    length of the key is not the unknown one, and the length of the name
    fits the byte it is written in. *)
Definition keyFits (contentIDToBytes : ID -> list Z) (unknownKeySize : Z)
    (it : Info) : Prop :=
  len (contentIDToBytes (GetContentID it)) + v2EntryMaxLength <= indexV2.v2MaxEntrySize
  /\ len (contentIDToBytes (GetContentID it)) <> unknownKeySize.

Definition packNameFits (it : Info) : Prop :=
  Z.of_nat (String.length (GetPackBlobID it)) < 256.

End IndexV2Spec.

Module IndexV2Samples.
Import index.

(** Two contents in two pack blobs, the second one deleted; keys of two
    bytes, compared byte by byte, as [bytes.Compare(a, b) >= 0] does. *)
Fixpoint bytesGreaterOrEqual (a b : list Z) : bool :=
  match a, b with
  | _, [] => true
  | [], _ :: _ => false
  | x :: a, y :: b =>
      if x <? y then false else if y <? x then true else bytesGreaterOrEqual a b
  end.

Definition entryAB : Info := InfoStruct "ab" 1700000000 "p1" 0 false 10 8 1 0 0.
Definition entryCD : Info := InfoStruct "cd" 1700000100 "p2" 8 true 70000 16 2 1 0.
Definition twoInfos : list Info := [entryAB; entryCD].

Definition twoFile : list Z := (buildV2 bytesOf twoInfos).1.

Definition twoFormats : list indexV2FormatInfo :=
  [mkFormatInfo 0 1 0; mkFormatInfo 1 2 0].

End IndexV2Samples.

(** ** Pack index v2: what [Iterate] visits *)

Module IterateSpec.
Import index.

(** A callback run over entries one after the other, until it fails. *)
Fixpoint visitAll {State : Type}
    (cb : State -> indexV2.indexV2EntryInfo -> State * option error)
    (s : State) (es : list indexV2.indexV2EntryInfo) : State * result unit :=
  match es with
  | [] => (s, Ok tt)
  | e :: es =>
      match cb s e with
      | (s, Some err) => (s, Err err)
      | (s, None) => visitAll cb s es
      end
  end.

(** [StartID <= id < EndID], in the order of strings. *)
Definition inIDRange (r : indexV2.IDRange) (id : ID) : bool :=
  negb (strLess id (indexV2.StartID r)) && strLess id (indexV2.EndID r).

(** The getters of an entry read return the fields of an entry written,
    the timestamp within 32 bits. *)
Definition sameFields (it : Info) (e : indexV2.indexV2EntryInfo) : Prop :=
  indexV2.GetContentID e = GetContentID it
  /\ indexV2.GetTimestampSeconds e = GetTimestampSeconds it mod 2 ^ 32
  /\ indexV2.GetDeleted e = GetDeleted it
  /\ indexV2.GetPackBlobID e = GetPackBlobID it
  /\ indexV2.GetPackOffset e = GetPackOffset it
  /\ indexV2.GetOriginalLength e = GetOriginalLength it
  /\ indexV2.GetPackedLength e = GetPackedLength it
  /\ indexV2.GetFormatVersion e = Ok (GetFormatVersion it)
  /\ indexV2.GetCompressionHeaderID e = Ok (GetCompressionHeaderID it)
  /\ indexV2.GetEncryptionKeyID e = Ok (GetEncryptionKeyID it).

(** The content IDs of a list of entries increase, in the order of
    strings. *)
Definition idsIncrease (infos : list Info) : Prop :=
  forall i j a b, infos !! i = Some a -> infos !! j = Some b -> (i < j)%nat ->
    strLess (GetContentID a) (GetContentID b) = true.

(** The entry of an index that holds the bytes written for an entry. *)
Definition writtenEntry (b2 : indexBuilderV2) (idx : indexV2.indexV2) (it : Info)
  : indexV2.indexV2EntryInfo :=
  indexV2.mkEntryInfo
    (match writeIndexValueEntry b2 it with Ok d => d | Err _ => [] end)
    (GetContentID it) idx.

End IterateSpec.

(** ** Pack index v2: the writes of a build *)

Module BuildWriterSpec.
Import index IndexV2Spec.

(** A writer that does not fail and keeps what it is handed: the
    [bytes.Buffer] of [indexWithItems], behind [bufio.NewWriter]. *)
Definition bufferWrite (w p : list Z) : list Z * option error := (w ++ p, None).
Definition bufferFlush (w : list Z) : list Z * option error := (w, None).

Section writer.
Context {Writer : Type}.
Variable Write : Writer -> list Z -> Writer * option error.
Variable Flush : Writer -> Writer * option error.

(** The writer after the writes of [chunks], one after the other, when
    none of them fails. *)
Fixpoint acceptsAll (w : Writer) (chunks : list (list Z)) : option Writer :=
  match chunks with
  | [] => Some w
  | p :: rest =>
      match Write w p with
      | (w, None) => acceptsAll w rest
      | (_, Some _) => None
      end
  end.

(** The writer takes the writes of [chunks] and the flush after them. *)
Definition accepts (w : Writer) (chunks : list (list Z)) : bool :=
  match acceptsAll w chunks with
  | Some w =>
      match Flush w with
      | (_, None) => true
      | (_, Some _) => false
      end
  | None => false
  end.

End writer.

(** What [buildV2] writes for an entry, write by write: the key and the
    value. *)
Definition entryWrites (contentIDToBytes : ID -> list Z) (b : indexBuilderV2)
    (it : Info) : list (list Z) :=
  [contentIDToBytes (GetContentID it);
   match writeIndexValueEntry b it with Ok d => d | Err _ => [] end].

(** What [buildV2] writes, write by write: the header, the entries, the
    pack blob entries, the format entries and the extra data. *)
Definition buildWrites (contentIDToBytes : ID -> list Z) (infos : list Info)
  : list (list Z) :=
  match newIndexBuilderV2 contentIDToBytes infos with
  | Err _ => []
  | Ok b0 =>
      let '(b2, extraData) := prepareExtraData b0 infos in
      [v2Header b2]
      ++ flat_map (entryWrites contentIDToBytes b2) infos
      ++ (writePackIDEntry b2 <$> reverseIndex ""%string (packID2Index b2))
      ++ (writeFormatInfoEntry
            <$> reverseIndex (mkFormatInfo 0 0 0) (uniqueFormatInfo2Index b2))
      ++ [extraData]
  end.

End BuildWriterSpec.

(** * Properties *)

(** ** 64-bit arithmetic *)

Module Int64Props.

(** Within the range of an int64 nothing wraps. *)
Lemma wrap64_id (z : Z) : minInt64 <= z <= maxInt64 -> wrap64 z = z.
Proof.
  unfold wrap64, minInt64, maxInt64. intros H.
  rewrite Z.mod_small; lia.
Qed.

Lemma add64_exact (a b : Z) :
  minInt64 <= a + b <= maxInt64 -> add64 a b = a + b.
Proof. apply wrap64_id. Qed.

End Int64Props.

(** ** Byte-wise string order *)

Module StringOrder.
Import OrderSpec.

Lemma ascii_compare_refl c : Ascii.compare c c = Eq.
Proof. unfold Ascii.compare. apply N.compare_refl. Qed.

Lemma ascii_compare_lt_trans a b c :
  Ascii.compare a b = Lt -> Ascii.compare b c = Lt -> Ascii.compare a c = Lt.
Proof.
  unfold Ascii.compare. rewrite !N.compare_lt_iff. apply N.lt_trans.
Qed.

Lemma compare_refl s : String.compare s s = Eq.
Proof.
  induction s as [|c s IH]; simpl; [done|].
  by rewrite ascii_compare_refl.
Qed.

Lemma compare_lt_trans a : forall b c,
  String.compare a b = Lt -> String.compare b c = Lt -> String.compare a c = Lt.
Proof.
  induction a as [|x a IH]; intros [|y b] [|z c]; simpl; try done.
  destruct (Ascii.compare x y) eqn:Hxy; try done;
    destruct (Ascii.compare y z) eqn:Hyz; try done.
  - apply Ascii.compare_eq_iff in Hxy, Hyz. subst.
    rewrite ascii_compare_refl. apply IH.
  - apply Ascii.compare_eq_iff in Hxy. subst. by rewrite Hyz.
  - apply Ascii.compare_eq_iff in Hyz. subst. by rewrite Hxy.
  - by rewrite (ascii_compare_lt_trans _ _ _ Hxy Hyz).
Qed.


Lemma strLess_trans a b c :
  strLess a b = true -> strLess b c = true -> strLess a c = true.
Proof.
  unfold strLess, String.ltb.
  destruct (String.compare a b) eqn:Hab; try done.
  destruct (String.compare b c) eqn:Hbc; try done.
  by rewrite (compare_lt_trans _ _ _ Hab Hbc).
Qed.

Lemma strLess_asym a b : strLess a b = true -> strLess b a = false.
Proof.
  unfold strLess, String.ltb. rewrite (String.compare_antisym b a).
  by destruct (String.compare a b).
Qed.

Lemma strLess_total a b :
  strLess a b = false -> strLess b a = false -> a = b.
Proof.
  unfold strLess, String.ltb. rewrite (String.compare_antisym b a).
  destruct (String.compare a b) eqn:H; try done.
  intros _ _. by apply String.compare_eq_iff.
Qed.

Lemma strLe_trans a b c : strLe a b -> strLe b c -> strLe a c.
Proof.
  unfold strLe. intros Hab Hbc.
  destruct (strLess c a) eqn:Hca; [|done].
  destruct (strLess b c) eqn:Hbc'.
  - by rewrite (strLess_trans _ _ _ Hbc' Hca) in Hab.
  - rewrite (strLess_total _ _ Hbc' Hbc) in Hab. congruence.
Qed.

End StringOrder.

(** ** The merged index *)

Module MergedProps.
Import index StringOrder.







End MergedProps.

Module MergedIndex.
Import index MergedSpec MergedSamples StringOrder MergedProps.



Section merged.
Variable keepNew : Info -> Info -> bool.




End merged.


End MergedIndex.

(** ** The committed content index *)

Module CommittedIndex.
Import index content CommittedSamples.

Lemma shouldIgnore_spec (info : Info) (watermark : Time) :
  shouldIgnore info watermark = true <->
  GetDeleted info = true /\ Timestamp info <= watermark.
Proof.
  unfold shouldIgnore, After.
  destruct (GetDeleted info); simpl.
  - rewrite negb_true_iff, Z.ltb_ge. tauto.
  - split; [done|]. by intros [? _].
Qed.

(** C5.  [getContent] returns [ErrContentNotFound] exactly when the merged
    lookup finds nothing (no entry and no error), or finds an entry that is
    deleted and whose timestamp is not after the deletion watermark.  Every
    other entry found is returned as it is: in particular a deleted entry
    whose timestamp is after the watermark. *)
Theorem getContent_not_found_iff
    (mergedGetInfo : Merged -> ID -> option Info * option error)
    (c : committedContentIndex) (contentID : ID) :
  (getContent mergedGetInfo c contentID = Err ErrContentNotFound <->
     mergedGetInfo (merged c) contentID = (None, None)
     \/ exists info err,
          mergedGetInfo (merged c) contentID = (Some info, err)
          /\ GetDeleted info = true
          /\ Timestamp info <= deletionWatermark c)
  /\ (forall info err,
        mergedGetInfo (merged c) contentID = (Some info, err) ->
        ~ (GetDeleted info = true /\ Timestamp info <= deletionWatermark c) ->
        getContent mergedGetInfo c contentID = Ok info)
  /\ (forall info err,
        mergedGetInfo (merged c) contentID = (Some info, err) ->
        GetDeleted info = true -> deletionWatermark c < Timestamp info ->
        getContent mergedGetInfo c contentID = Ok info).
Proof.
  unfold getContent.
  destruct (mergedGetInfo (merged c) contentID) as [[info|] [e|]] eqn:Hm;
    (split; [|split]).
  all: try (intros info' err' [= <- <-] Hn;
            destruct (shouldIgnore info (deletionWatermark c)) eqn:Hs; [|done];
            apply shouldIgnore_spec in Hs; tauto).
  all: try (intros info' err' [= <- <-] Hd Hlt;
            destruct (shouldIgnore info (deletionWatermark c)) eqn:Hs; [|done];
            apply shouldIgnore_spec in Hs; lia).
  all: try (intros info' err' [=]).
  - destruct (shouldIgnore info (deletionWatermark c)) eqn:Hs.
    + apply shouldIgnore_spec in Hs. split; [|done]. intros _. right. eauto.
    + split; [done|]. intros [[=]|(i & er & [= <- <-] & Hd & Hle)].
      assert (shouldIgnore info (deletionWatermark c) = true) as ?
        by (by apply shouldIgnore_spec).
      congruence.
  - destruct (shouldIgnore info (deletionWatermark c)) eqn:Hs.
    + apply shouldIgnore_spec in Hs. split; [|done]. intros _. right. eauto.
    + split; [done|]. intros [[=]|(i & er & [= <- <-] & Hd & Hle)].
      assert (shouldIgnore info (deletionWatermark c) = true) as ?
        by (by apply shouldIgnore_spec).
      congruence.
  - split; [done|]. intros [[=]|(i & er & [=] & _)].
  - split; [|done]. intros _. by left.
Qed.

(** The same, read through the merged lookup modelled in [index]. *)
Lemma getContent_merged (keepNew : Info -> Info -> bool)
    (c : committedContentIndex) (contentID : ID) :
  getContent (fun m id => asPair (MergedGetInfo keepNew m id)) c contentID =
  match MergedGetInfo keepNew (merged c) contentID with
  | Ok (Some info) =>
      if GetDeleted info && (Timestamp info <=? deletionWatermark c)
      then Err ErrContentNotFound else Ok info
  | Ok None => Err ErrContentNotFound
  | Err e => Err (ErrWrap e "error getting content info from index")
  end.
Proof.
  unfold getContent, shouldIgnore, After.
  destruct (MergedGetInfo keepNew (merged c) contentID) as [[info|]|e]; simpl;
    try done.
  destruct (GetDeleted info); simpl; [|done].
  rewrite Z.leb_antisym. by destruct (deletionWatermark c <? Timestamp info).
Qed.

Lemma use_watermark builderBuild indexOpen c indexFiles t :
  deletionWatermark (use builderBuild indexOpen c indexFiles t).1 = t.
Proof.
  unfold use.
  destruct (indexFilesChanged _ _); simpl; [|done].
  by destruct (merge _ _ _) as [[? ?]|?].
Qed.

(** Opening the index files stops at the first one that cannot be
    opened, with its error. *)
Lemma openAll_fails (cache : committedContentIndexCache)
    (before : list blobID) (f : blobID) (after : list blobID) (e0 : error) :
  forall (m : Merged) (u : gmap blobID Index),
    Forall (fun g => isOk (openIndex cache g) = true) before ->
    openIndex cache f = Err e0 ->
    openAll cache (before ++ f :: after) m u
    = Wrap (Err e0) "unable to open pack index".
Proof.
  induction before as [|g before IH]; intros m u Hall Hf; simpl.
  - rewrite Hf. by destruct e0.
  - apply Forall_cons in Hall as [Hg Hall].
    destruct (openIndex cache g) as [ndx|e]; [|done]. simpl. by apply IH.
Qed.

(** C10.  [use] stores the new watermark first: whatever follows, the
    index holds the new watermark when [use] returns.  When the index files
    did not change, nothing else changes and no error is returned.  When
    they changed and one of them cannot be opened, or all are opened and
    combining them fails, [use] returns that error, wrapped, and the index
    is the one of before the call but for the watermark.  When [use]
    returns an error, the files had changed and opening or combining
    them failed with that error; [merged], [inUse] and the revision are
    those of before the call, and only the watermark is new. *)
Theorem use_sets_watermark_even_on_error
    (builderBuild : list Info -> result (list Z))
    (indexOpen : list Z -> result Index)
    (c : committedContentIndex) (indexFiles : list blobID) (t : Time) :
  deletionWatermark (use builderBuild indexOpen c indexFiles t).1 = t
  /\ (indexFilesChanged c indexFiles = false ->
      use builderBuild indexOpen c indexFiles t = (setWatermark c t, Ok tt))
  /\ (indexFilesChanged c indexFiles = true ->
      (forall before f after e0,
         indexFiles = before ++ f :: after ->
         Forall (fun g => isOk (openIndex (cache c) g) = true) before ->
         openIndex (cache c) f = Err e0 ->
         use builderBuild indexOpen c indexFiles t
         = (setWatermark c t, Wrap (Err e0) "unable to open pack index"))
      /\ (forall m u e0,
            openAll (cache c) indexFiles [] ∅ = Ok (m, u) ->
            combineSmallIndexes builderBuild indexOpen m = Err e0 ->
            use builderBuild indexOpen c indexFiles t
            = (setWatermark c t, Wrap (Err e0) "unable to combine small indexes")))
  /\ (forall e, (use builderBuild indexOpen c indexFiles t).2 = Err e ->
        indexFilesChanged c indexFiles = true
        /\ merge builderBuild indexOpen (setWatermark c t) indexFiles = Err e
        /\ merged (use builderBuild indexOpen c indexFiles t).1 = merged c
        /\ inUse (use builderBuild indexOpen c indexFiles t).1 = inUse c
        /\ rev (use builderBuild indexOpen c indexFiles t).1 = rev c
        /\ deletionWatermark (use builderBuild indexOpen c indexFiles t).1 = t).
Proof.
  split; [apply use_watermark|].
  assert (Hsame : indexFilesChanged (setWatermark c t) indexFiles
                  = indexFilesChanged c indexFiles) by done.
  unfold use. rewrite Hsame. split_and!.
  - by intros ->.
  - intros ->. cbn [negb]. split.
    + intros before f after e0 -> Hall Hf. unfold merge. cbn [cache setWatermark].
      rewrite (openAll_fails (cache c) before f after e0 [] ∅ Hall Hf).
      by destruct e0.
    + intros m u e0 Hopen Hcomb. unfold merge. cbn [cache setWatermark].
      rewrite Hopen. simpl. rewrite Hcomb. by destruct e0.
  - intros e. destruct (indexFilesChanged c indexFiles); simpl; [|done].
    destruct (merge builderBuild indexOpen (setWatermark c t) indexFiles)
      as [[m u]|e'] eqn:Hm; simpl; [done|].
    by intros [= ->].
Qed.

(** C10, witness: asked to use one index file that cannot be opened, the
    index returns the error of opening it, keeps its (empty) contents and
    revision and has the new watermark. *)
Lemma use_sets_watermark_even_on_error_witness :
  use noBuild noOpen emptyCommitted ["xn0_1"%string] 500
  = (setWatermark emptyCommitted 500,
     Err (ErrWrap (ErrNew "unable to read index blob") "unable to open pack index"))
  /\ merged (use noBuild noOpen emptyCommitted ["xn0_1"%string] 500).1 = []
  /\ rev (use noBuild noOpen emptyCommitted ["xn0_1"%string] 500).1 = 7
  /\ deletionWatermark (use noBuild noOpen emptyCommitted ["xn0_1"%string] 500).1 = 500.
Proof.
  destruct (use_sets_watermark_even_on_error
              noBuild noOpen emptyCommitted ["xn0_1"%string] 500)
    as (_ & _ & Hfail & H).
  destruct (Hfail eq_refl) as [Hopen _].
  pose proof (Hopen [] "xn0_1"%string [] (ErrNew "unable to read index blob")
                eq_refl (List.Forall_nil _) eq_refl) as Huse.
  split; [exact Huse|].
  assert (He : (use noBuild noOpen emptyCommitted ["xn0_1"%string] 500).2
    = Err (ErrWrap (ErrNew "unable to read index blob") "unable to open pack index"))
    by (rewrite Huse; reflexivity).
  destruct (H _ He) as (_ & _ & Hm & _ & Hr & Hw).
  split; [exact Hm|]. split; [exact Hr|exact Hw].
Defined.

(** X3.  [combineSmallIndexes] hands back the indexes it was given when at most
    one of them is small. *)
Theorem combineSmallIndexes_noop
    (builderBuild : list Info -> result (list Z)) (indexOpen : list Z -> result Index)
    (m : Merged) :
  match List.filter (fun ndx => ApproximateCount ndx <? smallIndexEntryCountThreshold) m with
  | [] | [_] => combineSmallIndexes builderBuild indexOpen m = Ok m
  | _ => True
  end.
Proof.
  unfold combineSmallIndexes.
  destruct (List.filter _ m) as [|a [|b l]]; done.
Qed.

End CommittedIndex.

(** ** The limits of the v2 index builder *)

Module IndexBuilderV2.
Import index IndexBuilderSpec.

Lemma buildUniqueFormatToIndexMap_dom (infos : list Info) :
  dom (buildUniqueFormatToIndexMap infos) = uniqueFormats infos.
Proof.
  unfold buildUniqueFormatToIndexMap, uniqueFormats.
  assert (H : forall m : gmap indexV2FormatInfo Z,
    dom (foldl (fun result v =>
                  let key := indexV2FormatInfoFromInfo v in
                  match result !! key with
                  | Some _ => result
                  | None => <[key := wrapU8 (Z.of_nat (size result))]> result
                  end) m infos)
    = dom m ∪ list_to_set (indexV2FormatInfoFromInfo <$> infos)).
  { induction infos as [|v infos IH]; intros m; simpl; [set_solver|].
    rewrite IH.
    destruct (m !! indexV2FormatInfoFromInfo v) eqn:Hv.
    - apply (elem_of_dom_2 m) in Hv. set_solver.
    - rewrite dom_insert_L. set_solver. }
  rewrite H, dom_empty_L. set_solver.
Qed.

Lemma buildPackIDToIndexMap_dom (infos : list Info) :
  dom (buildPackIDToIndexMap infos) = uniquePackIDs infos.
Proof.
  unfold buildPackIDToIndexMap, uniquePackIDs.
  assert (H : forall m : gmap blobID Z,
    dom (foldl (fun result v =>
                  let blobID := GetPackBlobID v in
                  match result !! blobID with
                  | Some _ => result
                  | None => <[blobID := Z.of_nat (size result)]> result
                  end) m infos)
    = dom m ∪ list_to_set (GetPackBlobID <$> infos)).
  { induction infos as [|v infos IH]; intros m; simpl; [set_solver|].
    rewrite IH.
    destruct (m !! GetPackBlobID v) eqn:Hv.
    - apply (elem_of_dom_2 m) in Hv. set_solver.
    - rewrite dom_insert_L. set_solver. }
  rewrite H, dom_empty_L. set_solver.
Qed.

Lemma buildUniqueFormatToIndexMap_size (infos : list Info) :
  size (buildUniqueFormatToIndexMap infos) = size (uniqueFormats infos).
Proof. by rewrite <- buildUniqueFormatToIndexMap_dom, size_dom. Qed.

Lemma buildPackIDToIndexMap_size (infos : list Info) :
  size (buildPackIDToIndexMap infos) = size (uniquePackIDs infos).
Proof. by rewrite <- buildPackIDToIndexMap_dom, size_dom. Qed.

Lemma runningMax_reach (g : Info -> Z) (infos : list Info) (bound : Z) :
  forall init,
    bound <= runningMax g init infos <->
    bound <= init \/ exists i, i ∈ infos /\ bound <= g i.
Proof.
  unfold runningMax.
  induction infos as [|v infos IH]; intros init; simpl.
  - split; [by left|]. intros [?|(i & Hi & _)]; [done|].
    by apply elem_of_nil in Hi.
  - rewrite IH. split.
    + intros [H|(i & Hi & Hb)].
      * destruct (Z.ltb_spec init (g v)); [|by left].
        right. exists v. split; [left|done].
      * right. exists i. split; [by right|done].
    + intros [H|(i & [->|Hi]%elem_of_cons & Hb)].
      * left. destruct (Z.ltb_spec init (g v)); lia.
      * left. destruct (Z.ltb_spec init (g v)); lia.
      * right. eauto.
Qed.

Lemma maxContentLengths_runningMax (infos : list Info) :
  maxContentLengths infos =
  (runningMax GetPackedLength 0 infos,
   runningMax GetOriginalLength 0 infos,
   runningMax GetPackOffset 0 infos).
Proof.
  unfold maxContentLengths, runningMax. generalize 0 at 1 4. generalize 0 at 1 3.
  generalize 0.
  induction infos as [|v infos IH]; intros f o p; simpl; [done|].
  apply IH.
Qed.

(** The running maxima reach a positive bound exactly when an entry does. *)
Lemma maxContentLengths_reach (infos : list Info) (bound : Z) :
  0 < bound ->
  let '(maxPackedLen, maxOriginalLength, maxPackOffset) := maxContentLengths infos in
  (bound <= maxPackedLen <-> exists i, i ∈ infos /\ bound <= GetPackedLength i)
  /\ (bound <= maxOriginalLength <-> exists i, i ∈ infos /\ bound <= GetOriginalLength i)
  /\ (bound <= maxPackOffset <-> exists i, i ∈ infos /\ bound <= GetPackOffset i).
Proof.
  intros Hpos. rewrite maxContentLengths_runningMax.
  rewrite !runningMax_reach.
  split_and!; (split; [intros [?|?]; [lia|done] | by right]).
Qed.

(** C6.  [newIndexBuilderV2] fails exactly when an entry has a packed or
    original length of [2^28] or more, an entry has a pack offset of
    [2^30] or more, there are more than 255 distinct format descriptors,
    or there are more than [2^24] distinct pack blob IDs; so within all
    four bounds the checks pass.  When it fails, [buildV2] returns that
    error and has handed nothing to the writer. *)
Theorem newIndexBuilderV2_limits
    (contentIDToBytes : ID -> list Z) (sortedInfos : list Info) :
  (isOk (newIndexBuilderV2 contentIDToBytes sortedInfos) = false <->
     (exists i, i ∈ sortedInfos
                /\ (2 ^ 28 <= GetPackedLength i \/ 2 ^ 28 <= GetOriginalLength i))
     \/ (exists i, i ∈ sortedInfos /\ 2 ^ 30 <= GetPackOffset i)
     \/ 255 < Z.of_nat (size (uniqueFormats sortedInfos))
     \/ 2 ^ 24 < Z.of_nat (size (uniquePackIDs sortedInfos)))
  /\ (forall e, newIndexBuilderV2 contentIDToBytes sortedInfos = Err e ->
        buildV2 contentIDToBytes sortedInfos = ([], Err e)).
Proof.
  split.
  - unfold newIndexBuilderV2.
    rewrite buildUniqueFormatToIndexMap_size, buildPackIDToIndexMap_size.
    pose proof (maxContentLengths_reach sortedInfos (2 ^ 28) eq_refl) as H28.
    pose proof (maxContentLengths_reach sortedInfos (2 ^ 30) eq_refl) as H30.
    destruct (maxContentLengths sortedInfos) as [[p o] f].
    destruct H28 as (Hp & Ho & _), H30 as (_ & _ & Hf).
    change v2MaxFormatCount with 255.
    change v2MaxUniquePackIDCount with (2 ^ 24).
    change v2MaxContentLength with (2 ^ 28).
    change v2MaxPackOffset with (2 ^ 30).
    assert (Hlen : (exists i, i ∈ sortedInfos
                      /\ (2 ^ 28 <= GetPackedLength i \/ 2 ^ 28 <= GetOriginalLength i))
                   <-> 2 ^ 28 <= p \/ 2 ^ 28 <= o).
    { rewrite Hp, Ho. split.
      - intros (i & Hi & [H|H]); [left|right]; eauto.
      - intros [(i & Hi & H)|(i & Hi & H)]; exists i; tauto. }
    rewrite Hlen, <- Hf. clear Hp Ho Hf Hlen.
    destruct (Z.ltb_spec 255 (Z.of_nat (size (uniqueFormats sortedInfos))));
      [simpl; split; [intros _|done]; lia|].
    destruct (Z.ltb_spec (2 ^ 24) (Z.of_nat (size (uniquePackIDs sortedInfos))));
      [simpl; split; [intros _|done]; lia|].
    destruct (Z.leb_spec (2 ^ 28) p); [simpl; split; [intros _|done]; lia|].
    destruct (Z.leb_spec (2 ^ 28) o); [simpl; split; [intros _|done]; lia|].
    simpl.
    destruct (Z.leb_spec (2 ^ 30) f); [simpl; split; [intros _|done]; lia|].
    simpl. split; [done|]. lia.
  - intros e He. unfold buildV2. by rewrite He.
Qed.

(** X2.  The entry size the builder picks is the smallest that holds the data:
    19 bytes when a length needs more than 24 bits, else 18 when there are
    more than [2^16] pack blob IDs, else 17 when there is more than one
    format, else 16. *)
Theorem newIndexBuilderV2_entrySize
    (contentIDToBytes : ID -> list Z) (sortedInfos : list Info) :
  match newIndexBuilderV2 contentIDToBytes sortedInfos with
  | Err _ => True
  | Ok b =>
      let long := exists i, i ∈ sortedInfos
                            /\ (2 ^ 24 <= GetPackedLength i
                                \/ 2 ^ 24 <= GetOriginalLength i) in
      let manyPacks := 2 ^ 16 < Z.of_nat (size (uniquePackIDs sortedInfos)) in
      let manyFormats := 1 < Z.of_nat (size (uniqueFormats sortedInfos)) in
      (long -> entrySize b = 19)
      /\ (~ long -> manyPacks -> entrySize b = 18)
      /\ (~ long -> ~ manyPacks -> manyFormats -> entrySize b = 17)
      /\ (~ long -> ~ manyPacks -> ~ manyFormats -> entrySize b = 16)
      /\ entryCount b = Z.of_nat (length sortedInfos)
  end.
Proof.
  unfold newIndexBuilderV2.
  rewrite buildUniqueFormatToIndexMap_size, buildPackIDToIndexMap_size.
  pose proof (maxContentLengths_reach sortedInfos (2 ^ 24) eq_refl) as H24.
  destruct (maxContentLengths sortedInfos) as [[p o] f].
  destruct H24 as (Hp & Ho & _).
  assert (Hlong : (exists i, i ∈ sortedInfos
                     /\ (2 ^ 24 <= GetPackedLength i \/ 2 ^ 24 <= GetOriginalLength i))
                  <-> 2 ^ 24 <= p \/ 2 ^ 24 <= o).
  { rewrite Hp, Ho. split.
    - intros (i & Hi & [H|H]); [left|right]; eauto.
    - intros [(i & Hi & H)|(i & Hi & H)]; exists i; tauto. }
  clear Hp Ho.
  change v2MaxShortContentLength with (2 ^ 24).
  change v2MaxShortPackIDCount with (2 ^ 16).
  destruct (v2MaxFormatCount <? _); [done|].
  destruct (v2MaxUniquePackIDCount <? _); [done|].
  destruct ((v2MaxContentLength <=? p) || (v2MaxContentLength <=? o)); [done|].
  destruct (v2MaxPackOffset <=? f); [done|].
  cbv zeta. rewrite Hlong. cbn [entrySize entryCount].
  unfold index.max, v2EntryOffsetFormatID, v2EntryOffsetFormatIDEnd,
    v2EntryOffsetExtendedPackBlobIDEnd, v2EntryOffsetHighLengthBitsEnd,
    v2EntryOffsetExtendedPackBlobID, v2EntryOffsetHighLengthBits, v2EntryMaxLength.
  destruct (Z.ltb_spec 1 (Z.of_nat (size (uniqueFormats sortedInfos))));
    destruct (Z.ltb_spec (2 ^ 16) (Z.of_nat (size (uniquePackIDs sortedInfos))));
    destruct (Z.leb_spec (2 ^ 24) p); destruct (Z.leb_spec (2 ^ 24) o);
    simpl; split_and!; try done; try lia; intros; try lia; tauto.
Qed.

End IndexBuilderV2.

(** ** The uploader: parallelism and cancellation *)

Module UploaderProps.
Import snapshotfs UploaderSpec UploaderSamples Int64Props.

(** C7 (as amended).  The parallelism [Upload] computes is bounded by one
    limit: the policy's [MaxParallelFileReads] when the policy sets it, and
    the number of CPUs only when it does not.  The result is the smaller of
    [ParallelUploads] and that limit when [ParallelUploads] is at least 1,
    and the limit itself otherwise; the worker pool gets one less.  So the
    result never exceeds the policy's value when set, never exceeds the
    number of CPUs when the policy sets none, and never exceeds
    [ParallelUploads] when that is at least 1. *)
Theorem effectiveParallelFileReads_spec (u : Uploader) (pol : Policy) (numCPU : Z) :
  let limit := OrDefault (MaxParallelFileReads pol) numCPU in
  let parallel := effectiveParallelFileReads u pol numCPU in
  parallel = (if 1 <=? ParallelUploads u
              then Z.min (ParallelUploads u) limit else limit)
  /\ uploadWorkerPoolSize u pol numCPU = parallel - 1
  /\ parallel <= limit
  /\ (forall v, MaxParallelFileReads pol = Some v -> parallel <= v)
  /\ (MaxParallelFileReads pol = None -> parallel <= numCPU)
  /\ (1 <= ParallelUploads u -> parallel <= ParallelUploads u).
Proof.
  unfold uploadWorkerPoolSize, effectiveParallelFileReads. simpl.
  set (limit := OrDefault (MaxParallelFileReads pol) numCPU).
  assert (Hlim : (forall v, MaxParallelFileReads pol = Some v -> limit = v)
                 /\ (MaxParallelFileReads pol = None -> limit = numCPU)).
  { unfold limit. destruct (MaxParallelFileReads pol); simpl; split; congruence. }
  destruct Hlim as [Hsome Hnone].
  destruct (Z.ltb_spec (ParallelUploads u) 1), (Z.ltb_spec limit (ParallelUploads u)),
    (Z.leb_spec 1 (ParallelUploads u)); simpl; try lia;
    (split_and!; [lia|done|lia| |intros Hn; rewrite <- (Hnone Hn); lia|lia]);
    intros v Hv; rewrite <- (Hsome v Hv); lia.
Qed.

(** C7, as stated, fails: with 8 parallel uploads asked for, a policy that
    allows 64 parallel file reads and 4 CPUs, the parallelism is 8: it is
    not the minimum of the three, and it exceeds the number of CPUs. *)
Lemma effectiveParallelFileReads_exceeds_numCPU :
  effectiveParallelFileReads (mkUploader 0 0 8 0) (mkPolicy (Some 64)) 4 = 8
  /\ effectiveParallelFileReads (mkUploader 0 0 8 0) (mkPolicy (Some 64)) 4
     <> Z.min 8 (Z.min 64 4)
  /\ ~ (effectiveParallelFileReads (mkUploader 0 0 8 0) (mkPolicy (Some 64)) 4 <= 4).
Proof. vm_compute. split; [done|]. split; [discriminate|]. intros H. by apply H. Qed.

Lemma incompleteReason_cases (u : Uploader) :
  (canceled u <> 0 /\ incompleteReason u = IncompleteReasonCanceled)
  \/ (canceled u = 0 /\ 0 < MaxUploadBytes u
      /\ MaxUploadBytes u < totalWrittenBytes u
      /\ incompleteReason u = IncompleteReasonLimitReached)
  \/ (canceled u = 0
      /\ ~ (0 < MaxUploadBytes u /\ MaxUploadBytes u < totalWrittenBytes u)
      /\ incompleteReason u = ""%string).
Proof.
  unfold incompleteReason.
  destruct (Z.eqb_spec (canceled u) 0) as [Hc|Hc]; simpl; [|by left].
  right.
  destruct (Z.ltb_spec 0 (MaxUploadBytes u)),
    (Z.ltb_spec (MaxUploadBytes u) (totalWrittenBytes u)); simpl;
    [left|right|right|right]; split_and!; try done; lia.
Qed.

Lemma uploadRun_MaxUploadBytes evs : forall u,
  MaxUploadBytes (foldl uploadStep u evs) = MaxUploadBytes u.
Proof.
  induction evs as [|ev evs IH]; intros u; simpl; [done|].
  rewrite IH. by destruct ev.
Qed.

Lemma IsCanceled_spec (u : Uploader) :
  IsCanceled u = true <->
  canceled u <> 0
  \/ (0 < MaxUploadBytes u /\ MaxUploadBytes u < totalWrittenBytes u).
Proof.
  unfold IsCanceled.
  destruct (incompleteReason_cases u) as [[Hc ->]|[(Hc & H1 & H2 & ->)|(Hc & Hn & ->)]];
    simpl; split; try done; try tauto.
Qed.

(** C8 (as amended).  [IsCanceled] is true exactly when cancellation was
    requested or [MaxUploadBytes] is positive and exceeded.  The reason
    [Upload] records in the manifest is read once, at the end: it is
    "canceled" whenever cancellation was requested by then - also when the
    byte limit was exceeded, and whichever came first - and "limit reached"
    only when the limit is exceeded and no cancellation was requested. *)
Theorem IsCanceled_iff_and_final_reason (u : Uploader) (evs : list uploadEvent) :
  (IsCanceled u = true <->
     canceled u <> 0
     \/ (0 < MaxUploadBytes u /\ MaxUploadBytes u < totalWrittenBytes u))
  /\ (let final := uploadRun u evs in
      (canceled final <> 0 ->
       uploadIncompleteReason u evs = IncompleteReasonCanceled)
      /\ (canceled final = 0 -> 0 < MaxUploadBytes u ->
          MaxUploadBytes u < totalWrittenBytes final ->
          uploadIncompleteReason u evs = IncompleteReasonLimitReached)
      /\ (canceled final = 0 ->
          ~ (0 < MaxUploadBytes u /\ MaxUploadBytes u < totalWrittenBytes final) ->
          uploadIncompleteReason u evs = ""%string)).
Proof.
  split; [apply IsCanceled_spec|].
  simpl. unfold uploadIncompleteReason.
  pose proof (uploadRun_MaxUploadBytes evs (uploadStart u)) as Hm.
  change (foldl uploadStep (uploadStart u) evs) with (uploadRun u evs) in Hm.
  change (MaxUploadBytes (uploadStart u)) with (MaxUploadBytes u) in Hm.
  destruct (incompleteReason_cases (uploadRun u evs))
    as [[Hc ->]|[(Hc & H1 & H2 & ->)|(Hc & Hn & ->)]];
    rewrite ?Hm in *; split_and!; try done; try tauto; try lia.
Qed.

(** C8, as stated, fails: the limit is the first reason observed (after
    the write [IsCanceled] is already true, with reason "limit reached"),
    yet the manifest records "canceled". *)
Lemma final_reason_is_not_first_observed :
  IsCanceled (uploadRun limitedUploader [EvWrote 2000]) = true
  /\ firstObservedReason limitedUploader limitThenCancel = IncompleteReasonLimitReached
  /\ uploadIncompleteReason limitedUploader limitThenCancel = IncompleteReasonCanceled
  /\ uploadIncompleteReason limitedUploader limitThenCancel
     <> firstObservedReason limitedUploader limitThenCancel.
Proof. vm_compute. split_and!; try done. Qed.

(** X4.  Once canceled, an upload stays canceled: after a cancel request, and
    after a write of a positive number of bytes that keeps the byte counter
    within the 64-bit range. *)
Theorem IsCanceled_monotonic (u : Uploader) (ev : uploadEvent) :
  IsCanceled u = true -> keepsCounting u ev ->
  IsCanceled (uploadStep u ev) = true.
Proof.
  intros Hc Hev.
  apply IsCanceled_spec in Hc. apply IsCanceled_spec.
  destruct ev as [n|]; simpl in *.
  - destruct Hev as [Hn Hmax].
    destruct Hc as [Hc|[H1 H2]]; [by left|right].
    split; [done|]. unfold add64.
    rewrite wrap64_id; [lia|]. unfold minInt64. lia.
  - by left.
Qed.

Lemma IsCanceled_monotonic_witness :
  IsCanceled (mkUploader 2000 1000 0 0) = true
  /\ IsCanceled (uploadStep (mkUploader 2000 1000 0 0) (EvWrote 512)) = true.
Proof.
  split; [reflexivity|].
  apply (IsCanceled_monotonic (mkUploader 2000 1000 0 0) (EvWrote 512)).
  - reflexivity.
  - simpl. unfold maxInt64. lia.
Defined.

End UploaderProps.

(** ** Slices *)

Module SliceProps.
Import slices.

Section store.
Context {A : Type}.
Implicit Types (h : gmap positive (list A)) (s : slice) (xs : list A).

Lemma sortSlice_Permutation (less : A -> A -> bool) (l : list A) :
  sortSlice less l ≡ₚ l.
Proof. apply merge_sort_Permutation. Qed.

Lemma sortSlice_length (less : A -> A -> bool) (l : list A) :
  length (sortSlice less l) = length l.
Proof. by rewrite sortSlice_Permutation. Qed.

Lemma readSlice_length h s : wfSlice h s -> length (readSlice h s) = sliceLen s.
Proof. unfold wfSlice, readSlice. intros H. rewrite length_take. lia. Qed.

Lemma readSlice_nil h : readSlice h nilSlice = [].
Proof. done. Qed.

(** After [append], the new slice shows the old elements followed by the
    added ones. *)
Lemma appendSlice_read growCap h s xs :
  wfSlice h s ->
  let '(h', s') := appendSlice growCap h s xs in
  readSlice h' s' = readSlice h s ++ xs /\ wfSlice h' s'.
Proof.
  intros Hwf. unfold appendSlice.
  destruct xs as [|x xs]; [by rewrite app_nil_r|].
  set (ys := x :: xs).
  pose proof (readSlice_length h s Hwf) as Hlen.
  destruct (Nat.leb_spec (sliceLen s + length ys) (sliceCap s)) as [Hcap|Hcap].
  - unfold readSlice at 1, wfSlice, arrayOf at 1 3.
    cbn [sliceArr sliceLen]. rewrite lookup_insert_eq. cbn [default from_option id].
    split.
    + rewrite app_assoc, take_app_length'; [done|].
      rewrite length_app. lia.
    + rewrite !length_app. lia.
  - unfold readSlice at 1, wfSlice, arrayOf at 1 2.
    cbn [sliceArr sliceLen]. rewrite lookup_insert_eq. cbn [default from_option id].
    split.
    + rewrite take_ge; [done|]. rewrite length_app. lia.
    + rewrite length_app. lia.
Qed.

(** A slice whose cells were sorted in place shows the sorted elements. *)
Lemma sortInPlace_read (less : A -> A -> bool) h s :
  readSlice (sortInPlace less h s) s = sortSlice less (readSlice h s).
Proof.
  unfold sortInPlace.
  destruct (sliceLen s) as [|n] eqn:Hn.
  - unfold readSlice. rewrite Hn. done.
  - unfold readSlice at 1, arrayOf at 1. rewrite lookup_insert_eq; simpl.
    rewrite <- Hn.
    destruct (Nat.le_gt_cases (sliceLen s) (length (arrayOf h s))) as [Hwf|Hwf].
    + rewrite take_app_length'; [done|].
      rewrite sortSlice_length. symmetry. by apply readSlice_length.
    + rewrite drop_ge by lia. rewrite app_nil_r. apply take_ge.
      rewrite sortSlice_length. unfold readSlice. rewrite length_take. lia.
Qed.

Lemma reslice_read h s n :
  readSlice h (reslice s n) = take n (arrayOf h s).
Proof. done. Qed.

End store.

End SliceProps.

(** ** The directory manifest builder *)

Module BuilderProps.
Import slices snapshotfs OrderSpec BuilderSpec Int64Props SliceProps StringOrder.

(** *** The two orders [Build] sorts by *)

Lemma notAfter_lessFailed_total : Total (notAfter lessFailed).
Proof.
  intros x y. unfold notAfter, lessFailed.
  destruct (strLess (EntryPath y) (EntryPath x)) eqn:H; [|by left].
  right. by apply strLess_asym.
Qed.

Lemma notAfter_lessFailed_trans : Transitive (notAfter lessFailed).
Proof.
  intros x y z. unfold notAfter, lessFailed. intros Hxy Hyz.
  exact (strLe_trans _ _ _ Hxy Hyz).
Qed.

Lemma notAfter_lessEntry_total : Total (notAfter lessEntry).
Proof.
  intros x y. unfold notAfter, lessEntry.
  destruct (isDir x), (isDir y); simpl; try (by left); try (by right).
  - destruct (strLess (Name y) (Name x)) eqn:H; [|by left].
    right. by apply strLess_asym.
  - destruct (strLess (Name y) (Name x)) eqn:H; [|by left].
    right. by apply strLess_asym.
Qed.

Lemma notAfter_lessEntry_trans : Transitive (notAfter lessEntry).
Proof.
  intros x y z. unfold notAfter, lessEntry.
  destruct (isDir x), (isDir y), (isDir z); simpl; try done;
    intros Hxy Hyz; exact (strLe_trans _ _ _ Hxy Hyz).
Qed.

#[local] Existing Instances notAfter_lessFailed_total notAfter_lessFailed_trans
  notAfter_lessEntry_total notAfter_lessEntry_trans.

Lemma sortSlice_lessFailed_sorted (l : list EntryWithError) :
  StronglySorted pathLe (sortSlice lessFailed l).
Proof. apply (StronglySorted_merge_sort (notAfter lessFailed)). Qed.

Lemma sortSlice_lessEntry_sorted (l : list DirEntry) :
  StronglySorted (notAfter lessEntry) (sortSlice lessEntry l).
Proof. apply (StronglySorted_merge_sort (notAfter lessEntry)). Qed.

(** A list sorted by [lessEntry] is its directories, by name, followed by
    its other entries, by name. *)
Lemma sorted_directories_first (l : list DirEntry) :
  StronglySorted (notAfter lessEntry) l ->
  l = List.filter isDir l ++ List.filter (fun e => negb (isDir e)) l
  /\ StronglySorted nameLe (List.filter isDir l)
  /\ StronglySorted nameLe (List.filter (fun e => negb (isDir e)) l).
Proof.
  induction 1 as [|x l Hs IH Hall]; simpl; [by repeat constructor|].
  destruct IH as (Hl & Hd & Hf).
  rewrite Forall_forall in Hall.
  destruct (isDir x) eqn:Hx; simpl.
  - split_and!; [by rewrite <- Hl| |done].
    constructor; [done|]. apply Forall_forall. intros y Hy.
    apply list_elem_of_In, filter_In in Hy as [Hy Hdy].
    apply list_elem_of_In, Hall in Hy. unfold notAfter, lessEntry in Hy.
    by rewrite Hx, Hdy in Hy.
  - assert (Hnone : List.filter isDir l = []).
    { apply length_zero_iff_nil. destruct (List.filter isDir l) as [|y ys] eqn:Hy; [done|].
      assert (Hin : In y (List.filter isDir l)) by (rewrite Hy; by left).
      apply filter_In in Hin as [Hin Hdy].
      apply list_elem_of_In, Hall in Hin. unfold notAfter, lessEntry in Hin.
      rewrite Hx, Hdy in Hin. done. }
    rewrite Hnone in *. simpl in *. split_and!; [by rewrite <- Hl|constructor|].
    constructor; [done|]. apply Forall_forall. intros y Hy.
    apply list_elem_of_In, filter_In in Hy as [Hy Hdy].
    apply list_elem_of_In, Hall in Hy. unfold notAfter, lessEntry in Hy.
    apply negb_true_iff in Hdy. by rewrite Hx, Hdy in Hy.
Qed.

Section builder.
Variable growCap : nat -> nat -> nat.
Variable MaxFailed : nat.
Variable streamType : string.

Abbreviation addEntry := (addEntry growCap).
Abbreviation addFailedEntry := (addFailedEntry growCap).
Abbreviation applyOp := (applyOp growCap).
Abbreviation applyOps := (applyOps growCap).
Abbreviation Build := (Build MaxFailed streamType).
Abbreviation buildAfter := (buildAfter growCap MaxFailed streamType).

Lemma wfBuilder_zero : wfBuilder emptyMemory zeroBuilder.
Proof. split; unfold wfSlice; simpl; lia. Qed.

Lemma addEntry_entries m b de :
  wfBuilder m b ->
  wfBuilder (addEntry m b de).1 (addEntry m b de).2
  /\ readSlice (entryStore (addEntry m b de).1) (entries (addEntry m b de).2)
     = readSlice (entryStore m) (entries b) ++ [de].
Proof.
  intros [He Hf]. unfold addEntry.
  pose proof (appendSlice_read growCap (entryStore m) (entries b) [de] He) as Ha.
  destruct (appendSlice growCap (entryStore m) (entries b) [de]) as [es entries'].
  destruct Ha as [Hread Hwf].
  assert (Hmax : forall s t, FailedEntries
            (if After t (MaxModTime s) then setMaxModTime s t else s)
            = FailedEntries s) by (intros; by case_match).
  destruct (Type_ de); simpl; try (split; [split|]; simpl; rewrite ?Hmax; done).
  destruct (DirSummary de) as [cs|]; simpl;
    [|split; [split|]; simpl; rewrite ?Hmax; done].
  match goal with |- context [appendSlice growCap ?h ?s ?xs] =>
    pose proof (appendSlice_read growCap h s xs) as Hb;
    destruct (appendSlice growCap h s xs) as [fs failed'] end.
  simpl in Hb. rewrite Hmax in Hb. destruct (Hb Hf) as [_ Hwf'].
  split; [split|]; simpl; try done.
  by case_match.
Qed.

Lemma addFailedEntry_entries m b p i e :
  wfBuilder m b ->
  wfBuilder (addFailedEntry m b p i e).1 (addFailedEntry m b p i e).2
  /\ readSlice (entryStore (addFailedEntry m b p i e).1)
               (entries (addFailedEntry m b p i e).2)
     = readSlice (entryStore m) (entries b)
  /\ readSlice (failedStore (addFailedEntry m b p i e).1)
               (FailedEntries (summary (addFailedEntry m b p i e).2))
     = readSlice (failedStore m) (FailedEntries (summary b))
       ++ [mkEntryWithError p e].
Proof.
  intros [He Hf]. unfold addFailedEntry.
  match goal with |- context [appendSlice growCap ?h ?s ?xs] =>
    pose proof (appendSlice_read growCap h s xs) as Hb;
    destruct (appendSlice growCap h s xs) as [fs failed'] end.
  assert (Hs : FailedEntries
            (if i then setIgnoredErrorCount (summary b) (add64 (IgnoredErrorCount (summary b)) 1)
             else setFatalErrorCount (summary b) (add64 (FatalErrorCount (summary b)) 1))
            = FailedEntries (summary b)) by (by destruct i).
  rewrite Hs in Hb. destruct (Hb Hf) as [Hread Hwf].
  split; [split|]; simpl; done.
Qed.

Lemma applyOps_entries (ops : list builderOp) : forall m b,
  wfBuilder m b ->
  wfBuilder (applyOps (m, b) ops).1 (applyOps (m, b) ops).2
  /\ readSlice (entryStore (applyOps (m, b) ops).1)
               (entries (applyOps (m, b) ops).2)
     = readSlice (entryStore m) (entries b) ++ addedEntries ops.
Proof.
  induction ops as [|op ops IH]; intros m b Hwf.
  - simpl. by rewrite app_nil_r.
  - unfold snapshotfs.applyOps. simpl.
    destruct op as [de|p i e]; simpl.
    + destruct (addEntry_entries m b de Hwf) as [Hwf' Hread].
      destruct (addEntry m b de) as [m' b'] eqn:Hadd. simpl in *.
      destruct (IH m' b' Hwf') as [Hwf'' Hread''].
      split; [done|]. unfold snapshotfs.applyOps in Hread''.
      rewrite Hread'', Hread. by rewrite <- app_assoc.
    + destruct (addFailedEntry_entries m b p i e Hwf) as (Hwf' & Hread & _).
      destruct (addFailedEntry m b p i e) as [m' b'] eqn:Hadd. simpl in *.
      destruct (IH m' b' Hwf') as [Hwf'' Hread''].
      split; [done|]. unfold snapshotfs.applyOps in Hread''.
      by rewrite Hread'', Hread.
Qed.

(** What the manifest returned by [Build] shows, for every state of the
    builder: the summary is the builder's with three fields set; the failed
    entries are all of the builder's, sorted (the cut goes to the builder's
    own header); the entries are the builder's, sorted. *)
Lemma Build_manifest m b dirModTime reason :
  let '(m', b', man) := Build m b dirModTime reason in
  Summary man =
    setIncompleteReason
      (let s := setTotalDirCount (summary b) (add64 (TotalDirCount (summary b)) 1) in
       if (sliceLen (entries b) =? 0)%nat then setMaxModTime s dirModTime else s)
      reason
  /\ manifestFailedEntries m' man
     = sortSlice lessFailed (readSlice (failedStore m) (FailedEntries (summary b)))
  /\ manifestEntries m' man
     = sortSlice lessEntry (readSlice (entryStore m) (entries b))
  /\ FailedEntries (summary b')
     = (if (MaxFailed <? sliceLen (FailedEntries (summary b)))%nat
        then reslice (FailedEntries (summary b)) MaxFailed
        else FailedEntries (summary b))
  /\ StreamType man = streamType.
Proof.
  unfold snapshotfs.Build, sortedTopFailures, manifestFailedEntries, manifestEntries.
  destruct (MaxFailed <? sliceLen (FailedEntries (summary b)))%nat eqn:Hcut;
    simpl; (split_and!; [done| |apply sortInPlace_read|done|done]).
  all: destruct (sliceLen (entries b) =? 0)%nat; simpl; apply sortInPlace_read.
Qed.

Lemma applyOps_failures (failures : list (string * bool * string)) : forall m b,
  wfBuilder m b ->
  wfBuilder (applyOps (m, b) (failureOps failures)).1
            (applyOps (m, b) (failureOps failures)).2
  /\ readSlice (failedStore (applyOps (m, b) (failureOps failures)).1)
               (FailedEntries (summary (applyOps (m, b) (failureOps failures)).2))
     = readSlice (failedStore m) (FailedEntries (summary b))
       ++ failureRecords failures.
Proof.
  induction failures as [|[[p i] e] failures IH]; intros m b Hwf.
  - simpl. by rewrite app_nil_r.
  - unfold snapshotfs.applyOps. simpl.
    destruct (addFailedEntry_entries m b p i e Hwf) as (Hwf' & _ & Hread).
    destruct (addFailedEntry m b p i e) as [m' b'] eqn:Hadd. simpl in *.
    destruct (IH m' b' Hwf') as [Hwf'' Hread''].
    split; [done|]. unfold snapshotfs.applyOps in Hread''.
    rewrite Hread'', Hread. by rewrite <- app_assoc.
Qed.

(** C4, where the code departs from it: the manifest [Build] returns holds
    every failed entry the builder was given, however many; only the
    builder's own header is cut to the maximum.  So a builder that was
    given more failed entries than the maximum returns a summary with more
    than the maximum. *)
Theorem Build_failed_entries_not_truncated
    (failures : list (string * bool * string)) (dirModTime : Time) (reason : string) :
  let '(m', b', man) := buildAfter (failureOps failures) dirModTime reason in
  manifestFailedEntries m' man ≡ₚ failureRecords failures
  /\ length (manifestFailedEntries m' man) = length failures
  /\ sliceLen (FailedEntries (summary b')) = Nat.min (length failures) MaxFailed.
Proof.
  unfold snapshotfs.buildAfter.
  destruct (applyOps_failures failures emptyMemory zeroBuilder wfBuilder_zero)
    as [[_ Hwf] Hread].
  destruct (applyOps (emptyMemory, zeroBuilder) (failureOps failures)) as [m b].
  simpl in *.
  pose proof (Build_manifest m b dirModTime reason) as HB.
  destruct (Build m b dirModTime reason) as [[m' b'] man].
  destruct HB as (_ & Hf & _ & Hb' & _).
  assert (Hperm : manifestFailedEntries m' man ≡ₚ failureRecords failures).
  { rewrite Hf, sortSlice_Permutation, Hread. done. }
  assert (Hlen : sliceLen (FailedEntries (summary b)) = length failures).
  { rewrite <- (readSlice_length _ _ Hwf), Hread. simpl.
    unfold failureRecords. by rewrite length_fmap. }
  split_and!; [done| |].
  - rewrite Hperm. unfold failureRecords. by rewrite length_fmap.
  - rewrite Hb'. destruct (Nat.ltb_spec MaxFailed (sliceLen (FailedEntries (summary b))));
      simpl; lia.
Qed.

Lemma applyOp_counters m b op files size dirs fatal ignored :
  countersAre (summary b) files size dirs fatal ignored ->
  nonNegativeOp op = true ->
  0 <= files -> 0 <= size -> 0 <= dirs -> 0 <= fatal -> 0 <= ignored ->
  files + filesOf op <= maxInt64 -> size + sizeOf op <= maxInt64 ->
  dirs + dirsOf op <= maxInt64 -> fatal + fatalOf op <= maxInt64 ->
  ignored + ignoredOf op <= maxInt64 ->
  countersAre (summary (applyOp (m, b) op).2)
    (files + filesOf op) (size + sizeOf op) (dirs + dirsOf op)
    (fatal + fatalOf op) (ignored + ignoredOf op).
Proof.
  intros (H1 & H2 & H3 & H4 & H5) Hnn.
  unfold nonNegativeOp in Hnn. rewrite !andb_true_iff, !Z.leb_le in Hnn.
  destruct Hnn as ((((N1 & N2) & N3) & N4) & N5).
  assert (Hmin : minInt64 <= 0) by (unfold minInt64; lia).
  intros. unfold countersAre.
  destruct op as [de|p i e]; simpl.
  - unfold snapshotfs.addEntry.
    destruct (appendSlice growCap (entryStore m) (entries b) [de]) as [es entries'].
    unfold filesOf, sizeOf, dirsOf, fatalOf, ignoredOf, childOf in *.
    set (s0 := if After (ModTime de) (MaxModTime (summary b))
               then setMaxModTime (summary b) (ModTime de) else summary b).
    assert (Hs0 : countersAre s0 files size dirs fatal ignored).
    { unfold s0, countersAre.
      destruct (After (ModTime de) (MaxModTime (summary b))); simpl;
        split_and!; assumption. }
    destruct Hs0 as (S1 & S2 & S3 & S4 & S5).
    destruct (Type_ de); simpl.
    + rewrite S1, S2, S3, S4, S5. split_and!; lia.
    + rewrite S1, S2, S3, S4, S5. rewrite !add64_exact by lia. split_and!; lia.
    + destruct (DirSummary de) as [cs|]; simpl in *.
      * match goal with |- context [appendSlice growCap ?h ?sl ?xs] =>
          destruct (appendSlice growCap h sl xs) as [fs failed'] end.
        simpl. rewrite S1, S2, S3, S4, S5.
        assert (forall (c : bool) (x : DirectorySummary) (t : Time),
                  countersAre (if c then setMaxModTime x t else x)
                    (TotalFileCount x) (TotalFileSize x) (TotalDirCount x)
                    (FatalErrorCount x) (IgnoredErrorCount x)) as Hc
          by (intros [] ? ?; done).
        match goal with |- context [if ?c then setMaxModTime ?x ?t else ?x] =>
          destruct (Hc c x t) as (C1 & C2 & C3 & C4 & C5) end.
        rewrite C1, C2, C3, C4, C5. simpl.
        rewrite !add64_exact by lia. done.
      * rewrite S1, S2, S3, S4, S5. split_and!; lia.
    + rewrite S1, S2, S3, S4, S5. simpl. split_and!; lia.
  - unfold snapshotfs.addFailedEntry.
    match goal with |- context [appendSlice growCap ?h ?sl ?xs] =>
      destruct (appendSlice growCap h sl xs) as [fs failed'] end.
    simpl. unfold fatalOf, ignoredOf in *.
    destruct i; simpl; rewrite ?H1, ?H2, ?H3, ?H4, ?H5;
      rewrite !add64_exact by lia; split_and!; lia.
Qed.

Lemma total_nonneg (w : builderOp -> Z) (ops : list builderOp) :
  (forall op, op ∈ ops -> 0 <= w op) -> 0 <= total w ops.
Proof.
  induction ops as [|op ops IH]; intros H; simpl; [done|].
  assert (0 <= w op) by (apply H; left).
  assert (0 <= total w ops) by (apply IH; intros; apply H; by right). lia.
Qed.

Lemma total_elem (w : builderOp -> Z) (ops : list builderOp) (op : builderOp) :
  (forall op, op ∈ ops -> 0 <= w op) -> op ∈ ops -> w op <= total w ops.
Proof.
  induction ops as [|o ops IH]; intros H Hin; [by apply elem_of_nil in Hin|].
  simpl. apply elem_of_cons in Hin as [->|Hin].
  - assert (0 <= total w ops) by (apply total_nonneg; intros; apply H; by right). lia.
  - assert (0 <= w o) by (apply H; left).
    assert (w op <= total w ops) by (apply IH; [intros; apply H; by right|done]).
    lia.
Qed.

Lemma nonNegativeOp_spec (ops : list builderOp) :
  forallb nonNegativeOp ops = true ->
  forall op, op ∈ ops ->
    0 <= filesOf op /\ 0 <= sizeOf op /\ 0 <= dirsOf op
    /\ 0 <= fatalOf op /\ 0 <= ignoredOf op.
Proof.
  rewrite forallb_forall. intros H op Hin.
  apply list_elem_of_In, H in Hin. unfold nonNegativeOp in Hin.
  rewrite !andb_true_iff, !Z.leb_le in Hin. tauto.
Qed.

(** Within the range, the counters are the exact sums of what was added. *)
Lemma applyOps_counters (ops : list builderOp) : forall m b files size dirs fatal ignored,
  countersAre (summary b) files size dirs fatal ignored ->
  forallb nonNegativeOp ops = true ->
  0 <= files -> 0 <= size -> 0 <= dirs -> 0 <= fatal -> 0 <= ignored ->
  files + total filesOf ops <= maxInt64 -> size + total sizeOf ops <= maxInt64 ->
  dirs + total dirsOf ops <= maxInt64 -> fatal + total fatalOf ops <= maxInt64 ->
  ignored + total ignoredOf ops <= maxInt64 ->
  countersAre (summary (applyOps (m, b) ops).2)
    (files + total filesOf ops) (size + total sizeOf ops) (dirs + total dirsOf ops)
    (fatal + total fatalOf ops) (ignored + total ignoredOf ops).
Proof.
  induction ops as [|op ops IH]; intros m b files size dirs fatal ignored Hc Hnn.
  - intros. simpl. by rewrite !Z.add_0_r.
  - simpl in Hnn. apply andb_true_iff in Hnn as [Hop Hops].
    pose proof (nonNegativeOp_spec ops Hops) as Hall.
    assert (0 <= total filesOf ops) by (apply total_nonneg; intros; by apply Hall).
    assert (0 <= total sizeOf ops) by (apply total_nonneg; intros; by apply Hall).
    assert (0 <= total dirsOf ops) by (apply total_nonneg; intros; by apply Hall).
    assert (0 <= total fatalOf ops) by (apply total_nonneg; intros; by apply Hall).
    assert (0 <= total ignoredOf ops) by (apply total_nonneg; intros; by apply Hall).
    pose proof Hop as Hop'. unfold nonNegativeOp in Hop'.
    rewrite !andb_true_iff, !Z.leb_le in Hop'.
    destruct Hop' as ((((N1 & N2) & N3) & N4) & N5).
    simpl. intros.
    unfold snapshotfs.applyOps. simpl.
    pose proof (applyOp_counters m b op files size dirs fatal ignored Hc Hop) as Hstep.
    destruct (applyOp (m, b) op) as [m' b'] eqn:Hap. simpl in Hstep.
    rewrite !Z.add_assoc.
    apply IH; try done; try lia.
    apply Hstep; lia.
Qed.

(** The latest modification time only moves forward, and covers the
    summary of every directory entry added. *)
Lemma applyOp_MaxModTime m b op :
  MaxModTime (summary b) <= MaxModTime (summary (applyOp (m, b) op).2)
  /\ (forall de cs, op = OpAddEntry de -> childOf de = Some cs ->
        MaxModTime cs <= MaxModTime (summary (applyOp (m, b) op).2)).
Proof.
  split.
  - destruct op as [de|p i e]; simpl.
    + unfold snapshotfs.addEntry, After.
      destruct (appendSlice growCap (entryStore m) (entries b) [de]) as [es entries'].
      destruct (Type_ de); simpl; try (case_match; simpl; lia).
      destruct (DirSummary de) as [child|]; simpl; [|case_match; simpl; lia].
      match goal with |- context [appendSlice growCap ?h ?sl ?xs] =>
        destruct (appendSlice growCap h sl xs) as [fs failed'] end.
      simpl. repeat case_match; simpl in *; lia.
    + unfold snapshotfs.addFailedEntry.
      match goal with |- context [appendSlice growCap ?h ?sl ?xs] =>
        destruct (appendSlice growCap h sl xs) as [fs failed'] end.
      simpl. destruct i; simpl; lia.
  - intros de cs -> Hcs. simpl. unfold childOf in Hcs.
    unfold snapshotfs.addEntry, After.
    destruct (appendSlice growCap (entryStore m) (entries b) [de]) as [es entries'].
    destruct (Type_ de); try discriminate. rewrite Hcs. simpl.
    match goal with |- context [appendSlice growCap ?h ?sl ?xs] =>
      destruct (appendSlice growCap h sl xs) as [fs failed'] end.
    simpl. repeat case_match; simpl in *; lia.
Qed.

Lemma applyOps_MaxModTime (ops : list builderOp) : forall m b,
  MaxModTime (summary b) <= MaxModTime (summary (applyOps (m, b) ops).2)
  /\ (forall de cs, OpAddEntry de ∈ ops -> childOf de = Some cs ->
        MaxModTime cs <= MaxModTime (summary (applyOps (m, b) ops).2)).
Proof.
  induction ops as [|op ops IH]; intros m b.
  - simpl. split; [lia|]. intros ? ? Hin. by apply elem_of_nil in Hin.
  - unfold snapshotfs.applyOps. simpl.
    destruct (applyOp_MaxModTime m b op) as [Hmono Hchild].
    destruct (applyOp (m, b) op) as [m' b'] eqn:Hap. simpl in *.
    destruct (IH m' b') as [Hmono' Hchild']. unfold snapshotfs.applyOps in *.
    split; [lia|].
    intros de cs [Heq|Hin]%elem_of_cons Hcs.
    + specialize (Hchild de cs (eq_sym Heq) Hcs). lia.
    + by apply (Hchild' de cs).
Qed.

Lemma elem_of_addedEntries (ops : list builderOp) (de : DirEntry) :
  de ∈ addedEntries ops <-> OpAddEntry de ∈ ops.
Proof.
  unfold addedEntries. rewrite list_elem_of_omap. split.
  - intros (op & Hin & Hop). destruct op; [|done]. by injection Hop as ->.
  - intros Hin. by exists (OpAddEntry de).
Qed.

(** C9 (as amended).  Take a manifest built from a fresh builder after any
    calls of [addEntry] and [addFailedEntry] in which no call adds a
    negative amount and no counter leaves the 64-bit range.  For every
    entry [c] of the manifest that is a directory with a summary, each of
    the five counters of the manifest's summary is at least the counter of
    [c]'s summary, and the manifest's [MaxModTime] is not earlier than
    [c]'s. *)
Theorem manifest_summary_covers_directory_children
    (ops : list builderOp) (dirModTime : Time) (reason : string) :
  withinInt64 ops = true ->
  let '(m', b', man) := buildAfter ops dirModTime reason in
  forall c cs,
    c ∈ manifestEntries m' man ->
    Type_ c = EntryTypeDirectory ->
    DirSummary c = Some cs ->
    TotalFileCount cs <= TotalFileCount (Summary man)
    /\ TotalFileSize cs <= TotalFileSize (Summary man)
    /\ TotalDirCount cs <= TotalDirCount (Summary man)
    /\ FatalErrorCount cs <= FatalErrorCount (Summary man)
    /\ IgnoredErrorCount cs <= IgnoredErrorCount (Summary man)
    /\ MaxModTime cs <= MaxModTime (Summary man).
Proof.
  intros Hin64. unfold withinInt64 in Hin64.
  rewrite !andb_true_iff, !Z.leb_le, Z.ltb_lt in Hin64.
  destruct Hin64 as (((((Hnn & R1) & R2) & R3) & R4) & R5).
  unfold snapshotfs.buildAfter.
  destruct (applyOps_entries ops emptyMemory zeroBuilder wfBuilder_zero)
    as [[Hwf _] Hread].
  pose proof (applyOps_counters ops emptyMemory zeroBuilder 0 0 0 0 0) as Hcnt.
  pose proof (applyOps_MaxModTime ops emptyMemory zeroBuilder) as [_ Htime].
  destruct (applyOps (emptyMemory, zeroBuilder) ops) as [m b]. simpl in *.
  pose proof (Build_manifest m b dirModTime reason) as HB.
  destruct (Build m b dirModTime reason) as [[m' b'] man].
  destruct HB as (Hsum & _ & Hentries & _).
  intros c cs Hc Hdir Hcs.
  rewrite Hentries, sortSlice_Permutation, Hread in Hc.
  assert (Hlen : sliceLen (entries b) <> 0%nat).
  { rewrite <- (readSlice_length _ _ Hwf), Hread. intros Hz.
    apply length_zero_iff_nil in Hz. rewrite Hz in Hc. by apply elem_of_nil in Hc. }
  apply elem_of_addedEntries in Hc.
  assert (Hchild : childOf c = Some cs) by (unfold childOf; by rewrite Hdir).
  pose proof (nonNegativeOp_spec ops Hnn) as Hall.
  assert (F1 : TotalFileCount cs <= total filesOf ops).
  { etrans; [|apply (total_elem filesOf ops _ ltac:(intros; by apply Hall) Hc)].
    simpl. by rewrite Hdir, Hchild. }
  assert (F2 : TotalFileSize cs <= total sizeOf ops).
  { etrans; [|apply (total_elem sizeOf ops _ ltac:(intros; by apply Hall) Hc)].
    simpl. by rewrite Hdir, Hchild. }
  assert (F3 : TotalDirCount cs <= total dirsOf ops).
  { etrans; [|apply (total_elem dirsOf ops _ ltac:(intros; by apply Hall) Hc)].
    simpl. by rewrite Hchild. }
  assert (F4 : FatalErrorCount cs <= total fatalOf ops).
  { etrans; [|apply (total_elem fatalOf ops _ ltac:(intros; by apply Hall) Hc)].
    simpl. by rewrite Hchild. }
  assert (F5 : IgnoredErrorCount cs <= total ignoredOf ops).
  { etrans; [|apply (total_elem ignoredOf ops _ ltac:(intros; by apply Hall) Hc)].
    simpl. by rewrite Hchild. }
  assert (0 <= total dirsOf ops) by (apply total_nonneg; intros; by apply Hall).
  destruct Hcnt as (C1 & C2 & C3 & C4 & C5); try done; try lia.
  specialize (Htime c cs Hc Hchild).
  rewrite Hsum. apply Nat.eqb_neq in Hlen. rewrite Hlen. simpl.
  rewrite C1, C2, C3, C4, C5.
  rewrite add64_exact by (unfold minInt64; lia).
  split_and!; lia.
Qed.

(** X1.  What [Build] gets right, for every state of a builder: the summary
    is the builder's with the directory counted, the given incomplete
    reason, and the directory's own modification time when there is no
    entry; the failed entries come sorted by path; the entries come with
    the directories first, each group sorted by name. *)
Theorem Build_summary_and_order
    (m : memory) (b : dirManifestBuilder) (dirModTime : Time) (reason : string) :
  let '(m', b', man) := Build m b dirModTime reason in
  TotalDirCount (Summary man) = add64 (TotalDirCount (summary b)) 1
  /\ MaxModTime (Summary man)
     = (if (sliceLen (entries b) =? 0)%nat then dirModTime
        else MaxModTime (summary b))
  /\ IncompleteReason (Summary man) = reason
  /\ TotalFileCount (Summary man) = TotalFileCount (summary b)
  /\ TotalFileSize (Summary man) = TotalFileSize (summary b)
  /\ TotalSymlinkCount (Summary man) = TotalSymlinkCount (summary b)
  /\ FatalErrorCount (Summary man) = FatalErrorCount (summary b)
  /\ IgnoredErrorCount (Summary man) = IgnoredErrorCount (summary b)
  /\ manifestFailedEntries m' man
     ≡ₚ readSlice (failedStore m) (FailedEntries (summary b))
  /\ StronglySorted pathLe (manifestFailedEntries m' man)
  /\ manifestEntries m' man ≡ₚ readSlice (entryStore m) (entries b)
  /\ manifestEntries m' man
     = List.filter isDir (manifestEntries m' man)
       ++ List.filter (fun e => negb (isDir e)) (manifestEntries m' man)
  /\ StronglySorted nameLe (List.filter isDir (manifestEntries m' man))
  /\ StronglySorted nameLe
       (List.filter (fun e => negb (isDir e)) (manifestEntries m' man)).
Proof.
  pose proof (Build_manifest m b dirModTime reason) as HB.
  destruct (Build m b dirModTime reason) as [[m' b'] man].
  destruct HB as (Hsum & Hf & He & _ & _).
  rewrite Hsum, Hf, He.
  pose proof (sorted_directories_first _
    (sortSlice_lessEntry_sorted (readSlice (entryStore m) (entries b))))
    as (Hsplit & Hd & Hn).
  split_and!; try (by destruct (sliceLen (entries b) =? 0)%nat);
    try apply sortSlice_Permutation; try done.
  apply sortSlice_lessFailed_sorted.
Qed.

End builder.

End BuilderProps.

Module BuilderExamples.
Import slices snapshotfs BuilderSpec BuilderSamples BuilderProps.

Lemma Build_eleven_failed_entries :
  let '(m', b', man) :=
    buildAfter (fun _ n => n) 10 "kopia:directory"
      (failureOps elevenFailures) 0 "" in
  length (manifestFailedEntries m' man) = 11%nat
  /\ EntryPath <$> manifestFailedEntries m' man
     = ["a"; "b"; "c"; "d"; "e"; "f"; "g"; "h"; "i"; "j"; "k"]%string
  /\ sliceLen (FailedEntries (summary b')) = 10%nat.
Proof. vm_compute. done. Qed.

(** C9, witness. *)
Lemma manifest_summary_covers_directory_children_witness :
  withinInt64 sampleOps = true
  /\ let '(m', b', man) :=
       buildAfter (fun _ n => n) 10 "kopia:directory" sampleOps 1800000000 "" in
     forall c cs,
       c ∈ manifestEntries m' man ->
       Type_ c = EntryTypeDirectory ->
       DirSummary c = Some cs ->
       TotalFileCount cs <= TotalFileCount (Summary man)
       /\ TotalFileSize cs <= TotalFileSize (Summary man)
       /\ TotalDirCount cs <= TotalDirCount (Summary man)
       /\ FatalErrorCount cs <= FatalErrorCount (Summary man)
       /\ IgnoredErrorCount cs <= IgnoredErrorCount (Summary man)
       /\ MaxModTime cs <= MaxModTime (Summary man).
Proof.
  split; [reflexivity|].
  apply (manifest_summary_covers_directory_children
           (fun _ n => n) 10 "kopia:directory" sampleOps 1800000000 "").
  reflexivity.
Defined.

(** C9, as stated, fails in three ways: for an entry with a summary that
    is not a directory, when a summary holds a negative count, and when a
    counter wraps around. *)
Lemma manifest_summary_below_child :
  (let '(m', b', man) :=
     buildAfter (fun _ n => n) 10 "kopia:directory"
       [OpAddEntry fileWithSummary] 0 "" in
   exists c cs, c ∈ manifestEntries m' man /\ DirSummary c = Some cs
                /\ TotalFileCount (Summary man) = 1 /\ TotalFileCount cs = 5
                /\ TotalFileCount (Summary man) < TotalFileCount cs)
  /\ (let '(m', b', man) :=
        buildAfter (fun _ n => n) 10 "kopia:directory"
          [OpAddEntry dirFive; OpAddEntry dirMinusSeven] 0 "" in
      exists c cs, c ∈ manifestEntries m' man /\ DirSummary c = Some cs
                   /\ Type_ c = EntryTypeDirectory
                   /\ TotalFileCount (Summary man) = -2 /\ TotalFileCount cs = 5
                   /\ TotalFileCount (Summary man) < TotalFileCount cs)
  /\ (let '(m', b', man) :=
        buildAfter (fun _ n => n) 10 "kopia:directory"
          [OpAddEntry dirHuge; OpAddEntry oneByteFile] 0 "" in
      exists c cs, c ∈ manifestEntries m' man /\ DirSummary c = Some cs
                   /\ Type_ c = EntryTypeDirectory
                   /\ TotalFileSize (Summary man) = minInt64
                   /\ TotalFileSize cs = maxInt64
                   /\ TotalFileSize (Summary man) < TotalFileSize cs).
Proof.
  split; [|split].
  - vm_compute. eexists _, _. split; [apply list_elem_of_here|]. done.
  - vm_compute. eexists _, _. split; [apply list_elem_of_here|]. done.
  - vm_compute. eexists _, _. split; [apply list_elem_of_here|]. done.
Qed.

End BuilderExamples.

(** ** The sweep of the garbage collector *)

Module SweepProps.
Import index snapshotgc SweepSpec.

Lemma holdsMore_nil (c : CountSum) : holdsMore c c [].
Proof. split; simpl; lia. Qed.

Lemma holdsMore_step (c0 c1 c2 : CountSum) (ci : Info) (cis : list Info) :
  c1 = Add c0 (GetPackedLength ci) -> holdsMore c2 c1 cis ->
  holdsMore c2 c0 (ci :: cis).
Proof. intros -> [H1 H2]. split; simpl in *; lia. Qed.

Lemma bucket_elem (p : nat -> Info -> bool) (cis : list Info) : forall base ci,
  ci ∈ bucket p base cis <->
  exists i, cis !! i = Some ci /\ p (base + i)%nat ci = true.
Proof.
  induction cis as [|c cis IH]; intros base ci; simpl.
  - split; [intros H; by apply elem_of_nil in H|]. by intros (i & [=] & _).
  - split.
    + intros H. destruct (p base c) eqn:Hp.
      * apply elem_of_cons in H as [->|H].
        -- exists 0%nat. by rewrite Nat.add_0_r.
        -- apply IH in H as (i & Hi & Hpi). exists (S i).
           by rewrite Nat.add_succ_r.
      * apply IH in H as (i & Hi & Hpi). exists (S i).
        by rewrite Nat.add_succ_r.
    + intros ([|i] & Hi & Hpi); simpl in Hi.
      * injection Hi as ->. rewrite Nat.add_0_r in Hpi. rewrite Hpi. left.
      * rewrite Nat.add_succ_r in Hpi.
        assert (ci ∈ bucket p (S base) cis) by (apply IH; eauto).
        destruct (p base c); [by right|done].
Qed.

Section gc.
Variable Prefix : ID -> string.
Variable ContentPrefix : string.
Variable rep : Repository.
Variable gcDelete : bool.
Variable safety : SafetyParameters.
Variable used : gset ID.

Abbreviation isSystem := (isSystem Prefix ContentPrefix).
Abbreviation visit := (visit Prefix ContentPrefix rep gcDelete safety used).
Abbreviation iterateContents :=
  (iterateContents Prefix ContentPrefix rep gcDelete safety used).
Abbreviation inUseAt := (inUseAt Prefix ContentPrefix used).
Abbreviation undeletedAt := (undeletedAt Prefix ContentPrefix used).
Abbreviation tooRecentAt := (tooRecentAt Prefix ContentPrefix rep safety used).
Abbreviation unusedAt := (unusedAt Prefix ContentPrefix rep safety used).
Abbreviation callAt := (callAt Prefix ContentPrefix rep gcDelete safety used).
Abbreviation callDuring := (callDuring Prefix ContentPrefix rep gcDelete safety used).

(** One visit: the position moves on, the calls made are the visit's own,
    and the too-recent bucket takes the content exactly when it is an
    unreferenced, non-system content younger than the minimum age. *)
Lemma visit_effect (st : sweepState) (ci : Info) :
  let n := visited st in
  let st' := (visit st ci).1 in
  visited st' = S n
  /\ (exists new, calls st' = calls st ++ new /\ Forall (callAt n ci) new)
  /\ tooRecent st' = (if tooRecentAt n ci
                      then Add (tooRecent st) (GetPackedLength ci)
                      else tooRecent st)
  /\ (forall id, id ∈ used -> id ∉ deletedNow st -> id ∉ deletedNow st').
Proof.
  simpl. unfold callAt, snapshotgc.visit, tooRecentAt, undeletedAt, unusedAt,
    snapshotgc.isSystem, isUsed.
  destruct (String.eqb ContentPrefix (Prefix (GetContentID ci))) eqn:Hsys; simpl.
  { split_and!; [done|exists []; by rewrite app_nil_r|done|done]. }
  destruct (bool_decide (GetContentID ci ∈ used)) eqn:Hused; simpl.
  { apply bool_decide_eq_true in Hused.
    destruct (GetDeleted ci) eqn:Hdel; simpl.
    - destruct (undeleteErr rep (visited st)); simpl.
      + split_and!; [done| |done|done].
        eexists [_]. split; [done|]. by repeat constructor.
      + split_and!; [done| |done|set_solver].
        eexists [_]. split; [done|]. by repeat constructor.
    - split_and!; [done|exists []; by rewrite app_nil_r|done|done]. }
  apply bool_decide_eq_false in Hused.
  destruct (age rep (visited st) ci <? MinContentAgeSubjectToGC safety) eqn:Hage; simpl.
  { split_and!; [done|exists []; by rewrite app_nil_r|done|done]. }
  destruct gcDelete eqn:Hgc; simpl.
  - destruct (deleteErr rep (visited st)); simpl.
    + split_and!; [done| |done|done].
      eexists [_]. split; [done|]. by repeat constructor.
    + rewrite andb_true_r.
      destruct (_ =? 0); simpl.
      * destruct (flushErr rep (visited st)); simpl.
        -- split_and!; [done| |done|set_solver].
           eexists [_; _]. split; [by rewrite <- app_assoc|].
           by repeat constructor.
        -- split_and!; [done| |done|set_solver].
           eexists [_; _]. split; [by rewrite <- app_assoc|].
           by repeat constructor.
      * split_and!; [done| |done|set_solver].
        eexists [_]. split; [done|]. by repeat constructor.
  - rewrite andb_false_r. simpl.
    split_and!; [done|exists []; by rewrite app_nil_r|done|done].
Qed.

(** A visit that returns no error also fills the in-use and undeleted
    buckets, and a referenced deleted content has been undeleted. *)
Lemma visit_ok (st st' : sweepState) (ci : Info) :
  visit st ci = (st', Ok tt) ->
  let n := visited st in
  inUse st' = (if inUseAt n ci then Add (inUse st) (GetPackedLength ci)
               else inUse st)
  /\ undeleted st' = (if undeletedAt n ci
                      then Add (undeleted st) (GetPackedLength ci)
                      else undeleted st)
  /\ (undeletedAt n ci = true ->
      CallUndeleteContent n (GetContentID ci) ∈ calls st'
      /\ GetContentID ci ∉ deletedNow st').
Proof.
  simpl. unfold snapshotgc.visit, inUseAt, undeletedAt,
    snapshotgc.isSystem, isUsed.
  destruct (String.eqb ContentPrefix (Prefix (GetContentID ci))) eqn:Hsys; simpl.
  { intros [= <-]. simpl. done. }
  destruct (bool_decide (GetContentID ci ∈ used)) eqn:Hused; simpl.
  { destruct (GetDeleted ci) eqn:Hdel; simpl.
    - destruct (undeleteErr rep (visited st)); simpl; [done|].
      intros [= <-]. simpl. split_and!; [done|done|]. intros _.
      split; [|set_solver]. apply elem_of_app. right. left.
    - intros [= <-]. simpl. done. }
  destruct (age rep (visited st) ci <? MinContentAgeSubjectToGC safety); simpl.
  { intros [= <-]. simpl. done. }
  destruct gcDelete; simpl.
  - destruct (deleteErr rep (visited st)); simpl; [done|].
    rewrite andb_true_r. destruct (_ =? 0); simpl.
    + destruct (flushErr rep (visited st)); simpl; [done|].
      intros [= <-]. simpl. done.
    + intros [= <-]. simpl. done.
  - rewrite andb_false_r. simpl. intros [= <-]. simpl. done.
Qed.

Lemma callAt_during (base : nat) (ci : Info) (cis : list Info) (c : call) :
  callAt base ci c -> callDuring base (ci :: cis) c.
Proof.
  destruct c; simpl; try done; intros H; exists 0%nat, ci;
    rewrite Nat.add_0_r; done.
Qed.

Lemma callDuring_later (base : nat) (ci : Info) (cis : list Info) (c : call) :
  callDuring (S base) cis c -> callDuring base (ci :: cis) c.
Proof.
  destruct c; simpl; try done; intros (i & x & Hi & H); exists (S i), x;
    rewrite Nat.add_succ_r; done.
Qed.

(** The iteration, whatever its outcome. *)
Lemma iterateContents_effect (cis : list Info) : forall st,
  let st' := (iterateContents st cis).1 in
  let k := (visited st' - visited st)%nat in
  (visited st <= visited st')%nat /\ (k <= length cis)%nat
  /\ (isOk (iterateContents st cis).2 = true -> k = length cis)
  /\ (exists new, calls st' = calls st ++ new
                  /\ Forall (callDuring (visited st) cis) new)
  /\ holdsMore (tooRecent st') (tooRecent st)
       (bucket tooRecentAt (visited st) (take k cis))
  /\ (forall id, id ∈ used -> id ∉ deletedNow st -> id ∉ deletedNow st').
Proof.
  induction cis as [|ci cis IH]; intros st; simpl.
  - rewrite Nat.sub_diag. split_and!; try done.
    + exists []. by rewrite app_nil_r.
    + apply holdsMore_nil.
  - pose proof (visit_effect st ci) as (Hv & (new & Hcalls & Hnew) & Htoo & Hdel).
    simpl in *.
    destruct (visit st ci) as [st1 [[]|e]] eqn:Hvisit; simpl in *.
    + specialize (IH st1). simpl in IH.
      destruct (iterateContents st1 cis) as [st2 r] eqn:Hit. simpl in *.
      destruct IH as (Hle & Hk & Hok & (new' & Hcalls' & Hnew') & Htoo' & Hdel').
      rewrite Hv in *.
      replace (visited st2 - visited st)%nat
        with (S (visited st2 - S (visited st)))%nat by lia.
      split_and!; [lia|lia|intros Hr; rewrite Hok; done| | |auto].
      * exists (new ++ new'). rewrite Hcalls', Hcalls, app_assoc. split; [done|].
        apply Forall_app. split.
        -- eapply Forall_impl; [exact Hnew|]. intros c. apply callAt_during.
        -- eapply Forall_impl; [exact Hnew'|]. intros c. apply callDuring_later.
      * simpl. rewrite Htoo in Htoo'.
        destruct (tooRecentAt (visited st) ci); [|done].
        eapply holdsMore_step; [reflexivity|done].
    + rewrite Hv. replace (S (visited st) - visited st)%nat with 1%nat by lia.
      split_and!; [lia|lia|done| | |auto].
      * exists new. split; [done|].
        eapply Forall_impl; [exact Hnew|]. intros c. apply callAt_during.
      * simpl. rewrite Htoo.
        destruct (tooRecentAt (visited st) ci); [|apply holdsMore_nil].
        eapply holdsMore_step; [reflexivity|apply holdsMore_nil].
Qed.

(** The iteration, when it ends without an error. *)
Lemma iterateContents_ok (cis : list Info) : forall st st',
  iterateContents st cis = (st', Ok tt) ->
  holdsMore (inUse st') (inUse st) (bucket inUseAt (visited st) cis)
  /\ holdsMore (undeleted st') (undeleted st) (bucket undeletedAt (visited st) cis)
  /\ (forall i ci, cis !! i = Some ci ->
        undeletedAt (visited st + i) ci = true ->
        CallUndeleteContent (visited st + i) (GetContentID ci) ∈ calls st'
        /\ GetContentID ci ∉ deletedNow st').
Proof.
  induction cis as [|ci cis IH]; intros st st'; simpl.
  - intros [= <-]. split_and!; try apply holdsMore_nil. by intros i ci [=].
  - pose proof (visit_effect st ci) as (Hv & _ & _ & _).
    destruct (visit st ci) as [st1 [[]|e]] eqn:Hvisit; simpl in *; [|done].
    intros Hit.
    destruct (visit_ok st st1 ci Hvisit) as (Hin & Hun & Hcall).
    destruct (IH st1 st' Hit) as (Hin' & Hun' & Hcall').
    pose proof (iterateContents_effect cis st1) as (_ & _ & _ & Hcalls & _ & Hdel).
    rewrite Hit in Hcalls, Hdel. simpl in Hcalls, Hdel.
    rewrite Hv in *.
    split_and!.
    + rewrite Hin in Hin'. destruct (inUseAt (visited st) ci); [|done].
      eapply holdsMore_step; [reflexivity|done].
    + rewrite Hun in Hun'. destruct (undeletedAt (visited st) ci); [|done].
      eapply holdsMore_step; [reflexivity|done].
    + intros [|i] x Hx Hu; simpl in Hx.
      * injection Hx as <-. rewrite Nat.add_0_r in *.
        destruct (Hcall Hu) as [Hc Hd].
        destruct Hcalls as (new & -> & _). split.
        -- apply elem_of_app. by left.
        -- apply Hdel; [|done]. unfold undeletedAt, isUsed in Hu.
           rewrite !andb_true_iff in Hu. destruct Hu as [[_ Hu] _].
           by apply bool_decide_eq_true in Hu.
      * rewrite Nat.add_succ_r. by apply Hcall'.
Qed.

(** A visit counts a content with the manifest prefix in the system
    bucket and does nothing else; other contents leave the bucket as it
    is, and no visit changes the mark of an ID with the manifest prefix. *)
Lemma visit_system (st : sweepState) (ci : Info) :
  let st' := (visit st ci).1 in
  system st' = (if isSystem ci then Add (system st) (GetPackedLength ci)
                else system st)
  /\ (forall id, String.eqb ContentPrefix (Prefix id) = true ->
        (id ∈ deletedNow st' <-> id ∈ deletedNow st)).
Proof.
  simpl. unfold snapshotgc.visit, snapshotgc.isSystem.
  destruct (String.eqb ContentPrefix (Prefix (GetContentID ci))) eqn:Hsys; simpl.
  { done. }
  assert (Hne : forall id, String.eqb ContentPrefix (Prefix id) = true ->
                  id <> GetContentID ci).
  { intros id Hid ->. congruence. }
  destruct (bool_decide (GetContentID ci ∈ used)); simpl.
  { destruct (GetDeleted ci); simpl; [|done].
    destruct (undeleteErr rep (visited st)); simpl; [done|].
    split; [done|]. intros id Hid. specialize (Hne id Hid). set_solver. }
  destruct (age rep (visited st) ci <? MinContentAgeSubjectToGC safety); simpl; [done|].
  destruct gcDelete; simpl.
  - destruct (deleteErr rep (visited st)); simpl; [done|].
    rewrite andb_true_r.
    destruct (_ =? 0); simpl; [destruct (flushErr rep (visited st)); simpl|];
      (split; [done|]; intros id Hid; specialize (Hne id Hid); set_solver).
  - rewrite andb_false_r. simpl. done.
Qed.

(** The iteration, whatever its outcome: the system bucket takes the
    contents with the manifest prefix among those visited. *)
Lemma iterateContents_system (cis : list Info) : forall st,
  let st' := (iterateContents st cis).1 in
  let k := (visited st' - visited st)%nat in
  holdsMore (system st') (system st)
    (bucket (fun _ ci => isSystem ci) (visited st) (take k cis))
  /\ (forall id, String.eqb ContentPrefix (Prefix id) = true ->
        (id ∈ deletedNow st' <-> id ∈ deletedNow st)).
Proof.
  induction cis as [|ci cis IH]; intros st; simpl.
  - rewrite Nat.sub_diag. split; [apply holdsMore_nil|done].
  - pose proof (visit_effect st ci) as (Hv & _).
    pose proof (visit_system st ci) as (Hsys & Hmark).
    simpl in *.
    destruct (visit st ci) as [st1 [[]|e]] eqn:Hvisit; simpl in *.
    + pose proof (iterateContents_effect cis st1) as (Hle & _).
      specialize (IH st1). simpl in IH, Hle.
      destruct (iterateContents st1 cis) as [st2 r] eqn:Hit. simpl in *.
      destruct IH as (Hsys' & Hmark').
      rewrite Hv in *.
      replace (visited st2 - visited st)%nat
        with (S (visited st2 - S (visited st)))%nat by lia.
      split.
      * simpl. rewrite Hsys in Hsys'.
        destruct (isSystem ci); [|done].
        eapply holdsMore_step; [reflexivity|done].
      * intros id Hid. rewrite (Hmark' id Hid). by apply Hmark.
    + rewrite Hv. replace (S (visited st) - visited st)%nat with 1%nat by lia.
      split; [|done]. simpl. rewrite Hsys.
      destruct (isSystem ci); [|apply holdsMore_nil].
      eapply holdsMore_step; [reflexivity|apply holdsMore_nil].
Qed.

(** No call of the iteration undeletes or deletes an ID with the manifest
    prefix. *)
Lemma callDuring_not_system (base : nat) (cis : list Info) (c : call) :
  callDuring base cis c ->
  match c with
  | CallUndeleteContent _ id | CallDeleteContent _ id =>
      String.eqb ContentPrefix (Prefix id) = false
  | CallFlush _ => True
  end.
Proof.
  destruct c as [k id|k id|k]; simpl; [| |done].
  - intros (i & ci & _ & _ & -> & Hun). unfold undeletedAt in Hun.
    rewrite !andb_true_iff, negb_true_iff in Hun. tauto.
  - intros (i & ci & _ & _ & -> & Hun & _). unfold unusedAt in Hun.
    rewrite !andb_true_iff, !negb_true_iff in Hun. tauto.
Qed.

End gc.

Section run.
Variable Prefix : ID -> string.
Variable ContentPrefix : string.

Abbreviation runInternal := (runInternal Prefix ContentPrefix).
Abbreviation Run := (Run Prefix ContentPrefix).
Abbreviation tooRecentContents := (tooRecentContents Prefix ContentPrefix).
Abbreviation inUseContents := (inUseContents Prefix ContentPrefix).
Abbreviation undeletedContents := (undeletedContents Prefix ContentPrefix).

Lemma startSweep_visited rep : visited (startSweep rep) = 0%nat.
Proof. done. Qed.

(** Whatever the run does, no content younger than the minimum age is
    deleted, and the too-recent bucket holds the young unreferenced
    contents without the manifest prefix among those visited. *)
Lemma run_recent
    (rep : Repository) (gcDelete : bool) (safety : SafetyParameters) :
  let '(st, stats, err) := runInternal rep gcDelete safety in
  (forall n id, CallDeleteContent n id ∈ calls st ->
     exists ci, contents rep !! n = Some ci /\ id = GetContentID ci
                /\ MinContentAgeSubjectToGC safety <= age rep n ci)
  /\ (forall n ci id, contents rep !! n = Some ci ->
        age rep n ci < MinContentAgeSubjectToGC safety ->
        CallDeleteContent n id ∉ calls st)
  /\ (forall used, findInUseContentIDs rep = Ok used ->
        let young := tooRecentContents rep safety used
                       (take (visited st) (contents rep)) in
        TooRecentCount stats = Z.of_nat (length young)
        /\ TooRecentBytes stats = sumPacked young
        /\ (isOk err = true -> visited st = length (contents rep))).
Proof.
  unfold snapshotgc.runInternal.
  destruct (findInUseContentIDs rep) as [used|e] eqn:Hused.
  2: { split_and!; [intros n id H; by apply elem_of_nil in H
                   |intros n ci id _ _ H; by apply elem_of_nil in H
                   |by intros ? [=]]. }
  pose proof (iterateContents_effect Prefix ContentPrefix rep gcDelete safety used
                (contents rep) (startSweep rep))
    as (_ & Hk & Hok & (new & Hcalls & Hnew) & Htoo & _).
  destruct (snapshotgc.iterateContents Prefix ContentPrefix rep gcDelete safety used
              (startSweep rep) (contents rep)) as [st r] eqn:Hit.
  simpl in *. rewrite Nat.sub_0_r in *.
  assert (Hdel : forall (extra : list call) n id,
    (forall k i, CallDeleteContent k i ∉ extra) ->
    CallDeleteContent n id ∈ calls st ++ extra ->
    exists ci, contents rep !! n = Some ci /\ id = GetContentID ci
               /\ MinContentAgeSubjectToGC safety <= age rep n ci).
  { intros extra n id Hextra Hin. rewrite Hcalls in Hin.
    apply elem_of_app in Hin as [Hin|Hin]; [|by apply Hextra in Hin].
    rewrite Forall_forall in Hnew. apply Hnew in Hin.
    destruct Hin as (i & ci & Hi & -> & -> & Hun & _). exists ci.
    split_and!; [done|done|]. unfold unusedAt in Hun.
    rewrite !andb_true_iff, !negb_true_iff, Z.ltb_ge in Hun. tauto. }
  assert (Hstats : TooRecentCount (statsOf st)
                   = Z.of_nat (length (tooRecentContents rep safety used
                                         (take (visited st) (contents rep))))
                   /\ TooRecentBytes (statsOf st)
                      = sumPacked (tooRecentContents rep safety used
                                     (take (visited st) (contents rep)))).
  { destruct Htoo as [H1 H2]. simpl in *. unfold tooRecentContents. lia. }
  assert (Hfinal : forall (extra : list call) (st2 : sweepState) stats2
                          (err2 : result unit),
    (forall k i, CallDeleteContent k i ∉ extra) ->
    calls st2 = calls st ++ extra -> visited st2 = visited st ->
    stats2 = statsOf st ->
    (isOk err2 = true -> isOk r = true) ->
    (forall n id, CallDeleteContent n id ∈ calls st2 ->
       exists ci, contents rep !! n = Some ci /\ id = GetContentID ci
                  /\ MinContentAgeSubjectToGC safety <= age rep n ci)
    /\ (forall n ci id, contents rep !! n = Some ci ->
          age rep n ci < MinContentAgeSubjectToGC safety ->
          CallDeleteContent n id ∉ calls st2)
    /\ (forall used0, Ok used = Ok used0 ->
          let young := tooRecentContents rep safety used0
                         (take (visited st2) (contents rep)) in
          TooRecentCount stats2 = Z.of_nat (length young)
          /\ TooRecentBytes stats2 = sumPacked young
          /\ (isOk err2 = true -> visited st2 = length (contents rep)))).
  { intros extra st2 stats2 err2 Hextra Hc2 Hv2 -> Herr.
    rewrite Hc2, Hv2. split_and!.
    - intros n id. by apply Hdel.
    - intros n ci id Hn Hage Hin.
      destruct (Hdel extra n id Hextra Hin) as (ci' & Hn' & _ & Hle).
      rewrite Hn in Hn'. injection Hn' as <-. lia.
    - intros used0 [= <-]. simpl. split_and!; [apply Hstats|apply Hstats|].
      intros H. by apply Hok, Herr. }
  destruct r as [[]|e]; cbv beta iota zeta.
  - match goal with |- context [if ?c then _ else _] => destruct c end;
      cbv beta iota zeta.
    + apply (Hfinal []); try done.
      * intros k i H. by apply elem_of_nil in H.
      * by rewrite app_nil_r.
    + destruct (flushErr rep (visited st)); cbv beta iota zeta.
      * apply (Hfinal [CallFlush (visited st)]); try done.
        intros k i H. apply list_elem_of_singleton in H. done.
      * apply (Hfinal [CallFlush (visited st)]); try done.
        intros k i H. apply list_elem_of_singleton in H. done.
  - apply (Hfinal []); try done.
    + intros k i H. by apply elem_of_nil in H.
    + by rewrite app_nil_r.
Qed.

(** Whatever the run does, the system bucket holds the contents with the
    manifest prefix among those visited, and an ID with the manifest
    prefix is left as it is: no call undeletes or deletes it, and its mark
    is the one the iteration started with. *)
Lemma run_system
    (rep : Repository) (gcDelete : bool) (safety : SafetyParameters) :
  let '(st, stats, err) := runInternal rep gcDelete safety in
  let sys := systemContents Prefix ContentPrefix (take (visited st) (contents rep)) in
  SystemCount stats = Z.of_nat (length sys)
  /\ SystemBytes stats = sumPacked sys
  /\ (forall id, String.eqb ContentPrefix (Prefix id) = true ->
        (id ∈ deletedNow st <-> id ∈ initiallyDeleted rep)
        /\ (forall k, CallUndeleteContent k id ∉ calls st)
        /\ (forall k, CallDeleteContent k id ∉ calls st)).
Proof.
  unfold snapshotgc.runInternal.
  destruct (findInUseContentIDs rep) as [used|e] eqn:Hused.
  2: { cbn. split_and!; [done|done|]. intros id _. split_and!; [done| |];
       intros k H; by apply elem_of_nil in H. }
  pose proof (iterateContents_effect Prefix ContentPrefix rep gcDelete safety used
                (contents rep) (startSweep rep))
    as (_ & _ & _ & (new & Hcalls & Hnew) & _).
  pose proof (iterateContents_system Prefix ContentPrefix rep gcDelete safety used
                (contents rep) (startSweep rep)) as (Hsys & Hmark).
  destruct (snapshotgc.iterateContents Prefix ContentPrefix rep gcDelete safety used
              (startSweep rep) (contents rep)) as [st r] eqn:Hit.
  simpl in *. rewrite Nat.sub_0_r in *.
  assert (Hcore : forall (extra : list call),
    (forall c, c ∈ extra -> exists k, c = CallFlush k) ->
    SystemCount (statsOf st)
    = Z.of_nat (length (systemContents Prefix ContentPrefix
                          (take (visited st) (contents rep))))
    /\ SystemBytes (statsOf st)
       = sumPacked (systemContents Prefix ContentPrefix
                      (take (visited st) (contents rep)))
    /\ (forall id, String.eqb ContentPrefix (Prefix id) = true ->
          (id ∈ deletedNow st <-> id ∈ initiallyDeleted rep)
          /\ (forall k, CallUndeleteContent k id ∉ calls st ++ extra)
          /\ (forall k, CallDeleteContent k id ∉ calls st ++ extra))).
  { intros extra Hextra. destruct Hsys as [H1 H2]. simpl in *.
    unfold systemContents. split_and!; [lia|lia|].
    intros id Hid. split_and!; [by apply Hmark| |].
    - intros k Hin. rewrite Hcalls in Hin.
      apply elem_of_app in Hin as [Hin|Hin]; [|by apply Hextra in Hin as [? ?]].
      rewrite Forall_forall in Hnew. apply Hnew in Hin.
      apply (callDuring_not_system Prefix ContentPrefix rep gcDelete safety used) in Hin.
      simpl in Hin. congruence.
    - intros k Hin. rewrite Hcalls in Hin.
      apply elem_of_app in Hin as [Hin|Hin]; [|by apply Hextra in Hin as [? ?]].
      rewrite Forall_forall in Hnew. apply Hnew in Hin.
      apply (callDuring_not_system Prefix ContentPrefix rep gcDelete safety used) in Hin.
      simpl in Hin. congruence. }
  assert (Hnone : forall c : call, c ∈ [] -> exists k, c = CallFlush k).
  { intros c H. by apply elem_of_nil in H. }
  assert (Hflush : forall c : call, c ∈ [CallFlush (visited st)] ->
                     exists k, c = CallFlush k).
  { intros c H. apply list_elem_of_singleton in H. eauto. }
  pose proof (Hcore [] Hnone) as H0. rewrite app_nil_r in H0.
  pose proof (Hcore _ Hflush) as H1.
  destruct r as [[]|e]; cbv beta iota zeta.
  - match goal with |- context [if ?c then _ else _] => destruct c end;
      cbv beta iota zeta; [exact H0|].
    destruct (flushErr rep (visited st)); cbv beta iota zeta; exact H1.
  - exact H0.
Qed.

(** C2 (as amended).  Whatever the run does, a content passed to
    [DeleteContent] is the content visited at that position and its age
    there is not below [MinContentAgeSubjectToGC]: no younger content is
    ever deleted, referenced or not.  The too-recent bucket reported by the
    run holds exactly the unreferenced contents without the manifest
    prefix, among those visited, that are younger than the minimum age
    (all contents are visited when the iteration ends without an error),
    and the system bucket exactly the visited contents with the manifest
    prefix: of the young unreferenced contents visited, those without the
    prefix are in the one and those with it in the other. *)
Theorem gc_never_deletes_recent_content
    (rep : Repository) (gcDelete : bool) (safety : SafetyParameters) :
  let '(st, stats, err) := runInternal rep gcDelete safety in
  (forall n id, CallDeleteContent n id ∈ calls st ->
     exists ci, contents rep !! n = Some ci /\ id = GetContentID ci
                /\ MinContentAgeSubjectToGC safety <= age rep n ci)
  /\ (forall n ci id, contents rep !! n = Some ci ->
        age rep n ci < MinContentAgeSubjectToGC safety ->
        CallDeleteContent n id ∉ calls st)
  /\ (forall used, findInUseContentIDs rep = Ok used ->
        let young := tooRecentContents rep safety used
                       (take (visited st) (contents rep)) in
        TooRecentCount stats = Z.of_nat (length young)
        /\ TooRecentBytes stats = sumPacked young
        /\ (isOk err = true -> visited st = length (contents rep)))
  /\ (let sys := systemContents Prefix ContentPrefix
                   (take (visited st) (contents rep)) in
      SystemCount stats = Z.of_nat (length sys)
      /\ SystemBytes stats = sumPacked sys)
  /\ (forall used n ci,
        findInUseContentIDs rep = Ok used ->
        (n < visited st)%nat ->
        contents rep !! n = Some ci ->
        GetContentID ci ∉ used ->
        age rep n ci < MinContentAgeSubjectToGC safety ->
        if isSystem Prefix ContentPrefix ci
        then ci ∈ systemContents Prefix ContentPrefix
                    (take (visited st) (contents rep))
             /\ ci ∉ tooRecentContents rep safety used
                       (take (visited st) (contents rep))
        else ci ∈ tooRecentContents rep safety used
                    (take (visited st) (contents rep))
             /\ ci ∉ systemContents Prefix ContentPrefix
                       (take (visited st) (contents rep))).
Proof.
  pose proof (run_recent rep gcDelete safety) as Hrecent.
  pose proof (run_system rep gcDelete safety) as Hsystem.
  destruct (runInternal rep gcDelete safety) as [[st stats] err].
  destruct Hrecent as (H1 & H2 & H3). destruct Hsystem as (S1 & S2 & _).
  split_and!; try done.
  intros used n ci _ Hn Hci Hused Hage.
  assert (Hlook : take (visited st) (contents rep) !! n = Some ci)
    by (by rewrite lookup_take_lt).
  assert (Hnot : forall (p : nat -> Info -> bool),
            (forall k, p k ci = false) ->
            ci ∉ bucket p 0 (take (visited st) (contents rep))).
  { intros p Hp Hin. apply bucket_elem in Hin as (i & _ & Hi).
    by rewrite Hp in Hi. }
  destruct (isSystem Prefix ContentPrefix ci) eqn:Hsys.
  - split.
    + apply bucket_elem. exists n. done.
    + apply Hnot. intros k. unfold tooRecentAt. by rewrite Hsys.
  - split.
    + apply bucket_elem. exists n. split; [done|]. simpl.
      unfold tooRecentAt, isUsed. rewrite Hsys.
      rewrite bool_decide_eq_false_2 by done. simpl. by apply Z.ltb_lt.
    + by apply Hnot.
Qed.

Lemma Run_ok rep gcDelete safety st stats :
  Run rep gcDelete safety = (st, stats, Ok tt) ->
  runInternal rep gcDelete safety = (st, stats, Ok tt).
Proof.
  unfold snapshotgc.Run.
  destruct (runInternal rep gcDelete safety) as [[st0 stats0] [[]|e]]; simpl;
    [|by destruct e].
  by intros [= -> ->].
Qed.

(** C3 (as amended).  When a run ends without an error, every content of
    the repository whose ID is in the mark set, whose ID does not carry the
    manifest prefix, and which is marked deleted has been passed to
    [UndeleteContent] and is no longer marked deleted; the undeleted bucket
    holds exactly these contents, and the in-use bucket exactly the
    referenced contents without the manifest prefix (so each such content
    is counted in both).  The system bucket holds exactly the contents with
    the manifest prefix, and such a content is left as it is, referenced or
    not: it is in no other bucket, no call undeletes or deletes its ID, and
    its ID is marked deleted after the run exactly when it was before. *)
Theorem gc_undeletes_referenced_content
    (rep : Repository) (gcDelete : bool) (safety : SafetyParameters)
    (st : sweepState) (stats : Stats) (used : gset ID) :
  Run rep gcDelete safety = (st, stats, Ok tt) ->
  findInUseContentIDs rep = Ok used ->
  (forall n ci,
     contents rep !! n = Some ci ->
     GetContentID ci ∈ used ->
     isSystem Prefix ContentPrefix ci = false ->
     GetDeleted ci = true ->
     CallUndeleteContent n (GetContentID ci) ∈ calls st
     /\ (GetContentID ci ∉ deletedNow st)
     /\ ci ∈ undeletedContents used (contents rep)
     /\ ci ∈ inUseContents used (contents rep))
  /\ UndeletedCount stats = Z.of_nat (length (undeletedContents used (contents rep)))
  /\ UndeletedBytes stats = sumPacked (undeletedContents used (contents rep))
  /\ InUseCount stats = Z.of_nat (length (inUseContents used (contents rep)))
  /\ InUseBytes stats = sumPacked (inUseContents used (contents rep))
  /\ SystemCount stats
     = Z.of_nat (length (systemContents Prefix ContentPrefix (contents rep)))
  /\ SystemBytes stats = sumPacked (systemContents Prefix ContentPrefix (contents rep))
  /\ (forall n ci,
        contents rep !! n = Some ci ->
        isSystem Prefix ContentPrefix ci = true ->
        ci ∈ systemContents Prefix ContentPrefix (contents rep)
        /\ (ci ∉ undeletedContents used (contents rep))
        /\ (ci ∉ inUseContents used (contents rep))
        /\ (forall k, CallUndeleteContent k (GetContentID ci) ∉ calls st)
        /\ (forall k, CallDeleteContent k (GetContentID ci) ∉ calls st)
        /\ (GetContentID ci ∈ deletedNow st
            <-> GetContentID ci ∈ initiallyDeleted rep)).
Proof.
  intros Hrun%Run_ok Hused.
  pose proof (run_recent rep gcDelete safety) as Hrecent.
  pose proof (run_system rep gcDelete safety) as Hsystem.
  rewrite Hrun in Hrecent, Hsystem.
  destruct Hrecent as (_ & _ & Hvis). destruct (Hvis used Hused) as (_ & _ & Hall).
  specialize (Hall eq_refl). rewrite Hall, firstn_all in Hsystem.
  destruct Hsystem as (Hsc & Hsb & Hleft). clear Hvis Hall.
  unfold snapshotgc.runInternal in Hrun.
  rewrite Hused in Hrun.
  destruct (snapshotgc.iterateContents Prefix ContentPrefix rep gcDelete safety used
              (startSweep rep) (contents rep)) as [st0 r] eqn:Hit.
  destruct r as [[]|e]; [|done].
  destruct (iterateContents_ok Prefix ContentPrefix rep gcDelete safety used
              (contents rep) (startSweep rep) st0 Hit) as (Hin & Hun & Hcall).
  assert (Hst : calls st = calls st0 ++ [CallFlush (visited st0)]
                /\ deletedNow st = deletedNow st0 /\ stats = statsOf st0).
  { destruct ((0 <? UnusedCount (statsOf st0)) && negb gcDelete); [done|].
    destruct (flushErr rep _); [done|].
    by injection Hrun as <- <-. }
  destruct Hst as (Hc & Hd & ->).
  destruct Hin as [Hin1 Hin2], Hun as [Hun1 Hun2]. simpl in *.
  split_and!; try (unfold undeletedContents, inUseContents; lia); try done.
  - intros n ci Hn Hu Hsys Hdel. rewrite Hc, Hd.
    assert (Hsel : undeletedAt Prefix ContentPrefix used n ci = true).
    { unfold undeletedAt, isUsed. rewrite Hsys, Hdel. simpl.
      by rewrite bool_decide_eq_true_2. }
    destruct (Hcall n ci Hn Hsel) as [H1 H2].
    split_and!; [apply elem_of_app; by left|done| |].
    + apply bucket_elem. exists n. done.
    + apply bucket_elem. exists n. split; [done|]. simpl.
      unfold undeletedAt in Hsel. unfold inUseAt.
      by apply andb_true_iff in Hsel as [-> _].
  - intros n ci Hn Hsys.
    destruct (Hleft (GetContentID ci) Hsys) as (Hmark & Hnu & Hnd).
    split_and!; try done.
    + apply bucket_elem. exists n. done.
    + intros Hin. apply bucket_elem in Hin as (i & _ & Hi).
      unfold undeletedAt in Hi. by rewrite Hsys in Hi.
    + intros Hin. apply bucket_elem in Hin as (i & _ & Hi).
      unfold inUseAt in Hi. by rewrite Hsys in Hi.
Qed.

End run.

End SweepProps.

Module SweepExamples.
Import index snapshotgc SweepSpec SweepSamples SweepProps.

(** C3, witness: scenario "GC undelete". *)
Lemma gc_undeletes_referenced_content_witness :
  (Run samplePrefix "m" repoWithDeletedX true (mkSafety oneHour)).2 = Ok tt
  /\ CallUndeleteContent 0 "aabbcc"
       ∈ calls (Run samplePrefix "m" repoWithDeletedX true (mkSafety oneHour)).1.1
  /\ ("aabbcc"%string
       ∉ deletedNow (Run samplePrefix "m" repoWithDeletedX true (mkSafety oneHour)).1.1)
  /\ UndeletedCount (Run samplePrefix "m" repoWithDeletedX true (mkSafety oneHour)).1.2
     = 1.
Proof.
  destruct (Run samplePrefix "m" repoWithDeletedX true (mkSafety oneHour))
    as [[st stats] err] eqn:Hrun.
  assert (Herr : err = Ok tt).
  { apply (f_equal snd) in Hrun. vm_compute in Hrun. by symmetry. }
  subst err. simpl. split; [done|].
  assert (Hused : findInUseContentIDs repoWithDeletedX = Ok {["aabbcc"%string]}).
  { unfold findInUseContentIDs. simpl. f_equal; set_solver. }
  destruct (gc_undeletes_referenced_content samplePrefix "m" repoWithDeletedX true
              (mkSafety oneHour) st stats {["aabbcc"%string]} Hrun Hused)
    as (Hx & Hcount & _).
  destruct (Hx 0%nat (InfoStruct "aabbcc" 1000 "p1" 0 true 80 100 1 0 0))
    as (H1 & H2 & _); [done|set_solver|done|done|].
  split; [exact H1|]. split; [exact H2|]. exact Hcount.
Defined.

(** C2, as stated, fails in its second half: the content is unreferenced
    and younger than the minimum age, it is not deleted, and yet it is not
    counted in the too-recent bucket: it is counted as a system content. *)
Lemma gc_counts_recent_manifest_content_as_system :
  youngManifestRun.2 = Ok tt
  /\ findInUseContentIDs repoWithYoungManifest = Ok ∅
  /\ age repoWithYoungManifest 0 (InfoStruct "m0012" 1000 "q1" 0 false 80 100 1 0 0)
     < MinContentAgeSubjectToGC (mkSafety oneHour)
  /\ calls youngManifestRun.1.1 = [CallFlush 1]
  /\ TooRecentCount youngManifestRun.1.2 = 0
  /\ SystemCount youngManifestRun.1.2 = 1.
Proof. split_and!; vm_compute; reflexivity. Qed.

(** C3, as stated, fails: the content is in the mark set and marked
    deleted, the run succeeds, and yet the content was not passed to
    [UndeleteContent], is still marked deleted, and is counted as a system
    content, not in the undeleted or in-use buckets. *)
Lemma gc_skips_referenced_manifest_content :
  manifestRun.2 = Ok tt
  /\ (exists used, findInUseContentIDs repoWithDeletedManifest = Ok used
                   /\ "m0011"%string ∈ used)
  /\ contents repoWithDeletedManifest
     = [InfoStruct "m0011" 1000 "q1" 0 true 80 100 1 0 0]
  /\ calls manifestRun.1.1 = [CallFlush 1]
  /\ "m0011"%string ∈ deletedNow manifestRun.1.1
  /\ UndeletedCount manifestRun.1.2 = 0
  /\ InUseCount manifestRun.1.2 = 0
  /\ SystemCount manifestRun.1.2 = 1.
Proof.
  split_and!; try (vm_compute; reflexivity).
  eexists. split; [reflexivity|]. set_solver.
Qed.

End SweepExamples.

(** ** What the sweep touches, and what it reports *)

Module SweepSafety.
Import index snapshotgc SweepSpec SweepSamples SweepProps.

Section gc.
Variable Prefix : ID -> string.
Variable ContentPrefix : string.
Variable rep : Repository.
Variable gcDelete : bool.
Variable safety : SafetyParameters.
Variable used : gset ID.

Abbreviation isSystem := (isSystem Prefix ContentPrefix).
Abbreviation visit := (visit Prefix ContentPrefix rep gcDelete safety used).
Abbreviation iterateContents :=
  (iterateContents Prefix ContentPrefix rep gcDelete safety used).
Abbreviation unusedAt := (unusedAt Prefix ContentPrefix rep safety used).

(** A visit that returns no error puts the content into exactly one of the
    four buckets, and with [gcDelete] an unused content has been passed to
    [DeleteContent]. *)
Lemma visit_buckets (st st' : sweepState) (ci : Info) :
  visit st ci = (st', Ok tt) ->
  let n := visited st in
  unused st' = (if unusedAt n ci then Add (unused st) (GetPackedLength ci)
                else unused st)
  /\ system st' = (if isSystem ci then Add (system st) (GetPackedLength ci)
                   else system st)
  /\ csCount (unused st') + csCount (inUse st') + csCount (system st')
     + csCount (tooRecent st')
     = csCount (unused st) + csCount (inUse st) + csCount (system st)
       + csCount (tooRecent st) + 1
  /\ csSum (unused st') + csSum (inUse st') + csSum (system st')
     + csSum (tooRecent st')
     = csSum (unused st) + csSum (inUse st) + csSum (system st)
       + csSum (tooRecent st) + GetPackedLength ci
  /\ (unusedAt n ci = true -> gcDelete = true ->
      CallDeleteContent n (GetContentID ci) ∈ calls st').
Proof.
  simpl. unfold snapshotgc.visit, SweepSpec.unusedAt, snapshotgc.isSystem, isUsed.
  destruct (String.eqb ContentPrefix (Prefix (GetContentID ci))) eqn:Hsys; simpl.
  { intros [= <-]. simpl. split_and!; try done; lia. }
  destruct (bool_decide (GetContentID ci ∈ used)) eqn:Hused; simpl.
  { destruct (GetDeleted ci) eqn:Hdel; simpl.
    - destruct (undeleteErr rep (visited st)); simpl; [done|].
      intros [= <-]. simpl. split_and!; try done; lia.
    - intros [= <-]. simpl. split_and!; try done; lia. }
  destruct (age rep (visited st) ci <? MinContentAgeSubjectToGC safety); simpl.
  { intros [= <-]. simpl. split_and!; try done; lia. }
  destruct gcDelete; simpl.
  - destruct (deleteErr rep (visited st)); simpl; [done|].
    rewrite andb_true_r. destruct (_ =? 0); simpl.
    + destruct (flushErr rep (visited st)); simpl; [done|].
      intros [= <-]. simpl. split_and!; try done; try lia.
      intros _ _. apply elem_of_app. left. apply elem_of_app. right. left.
    + intros [= <-]. simpl. split_and!; try done; try lia.
      intros _ _. apply elem_of_app. right. left.
  - rewrite andb_false_r. simpl. intros [= <-]. simpl.
    split_and!; try done; lia.
Qed.

(** Whatever a visit returns, the undeleted bucket stays within the in-use
    bucket and no bucket shrinks. *)
Lemma visit_undeleted_le (st : sweepState) (ci : Info) :
  csCount (undeleted st) <= csCount (inUse st) ->
  csCount (undeleted (visit st ci).1) <= csCount (inUse (visit st ci).1).
Proof.
  unfold snapshotgc.visit.
  destruct (String.eqb ContentPrefix (Prefix (GetContentID ci))); simpl; [done|].
  destruct (bool_decide (GetContentID ci ∈ used)); simpl.
  { destruct (GetDeleted ci); simpl; [|lia].
    destruct (undeleteErr rep (visited st)); simpl; lia. }
  destruct (age rep (visited st) ci <? MinContentAgeSubjectToGC safety); simpl;
    [done|].
  destruct gcDelete; simpl.
  - destruct (deleteErr rep (visited st)); simpl; [done|].
    rewrite andb_true_r. destruct (_ =? 0); simpl; [|done].
    by destruct (flushErr rep (visited st)).
  - by rewrite andb_false_r.
Qed.

Lemma iterateContents_undeleted_le (cis : list Info) : forall st,
  csCount (undeleted st) <= csCount (inUse st) ->
  csCount (undeleted (iterateContents st cis).1)
  <= csCount (inUse (iterateContents st cis).1).
Proof.
  induction cis as [|ci cis IH]; intros st Hle; simpl; [done|].
  pose proof (visit_undeleted_le st ci Hle) as H1.
  destruct (visit st ci) as [st1 [[]|e]]; simpl in *; [|done].
  by apply IH.
Qed.

Lemma iterateContents_buckets (cis : list Info) : forall st st',
  iterateContents st cis = (st', Ok tt) ->
  holdsMore (unused st') (unused st) (bucket unusedAt (visited st) cis)
  /\ holdsMore (system st') (system st)
       (bucket (fun _ ci => isSystem ci) (visited st) cis)
  /\ csCount (unused st') + csCount (inUse st') + csCount (system st')
     + csCount (tooRecent st')
     = csCount (unused st) + csCount (inUse st) + csCount (system st)
       + csCount (tooRecent st) + Z.of_nat (length cis)
  /\ csSum (unused st') + csSum (inUse st') + csSum (system st')
     + csSum (tooRecent st')
     = csSum (unused st) + csSum (inUse st) + csSum (system st)
       + csSum (tooRecent st) + sumPacked cis
  /\ (forall i ci, cis !! i = Some ci ->
        unusedAt (visited st + i) ci = true -> gcDelete = true ->
        CallDeleteContent (visited st + i) (GetContentID ci) ∈ calls st').
Proof.
  induction cis as [|ci cis IH]; intros st st'; simpl.
  - intros [= <-]. split_and!; try apply holdsMore_nil; try lia.
    by intros i ci [=].
  - pose proof (visit_effect Prefix ContentPrefix rep gcDelete safety used st ci)
      as (Hv & _ & _ & _).
    destruct (visit st ci) as [st1 [[]|e]] eqn:Hvisit; simpl in *; [|done].
    intros Hit.
    destruct (visit_buckets st st1 ci Hvisit) as (Hun & Hsys & Hc & Hs & Hcall).
    destruct (IH st1 st' Hit) as (Hun' & Hsys' & Hc' & Hs' & Hcall').
    pose proof (iterateContents_effect Prefix ContentPrefix rep gcDelete safety
                  used cis st1) as (_ & _ & _ & Hcalls & _ & _).
    rewrite Hit in Hcalls. simpl in Hcalls.
    rewrite Hv in *.
    split_and!.
    + rewrite Hun in Hun'. destruct (unusedAt (visited st) ci); [|done].
      eapply holdsMore_step; [reflexivity|done].
    + rewrite Hsys in Hsys'. destruct (isSystem ci); [|done].
      eapply holdsMore_step; [reflexivity|done].
    + lia.
    + lia.
    + intros [|i] x Hx Hu Hgc; simpl in Hx.
      * injection Hx as <-. rewrite Nat.add_0_r in *.
        destruct Hcalls as (new & -> & _).
        apply elem_of_app. left. by apply Hcall.
      * rewrite Nat.add_succ_r in Hu |- *. by apply Hcall'.
Qed.

End gc.

Section dry.
Variable Prefix : ID -> string.
Variable ContentPrefix : string.
Variable rep : Repository.
Variable safety : SafetyParameters.
Variable used : gset ID.

(** Without [gcDelete] the only calls made while iterating are
    [UndeleteContent]s. *)
Lemma visit_dry (st : sweepState) (ci : Info) :
  Forall (fun c => exists n id, c = CallUndeleteContent n id) (calls st) ->
  Forall (fun c => exists n id, c = CallUndeleteContent n id)
    (calls (visit Prefix ContentPrefix rep false safety used st ci).1).
Proof.
  intros H0. unfold visit.
  destruct (String.eqb _ _); simpl; [done|].
  destruct (bool_decide _); simpl.
  - destruct (GetDeleted ci); simpl; [|done].
    destruct (undeleteErr rep (visited st)); simpl;
      (apply Forall_app; split; [done|]); repeat constructor; eauto.
  - destruct (_ <? _); simpl; [done|]. by rewrite andb_false_r.
Qed.

Lemma iterateContents_dry (cis : list Info) : forall st,
  Forall (fun c => exists n id, c = CallUndeleteContent n id) (calls st) ->
  Forall (fun c => exists n id, c = CallUndeleteContent n id)
    (calls (iterateContents Prefix ContentPrefix rep false safety used st cis).1).
Proof.
  induction cis as [|ci cis IH]; intros st H0; simpl; [done|].
  pose proof (visit_dry st ci H0) as H1.
  destruct (visit Prefix ContentPrefix rep false safety used st ci)
    as [st1 [[]|e]]; simpl in *; [by apply IH|done].
Qed.

End dry.

Section run.
Variable Prefix : ID -> string.
Variable ContentPrefix : string.

Abbreviation runInternal := (runInternal Prefix ContentPrefix).
Abbreviation Run := (Run Prefix ContentPrefix).
Abbreviation findInUseContentIDs := (@findInUseContentIDs).
Abbreviation unusedContents := (unusedContents Prefix ContentPrefix).
Abbreviation systemContents := (systemContents Prefix ContentPrefix).

(** How a run ends, once the referenced contents are known: it hands back
    the statistics of the iteration, and it makes one more call, the final
    flush, exactly when the iteration ended without an error and the run is
    not a dry run that found unused contents. *)
Lemma Run_shape (rep : Repository) (gcDelete : bool) (safety : SafetyParameters)
    (used : gset ID) :
  findInUseContentIDs rep = Ok used ->
  let it := snapshotgc.iterateContents Prefix ContentPrefix rep gcDelete safety
              used (startSweep rep) (contents rep) in
  let '(st, stats, err) := Run rep gcDelete safety in
  stats = statsOf it.1 /\ visited st = visited it.1
  /\ deletedNow st = deletedNow it.1
  /\ ((calls st = calls it.1 /\ isOk err = false
       /\ (isOk it.2 = false
           \/ (isOk it.2 = true /\ 0 < UnusedCount stats /\ gcDelete = false)))
      \/ (calls st = calls it.1 ++ [CallFlush (visited it.1)]
          /\ isOk it.2 = true
          /\ (0 < UnusedCount stats -> gcDelete = true))).
Proof.
  intros Hused. unfold snapshotgc.Run, snapshotgc.runInternal. rewrite Hused.
  destruct (snapshotgc.iterateContents Prefix ContentPrefix rep gcDelete safety
              used (startSweep rep) (contents rep)) as [st0 r].
  destruct r as [[]|e]; cbv beta iota zeta.
  - destruct (0 <? UnusedCount (statsOf st0)) eqn:Hpos;
      destruct gcDelete; simpl.
    + destruct (flushErr rep (visited st0)); simpl; split_and!; try done;
        right; done.
    + split_and!; try done. left. split_and!; try done. right.
      split_and!; try done. by apply Z.ltb_lt.
    + destruct (flushErr rep (visited st0)); simpl; split_and!; try done;
        right; done.
    + apply Z.ltb_ge in Hpos.
      destruct (flushErr rep (visited st0)); simpl; split_and!; try done;
        right; split_and!; try done; simpl in *; lia.
  - simpl. split_and!; try done. left. split_and!; try done. by left.
Qed.

(** X5.  The sweep touches only what it may.  When the referenced contents
    cannot be found, nothing is asked of the content manager and the run
    fails.  Otherwise a content passed to [DeleteContent] is the content
    visited at that position, the run deletes ([gcDelete]), no snapshot
    references the content and its ID does not carry the manifest prefix;
    a content passed to [UndeleteContent] is the content visited at that
    position, it is referenced, marked deleted and does not carry the
    manifest prefix. *)
Theorem gc_touches_only_what_it_may
    (rep : Repository) (gcDelete : bool) (safety : SafetyParameters) :
  let '(st, stats, err) := Run rep gcDelete safety in
  match findInUseContentIDs rep with
  | Err _ => calls st = [] /\ stats = zeroStats /\ isOk err = false
  | Ok used =>
      (forall n id, CallDeleteContent n id ∈ calls st ->
         gcDelete = true /\ (id ∉ used) /\ Prefix id <> ContentPrefix
         /\ exists ci, contents rep !! n = Some ci /\ id = GetContentID ci)
      /\ (forall n id, CallUndeleteContent n id ∈ calls st ->
            id ∈ used /\ Prefix id <> ContentPrefix
            /\ exists ci, contents rep !! n = Some ci /\ id = GetContentID ci
                          /\ GetDeleted ci = true)
  end.
Proof.
  destruct (findInUseContentIDs rep) as [used|e] eqn:Hused.
  2: { unfold snapshotgc.Run, snapshotgc.runInternal. rewrite Hused. simpl.
       by split_and!. }
  pose proof (Run_shape rep gcDelete safety used Hused) as Hshape.
  pose proof (iterateContents_effect Prefix ContentPrefix rep gcDelete safety used
                (contents rep) (startSweep rep))
    as (_ & _ & _ & (new & Hcalls & Hnew) & _ & _).
  simpl in Hshape, Hcalls, Hnew.
  destruct (Run rep gcDelete safety) as [[st stats] err].
  destruct Hshape as (_ & _ & _ & Hend).
  rewrite Forall_forall in Hnew.
  assert (Hin : forall c, c ∈ calls st -> (exists n, c = CallFlush n) \/ c ∈ new).
  { intros c Hc.
    destruct Hend as [(Heq & _)|(Heq & _)]; rewrite Heq, Hcalls in Hc; simpl in Hc.
    - by right.
    - apply elem_of_app in Hc as [Hc|Hc]; [by right|].
      apply list_elem_of_singleton in Hc. left. eauto. }
  split.
  - intros n id Hc. apply Hin in Hc as [[k [=]]|Hc].
    apply Hnew in Hc. destruct Hc as (i & ci & Hi & -> & -> & Hun & Hgc).
    unfold SweepSpec.unusedAt, snapshotgc.isSystem, isUsed in Hun.
    rewrite !andb_true_iff, !negb_true_iff in Hun.
    destruct Hun as [[Hsys Hu] _].
    apply bool_decide_eq_false in Hu. apply String.eqb_neq in Hsys.
    split_and!; [done|done|congruence|eauto].
  - intros n id Hc. apply Hin in Hc as [[k [=]]|Hc].
    apply Hnew in Hc. destruct Hc as (i & ci & Hi & -> & -> & Hun).
    unfold SweepSpec.undeletedAt, snapshotgc.isSystem, isUsed in Hun.
    rewrite !andb_true_iff, !negb_true_iff in Hun.
    destruct Hun as [[Hsys Hu] Hdel].
    apply bool_decide_eq_true in Hu. apply String.eqb_neq in Hsys.
    split_and!; [done|congruence|eauto].
Qed.

(** X6.  A dry run ([gcDelete] false) never asks for a deletion; and when
    it has counted an unused content it fails and has not flushed. *)
Theorem gc_dry_run (rep : Repository) (safety : SafetyParameters) :
  let '(st, stats, err) := Run rep false safety in
  (forall n id, CallDeleteContent n id ∉ calls st)
  /\ (0 < UnusedCount stats ->
      isOk err = false /\ forall n, CallFlush n ∉ calls st).
Proof.
  destruct (findInUseContentIDs rep) as [used|e] eqn:Hused.
  2: { unfold snapshotgc.Run, snapshotgc.runInternal. rewrite Hused. simpl.
       split; [intros n id H; by apply elem_of_nil in H|]. lia. }
  pose proof (Run_shape rep false safety used Hused) as Hshape.
  pose proof (iterateContents_dry Prefix ContentPrefix rep safety used
                (contents rep) (startSweep rep) (List.Forall_nil _)) as Hdry.
  simpl in Hshape. rewrite Forall_forall in Hdry.
  destruct (Run rep false safety) as [[st stats] err].
  destruct Hshape as (_ & _ & _ & Hend).
  split.
  - intros n id Hc.
    destruct Hend as [(Heq & _)|(Heq & _)]; rewrite Heq in Hc.
    + apply Hdry in Hc as (? & ? & [=]).
    + apply elem_of_app in Hc as [Hc|Hc]; [apply Hdry in Hc as (? & ? & [=])|].
      by apply list_elem_of_singleton in Hc.
  - intros Hpos. destruct Hend as [(Heq & Herr & _)|(_ & _ & Hgc)].
    + split; [done|]. intros n Hc. rewrite Heq in Hc.
      apply Hdry in Hc as (? & ? & [=]).
    + by specialize (Hgc Hpos).
Qed.

(** X7.  When the run ends without an error, every content has been put
    into exactly one of the four buckets: the counts of unused, in-use,
    system and too-recent contents add up to the number of contents, and
    the bytes to their packed lengths; the unused bucket holds the
    unreferenced contents without the manifest prefix that have reached the
    minimum age, the system bucket the contents with the manifest prefix;
    and the undeleted contents are among those in use. *)
Theorem gc_buckets_partition
    (rep : Repository) (gcDelete : bool) (safety : SafetyParameters)
    (st : sweepState) (stats : Stats) (used : gset ID) :
  Run rep gcDelete safety = (st, stats, Ok tt) ->
  findInUseContentIDs rep = Ok used ->
  UnusedCount stats + InUseCount stats + SystemCount stats + TooRecentCount stats
  = Z.of_nat (length (contents rep))
  /\ UnusedBytes stats + InUseBytes stats + SystemBytes stats + TooRecentBytes stats
     = sumPacked (contents rep)
  /\ UnusedCount stats
     = Z.of_nat (length (unusedContents rep safety used (contents rep)))
  /\ UnusedBytes stats = sumPacked (unusedContents rep safety used (contents rep))
  /\ SystemCount stats = Z.of_nat (length (systemContents (contents rep)))
  /\ SystemBytes stats = sumPacked (systemContents (contents rep))
  /\ UndeletedCount stats <= InUseCount stats.
Proof.
  intros Hrun Hused.
  pose proof (Run_shape rep gcDelete safety used Hused) as Hshape.
  pose proof (iterateContents_undeleted_le Prefix ContentPrefix rep gcDelete safety
                used (contents rep) (startSweep rep)) as Hle.
  simpl in Hshape. rewrite Hrun in Hshape.
  destruct (snapshotgc.iterateContents Prefix ContentPrefix rep gcDelete safety
              used (startSweep rep) (contents rep)) as [st0 r] eqn:Hit.
  simpl in *.
  destruct Hshape as (-> & _ & _ & Hend).
  assert (Hr : r = Ok tt).
  { destruct Hend as [(_ & [=] & _)|(_ & Hok & _)]. by destruct r as [[]|]. }
  subst r.
  destruct (iterateContents_buckets Prefix ContentPrefix rep gcDelete safety used
              (contents rep) (startSweep rep) st0 Hit)
    as ([Hu1 Hu2] & [Hs1 Hs2] & Hc & Hs & _).
  simpl in *. unfold SweepSpec.unusedContents, SweepSpec.systemContents.
  split_and!; lia.
Qed.

(** X8.  A deleting run that ends without an error has passed every
    unreferenced content without the manifest prefix that has reached the
    minimum age to [DeleteContent]. *)
Theorem gc_deletes_all_garbage
    (rep : Repository) (safety : SafetyParameters)
    (st : sweepState) (stats : Stats) (used : gset ID) :
  Run rep true safety = (st, stats, Ok tt) ->
  findInUseContentIDs rep = Ok used ->
  forall n ci,
    contents rep !! n = Some ci ->
    GetContentID ci ∉ used ->
    Prefix (GetContentID ci) <> ContentPrefix ->
    MinContentAgeSubjectToGC safety <= age rep n ci ->
    CallDeleteContent n (GetContentID ci) ∈ calls st.
Proof.
  intros Hrun Hused n ci Hn Hnot Hsys Hage.
  pose proof (Run_shape rep true safety used Hused) as Hshape.
  simpl in Hshape. rewrite Hrun in Hshape.
  destruct (snapshotgc.iterateContents Prefix ContentPrefix rep true safety
              used (startSweep rep) (contents rep)) as [st0 r] eqn:Hit.
  simpl in *.
  destruct Hshape as (_ & _ & _ & Hend).
  destruct Hend as [(_ & [=] & _)|(Hcalls & Hok & _)].
  destruct r as [[]|]; [|done].
  destruct (iterateContents_buckets Prefix ContentPrefix rep true safety used
              (contents rep) (startSweep rep) st0 Hit) as (_ & _ & _ & _ & Hdel).
  rewrite Hcalls. apply elem_of_app. left.
  apply (Hdel n ci Hn); [|done].
  unfold SweepSpec.unusedAt, snapshotgc.isSystem, isUsed. simpl.
  rewrite !andb_true_iff, !negb_true_iff. split_and!.
  - apply String.eqb_neq. congruence.
  - by apply bool_decide_eq_false.
  - by apply Z.ltb_ge.
Qed.

End run.

End SweepSafety.

Module SweepSafetyExamples.
Import index snapshotgc SweepSpec SweepSamples SweepProps SweepSafety.

(** X7, witness: one content of each kind. *)
Lemma gc_buckets_partition_witness :
  (Run samplePrefix "m" repoWithGarbage true (mkSafety oneHour)).2 = Ok tt
  /\ (let stats := (Run samplePrefix "m" repoWithGarbage true (mkSafety oneHour)).1.2 in
      UnusedCount stats + InUseCount stats + SystemCount stats + TooRecentCount stats
      = 4
      /\ UnusedBytes stats + InUseBytes stats + SystemBytes stats + TooRecentBytes stats
         = 250).
Proof.
  destruct (Run samplePrefix "m" repoWithGarbage true (mkSafety oneHour))
    as [[st stats] err] eqn:Hrun.
  assert (Herr : err = Ok tt).
  { apply (f_equal snd) in Hrun. vm_compute in Hrun. by symmetry. }
  subst err. simpl. split; [done|].
  assert (Hused : findInUseContentIDs repoWithGarbage = Ok {["aabbcc"%string]}).
  { unfold findInUseContentIDs. simpl. f_equal; set_solver. }
  destruct (gc_buckets_partition samplePrefix "m" repoWithGarbage true
              (mkSafety oneHour) st stats {["aabbcc"%string]} Hrun Hused)
    as (Hcount & Hbytes & _).
  split; [exact Hcount|exact Hbytes].
Defined.

(** X8, witness: the old unreferenced content is deleted. *)
Lemma gc_deletes_all_garbage_witness :
  (Run samplePrefix "m" repoWithGarbage true (mkSafety oneHour)).2 = Ok tt
  /\ CallDeleteContent 1 "ddeeff"
       ∈ calls (Run samplePrefix "m" repoWithGarbage true (mkSafety oneHour)).1.1.
Proof.
  destruct (Run samplePrefix "m" repoWithGarbage true (mkSafety oneHour))
    as [[st stats] err] eqn:Hrun.
  assert (Herr : err = Ok tt).
  { apply (f_equal snd) in Hrun. vm_compute in Hrun. by symmetry. }
  subst err. simpl. split; [done|].
  assert (Hused : findInUseContentIDs repoWithGarbage = Ok {["aabbcc"%string]}).
  { unfold findInUseContentIDs. simpl. f_equal; set_solver. }
  apply (gc_deletes_all_garbage samplePrefix "m" repoWithGarbage
           (mkSafety oneHour) st stats {["aabbcc"%string]} Hrun Hused 1%nat
           (InfoStruct "ddeeff" 1000 "p1" 100 false 60 70 1 0 0)).
  - done.
  - set_solver.
  - done.
  - vm_compute. discriminate.
Defined.

End SweepSafetyExamples.

(** ** The committed content index: which index blobs are in use *)

Module CommittedInUse.
Import index content CommittedSamples.

Section committed.
Variable builderBuild : list Info -> result (list Z).
Variable indexOpen : list Z -> result Index.

Abbreviation merge := (merge builderBuild indexOpen).
Abbreviation use := (use builderBuild indexOpen).

Lemma openAll_dom (cache : committedContentIndexCache) (indexFiles : list blobID) :
  forall m used m' used',
  openAll cache indexFiles m used = Ok (m', used') ->
  dom used' = dom used ∪ list_to_set indexFiles
  /\ length m' = (length m + length indexFiles)%nat.
Proof.
  induction indexFiles as [|e rest IH]; intros m used m' used'; simpl.
  - intros [= <- <-]. split; [set_solver|lia].
  - destruct (openIndex cache e) as [ndx|err]; simpl; [|by destruct err].
    intros H. apply IH in H as [Hd Hl].
    rewrite Hd, dom_insert_L, length_app in *. simpl in Hl.
    split; [set_solver|lia].
Qed.

Lemma merge_dom (c : committedContentIndex) (indexFiles : list blobID) m used :
  merge c indexFiles = Ok (m, used) ->
  dom used = list_to_set indexFiles.
Proof.
  unfold content.merge.
  destruct (openAll (cache c) indexFiles [] ∅) as [[m0 used0]|err] eqn:Hopen;
    simpl; [|done].
  destruct (Wrap (combineSmallIndexes builderBuild indexOpen m0) _); simpl; [|done].
  intros [= <- <-]. apply openAll_dom in Hopen as [Hd _].
  rewrite Hd, dom_empty_L. set_solver.
Qed.

Lemma size_list_to_set_NoDup (l : list blobID) :
  NoDup l -> size (list_to_set l : gset blobID) = length l.
Proof.
  induction 1 as [|x l Hx Hl IH]; simpl; [done|].
  rewrite size_union, size_singleton, IH; [done|]. set_solver.
Qed.

Lemma indexFilesChanged_dom (c : committedContentIndex) (indexFiles : list blobID) :
  NoDup indexFiles ->
  indexFilesChanged c indexFiles = false
  <-> dom (inUse c) = list_to_set indexFiles.
Proof.
  intros Hnd. unfold indexFilesChanged, len.
  rewrite <- size_dom.
  destruct (Z.eqb_spec (Z.of_nat (length indexFiles)) (Z.of_nat (size (dom (inUse c)))))
    as [Hlen|Hlen]; simpl.
  - apply Nat2Z.inj in Hlen.
    assert (Hex : existsb (fun ndx => bool_decide (inUse c !! ndx = None)) indexFiles
                  = false
                  <-> (list_to_set indexFiles : gset blobID) ⊆ dom (inUse c)).
    { rewrite <- not_true_iff_false, existsb_exists. split.
      - intros Hno x Hx. apply elem_of_list_to_set in Hx.
        destruct (inUse c !! x) eqn:Hl; [by apply elem_of_dom_2 in Hl|].
        exfalso. apply Hno. exists x. split; [by apply list_elem_of_In|].
        by apply bool_decide_eq_true.
      - intros Hsub (x & Hx & Hnone). apply bool_decide_eq_true in Hnone.
        apply list_elem_of_In in Hx.
        assert (x ∈ dom (inUse c)) by (apply Hsub; by apply elem_of_list_to_set).
        by apply not_elem_of_dom in Hnone. }
    rewrite Hex. split.
    + intros Hsub. symmetry. apply set_subseteq_size_eq; [done|].
      rewrite size_list_to_set_NoDup by done. lia.
    + intros ->. done.
  - split; [done|]. intros Heq. exfalso. apply Hlen.
    rewrite Heq, size_list_to_set_NoDup by done. done.
Qed.

(** X9.  For a list of index files without a repetition,
    [indexFilesChanged] says no exactly when the blobs in use are the files
    of the list. *)
Theorem indexFilesChanged_spec (c : committedContentIndex) (indexFiles : list blobID) :
  NoDup indexFiles ->
  indexFilesChanged c indexFiles = false
  <-> dom (inUse c) = list_to_set indexFiles.
Proof.
  intros Hnd. split; intros H.
  - by apply indexFilesChanged_dom.
  - by apply indexFilesChanged_dom.
Qed.

(** X10.  After a successful [use] of a list of index files without a
    repetition, the blobs in use are the files of the list, and using the
    same list again changes nothing but the watermark: nothing is opened or
    merged again and the revision stays. *)
Theorem use_twice (c c' : committedContentIndex) (indexFiles : list blobID)
    (t t' : Time) :
  NoDup indexFiles ->
  use c indexFiles t = (c', Ok tt) ->
  dom (inUse c') = list_to_set indexFiles
  /\ use c' indexFiles t' = (setWatermark c' t', Ok tt).
Proof.
  intros Hnd Huse.
  assert (Hdom : dom (inUse c') = list_to_set indexFiles).
  { unfold content.use in Huse.
    destruct (indexFilesChanged (setWatermark c t) indexFiles) eqn:Hch; simpl in Huse.
    - destruct (merge (setWatermark c t) indexFiles) as [[m used]|err] eqn:Hm;
        [|done].
      injection Huse as <-. simpl. by eapply merge_dom.
    - injection Huse as <-. by apply indexFilesChanged_dom in Hch. }
  split; [done|].
  unfold content.use.
  assert (Hsame : indexFilesChanged (setWatermark c' t') indexFiles = false).
  { by apply indexFilesChanged_dom. }
  by rewrite Hsame.
Qed.

End committed.

Section addBlob.
Variable addContentToCache : blobID -> list Z -> result unit.

Abbreviation addIndexBlob := (addIndexBlob addContentToCache).

(** X11.  [addIndexBlob] bumps the revision by one on every path, also
    when it fails, and leaves the watermark alone; it opens and appends an
    index only for a blob that is not in use yet, so that once a blob is in
    use, adding it again changes nothing but the revision. *)
Theorem addIndexBlob_rev_and_once (c : committedContentIndex) (indexBlobID : blobID)
    (data : list Z) (use : bool) :
  let c' := (addIndexBlob c indexBlobID data use).1 in
  rev c' = add64 (rev c) 1
  /\ deletionWatermark c' = deletionWatermark c
  /\ (merged c' = merged c /\ inUse c' = inUse c
      \/ exists ndx, use = true /\ inUse c !! indexBlobID = None
                     /\ openIndex (cache c) indexBlobID = Ok ndx
                     /\ merged c' = merged c ++ [ndx]
                     /\ inUse c' = <[indexBlobID := ndx]> (inUse c))
  /\ (is_Some (inUse c !! indexBlobID) -> merged c' = merged c /\ inUse c' = inUse c)
  /\ (use = true -> isOk (addIndexBlob c indexBlobID data use).2 = true ->
      is_Some (inUse c' !! indexBlobID)).
Proof.
  simpl. unfold content.addIndexBlob.
  destruct (addContentToCache indexBlobID data) as [[]|e]; simpl.
  2: { destruct e; simpl; split_and!; try done; eauto. }
  destruct use; simpl.
  - destruct (inUse c !! indexBlobID) as [ndx0|] eqn:Hin; simpl.
    + split_and!; try done; eauto.
    + destruct (openIndex (cache c) indexBlobID) as [ndx|e]; simpl.
      * split_and!; try done.
        -- right. exists ndx. done.
        -- intros _ _. rewrite lookup_insert_eq. eauto.
      * destruct e; simpl; split_and!; try done; eauto.
  - split_and!; try done; eauto.
Qed.

End addBlob.

End CommittedInUse.

Module CommittedInUseExamples.
Import index content CommittedSamples CommittedInUse.

(** X9, witness. *)
Lemma indexFilesChanged_spec_witness :
  NoDup ["n2"; "n1"]%string
  /\ (indexFilesChanged committedTwo ["n2"; "n1"]%string = false
      <-> dom (inUse committedTwo) = list_to_set ["n2"; "n1"]%string).
Proof.
  assert (Hnd : NoDup ["n2"; "n1"]%string).
  { apply (bool_decide_unpack _). vm_compute. exact I. }
  split; [exact Hnd|].
  apply (indexFilesChanged_spec committedTwo ["n2"; "n1"]%string Hnd).
Defined.

(** X10, witness: a fresh index that comes to use two blobs. *)
Lemma use_twice_witness :
  NoDup ["n1"; "n2"]%string
  /\ (use buildEmpty openEmpty freshCommitted ["n1"; "n2"]%string 50).2 = Ok tt
  /\ (let c' := (use buildEmpty openEmpty freshCommitted ["n1"; "n2"]%string 50).1 in
      rev c' = 1
      /\ use buildEmpty openEmpty c' ["n1"; "n2"]%string 60
         = (setWatermark c' 60, Ok tt)).
Proof.
  assert (Hnd : NoDup ["n1"; "n2"]%string).
  { apply (bool_decide_unpack _). vm_compute. exact I. }
  split; [exact Hnd|].
  destruct (use buildEmpty openEmpty freshCommitted ["n1"; "n2"]%string 50)
    as [c' r] eqn:Huse.
  assert (Hr : r = Ok tt).
  { apply (f_equal snd) in Huse. vm_compute in Huse. by symmetry. }
  subst r. simpl. split; [done|]. split.
  - apply (f_equal (fun x => rev x.1)) in Huse. vm_compute in Huse. by symmetry.
  - apply (use_twice buildEmpty openEmpty freshCommitted c' ["n1"; "n2"]%string
             50 60 Hnd Huse).
Defined.

End CommittedInUseExamples.

(** ** Bytes: big-endian integers *)

Module ByteProps.

Lemma testbit_small (lo k n : Z) :
  0 <= lo < 2 ^ k -> k <= n -> Z.testbit lo n = false.
Proof.
  intros Hlo Hn.
  assert (0 <= k).
  { destruct (Z.lt_ge_cases k 0); [|done]. rewrite Z.pow_neg_r in Hlo; lia. }
  destruct (Z.eq_dec lo 0) as [->|Hne]; [apply Z.bits_0|].
  apply Z.bits_above_log2; [lia|].
  eapply Z.lt_le_trans; [|exact Hn].
  apply Z.log2_lt_pow2; lia.
Qed.

Lemma land_shiftl_small (hi lo k : Z) :
  0 <= lo < 2 ^ k -> Z.land (hi ≪ k) lo = 0.
Proof.
  intros Hlo. apply Z.bits_inj'. intros n Hn.
  rewrite Z.land_spec, Z.bits_0.
  destruct (Z.lt_ge_cases n k).
  - by rewrite Z.shiftl_spec_low by lia.
  - rewrite (testbit_small lo k n) by done. apply andb_false_r.
Qed.

(** Bits that do not overlap add up. *)
Lemma lor_add (a b k : Z) :
  0 <= k -> a mod 2 ^ k = 0 -> 0 <= b < 2 ^ k -> Z.lor a b = a + b.
Proof.
  intros Hk Ha Hb.
  assert (Hshift : a = (a / 2 ^ k) ≪ k).
  { rewrite Z.shiftl_mul_pow2 by done.
    assert (0 < 2 ^ k) by (apply Z.pow_pos_nonneg; lia).
    pose proof (Z.div_mod a (2 ^ k) ltac:(lia)). lia. }
  rewrite Hshift at 1 2.
  rewrite Z.add_nocarry_lxor by (by apply land_shiftl_small).
  symmetry. apply Z.lxor_lor. by apply land_shiftl_small.
Qed.

Lemma lor_add' (a b k : Z) :
  0 <= k -> a mod 2 ^ k = 0 -> 0 <= b < 2 ^ k -> Z.lor b a = a + b.
Proof. intros. rewrite Z.lor_comm. by apply (lor_add a b k). Qed.

Lemma wrapU8_range (x : Z) : 0 <= wrapU8 x < 256.
Proof. unfold wrapU8. change (2 ^ 8) with 256. Z.to_euclidean_division_equations. lia. Qed.

(** Indexes that are numerals, computed. *)
Ltac norm_idx :=
  repeat match goal with
         | |- context [Z.to_nat ?n] =>
             is_ground n;
             let m := eval vm_compute in (Z.to_nat n) in
             change (Z.to_nat n) with m
         end.

(** The bytes of a big-endian integer, read back. *)
Ltac bytes_to_arith :=
  unfold wrapU8, wrapU16, wrapU32;
  rewrite ?Z.shiftr_div_pow2, ?Z.shiftl_mul_pow2 by lia;
  change (2 ^ 8) with 256; change (2 ^ 16) with 65536;
  change (2 ^ 24) with 16777216; change (2 ^ 32) with 4294967296.

Ltac solve_div := change (2 ^ 8) with 256 in *; change (2 ^ 16) with 65536 in *;
  change (2 ^ 24) with 16777216 in *; change (2 ^ 32) with 4294967296 in *;
  Z.to_euclidean_division_equations; lia.

Lemma bigEndian32 (b0 b1 b2 b3 : Z) :
  0 <= b1 < 256 -> 0 <= b2 < 256 -> 0 <= b3 < 256 ->
  Z.lor (Z.lor (Z.lor (b0 ≪ 24) (b1 ≪ 16)) (b2 ≪ 8)) b3
  = b0 * 16777216 + b1 * 65536 + b2 * 256 + b3.
Proof.
  intros H1 H2 H3. rewrite !Z.shiftl_mul_pow2 by lia.
  rewrite (lor_add (b0 * 2 ^ 24) (b1 * 2 ^ 16) 24) by solve_div.
  rewrite (lor_add _ (b2 * 2 ^ 8) 16) by solve_div.
  rewrite (lor_add _ b3 8) by solve_div.
  solve_div.
Qed.

Lemma bigEndian32' (b0 b1 b2 b3 : Z) :
  0 <= b1 < 256 -> 0 <= b2 < 256 -> 0 <= b3 < 256 ->
  Z.lor (Z.lor (Z.lor b3 (b2 ≪ 8)) (b1 ≪ 16)) (b0 ≪ 24)
  = b0 * 16777216 + b1 * 65536 + b2 * 256 + b3.
Proof.
  intros H1 H2 H3. rewrite !Z.shiftl_mul_pow2 by lia.
  rewrite (lor_add' (b2 * 2 ^ 8) b3 8) by solve_div.
  rewrite (lor_add' (b1 * 2 ^ 16) _ 16) by solve_div.
  rewrite (lor_add' (b0 * 2 ^ 24) _ 24) by solve_div.
  solve_div.
Qed.

Lemma bigEndian24 (b0 b1 b2 : Z) :
  0 <= b1 < 256 -> 0 <= b2 < 256 ->
  Z.lor (Z.lor (b0 ≪ 16) (b1 ≪ 8)) b2 = b0 * 65536 + b1 * 256 + b2.
Proof.
  intros H1 H2. rewrite !Z.shiftl_mul_pow2 by lia.
  rewrite (lor_add (b0 * 2 ^ 16) (b1 * 2 ^ 8) 16) by solve_div.
  rewrite (lor_add _ b2 8) by solve_div.
  solve_div.
Qed.

Lemma bigEndian16 (b0 b1 : Z) :
  0 <= b1 < 256 -> Z.lor (b0 ≪ 8) b1 = b0 * 256 + b1.
Proof.
  intros H1. rewrite !Z.shiftl_mul_pow2 by lia.
  rewrite (lor_add (b0 * 2 ^ 8) b1 8) by solve_div.
  solve_div.
Qed.

Lemma bigEndian16' (b0 b1 : Z) :
  0 <= b1 < 256 -> Z.lor b1 (b0 ≪ 8) = b0 * 256 + b1.
Proof. intros. rewrite Z.lor_comm. by apply bigEndian16. Qed.

(** What was written with [PutUint32], [encodeBigEndianUint24] and
    [PutUint16] is read back, up to the width. *)
Lemma decodeBigEndianUint32_PutUint32 (v : Z) (rest : list Z) :
  indexV2.decodeBigEndianUint32 (PutUint32 v ++ rest) = v mod 2 ^ 32.
Proof.
  unfold indexV2.decodeBigEndianUint32, PutUint32, byteAt. norm_idx. cbn [app nth].
  rewrite bigEndian32 by apply wrapU8_range.
  bytes_to_arith. solve_div.
Qed.

Lemma Uint32_PutUint32 (v : Z) (rest : list Z) :
  Uint32 (PutUint32 v ++ rest) = v mod 2 ^ 32.
Proof.
  unfold Uint32, PutUint32, byteAt. norm_idx. cbn [app nth].
  rewrite bigEndian32' by apply wrapU8_range.
  bytes_to_arith. solve_div.
Qed.

Lemma decodeBigEndianUint24_encode (v : Z) (rest : list Z) :
  indexV2.decodeBigEndianUint24 (encodeBigEndianUint24 v ++ rest) = v mod 2 ^ 24.
Proof.
  unfold indexV2.decodeBigEndianUint24, encodeBigEndianUint24, byteAt.
  norm_idx. cbn [app nth].
  rewrite bigEndian24 by apply wrapU8_range.
  bytes_to_arith. solve_div.
Qed.

Lemma decodeBigEndianUint16_PutUint16 (v : Z) (rest : list Z) :
  indexV2.decodeBigEndianUint16 (PutUint16 v ++ rest) = v mod 2 ^ 16.
Proof.
  unfold indexV2.decodeBigEndianUint16, PutUint16, byteAt. norm_idx. cbn [app nth].
  rewrite bigEndian16 by apply wrapU8_range.
  bytes_to_arith. solve_div.
Qed.

Lemma Uint16_PutUint16 (v : Z) (rest : list Z) :
  Uint16 (PutUint16 v ++ rest) = v mod 2 ^ 16.
Proof.
  unfold Uint16, PutUint16, byteAt. norm_idx. cbn [app nth].
  rewrite bigEndian16' by apply wrapU8_range.
  bytes_to_arith. solve_div.
Qed.

End ByteProps.

(** ** Pack index v2: what is built is what is read *)

Module IndexMaps.
Import index IndexV2Spec IndexBuilderV2.

Lemma numbering_empty {K} `{Countable K} : numbering (∅ : gmap K Z).
Proof. split; intros *; by rewrite lookup_empty. Qed.

Lemma numbering_insert {K} `{Countable K} (m : gmap K Z) (k : K) :
  numbering m -> m !! k = None ->
  numbering (<[k := Z.of_nat (size m)]> m).
Proof.
  intros [Hrange Hinj] Hk. split.
  - intros k' v. rewrite map_size_insert_None by done.
    destruct (decide (k = k')) as [->|Hne].
    + rewrite lookup_insert_eq. intros [= <-]. lia.
    + rewrite lookup_insert_ne by done. intros Hv. apply Hrange in Hv. lia.
  - intros k1 k2 v.
    destruct (decide (k = k1)) as [Heq1|Hne1], (decide (k = k2)) as [Heq2|Hne2];
      subst; rewrite ?lookup_insert_eq, ?lookup_insert_ne by done; try done.
    + intros [= <-] Hv. apply Hrange in Hv. lia.
    + intros Hv [= <-]. apply Hrange in Hv. lia.
    + apply Hinj.
Qed.

(** [buildPackIDToIndexMap] numbers the pack blob IDs. *)
Lemma buildPackIDToIndexMap_numbering (infos : list Info) :
  numbering (buildPackIDToIndexMap infos).
Proof.
  unfold buildPackIDToIndexMap.
  assert (H : forall m : gmap blobID Z, numbering m ->
    numbering (foldl (fun result v =>
                        let blobID := GetPackBlobID v in
                        match result !! blobID with
                        | Some _ => result
                        | None => <[blobID := Z.of_nat (size result)]> result
                        end) m infos)).
  { induction infos as [|v infos IH]; intros m Hm; simpl; [done|].
    apply IH. destruct (m !! GetPackBlobID v) eqn:Hv; [done|].
    by apply numbering_insert. }
  apply H, numbering_empty.
Qed.

(** [buildUniqueFormatToIndexMap] numbers the formats, as long as there
    are at most 256 of them (the numbers are bytes). *)
Lemma buildUniqueFormatToIndexMap_numbering (infos : list Info) :
  (size (buildUniqueFormatToIndexMap infos) <= 256)%nat ->
  numbering (buildUniqueFormatToIndexMap infos).
Proof.
  unfold buildUniqueFormatToIndexMap.
  assert (H : forall m : gmap indexV2FormatInfo Z,
    let m' := foldl (fun result v =>
                       let key := indexV2FormatInfoFromInfo v in
                       match result !! key with
                       | Some _ => result
                       | None => <[key := wrapU8 (Z.of_nat (size result))]> result
                       end) m infos in
    (size m <= size m')%nat
    /\ ((size m' <= 256)%nat -> numbering m -> numbering m')).
  { induction infos as [|v infos IH]; intros m; simpl; [done|].
    destruct (m !! indexV2FormatInfoFromInfo v) eqn:Hv; [apply IH|].
    specialize (IH (<[indexV2FormatInfoFromInfo v := wrapU8 (Z.of_nat (size m))]> m)).
    simpl in IH. destruct IH as [Hle Hnum].
    rewrite map_size_insert_None in Hle by done.
    split; [lia|]. intros Hsize Hm. apply Hnum; [done|].
    replace (wrapU8 (Z.of_nat (size m))) with (Z.of_nat (size m)).
    - by apply numbering_insert.
    - unfold wrapU8. rewrite Z.mod_small; [done|]. change (2 ^ 8) with 256. lia. }
  intros Hsize. apply H; [done|apply numbering_empty].
Qed.

(** The slice [buildV2] fills with [reverse[v] = k] holds, at each number,
    the key that has it. *)
Lemma reverseIndex_lookup {K} `{Countable K} (zero : K) (m : gmap K Z) (k : K) (v : Z) :
  numbering m -> m !! k = Some v ->
  reverseIndex zero m !! Z.to_nat v = Some k.
Proof.
  intros [Hrange Hinj] Hk. unfold reverseIndex.
  pose proof (Hrange k v Hk) as Hv.
  assert (Hin : (k, v) ∈ map_to_list m) by (by apply elem_of_map_to_list).
  assert (Hall : forall k' v', (k', v') ∈ map_to_list m ->
                   0 <= v' < Z.of_nat (size m)
                   /\ (v' = v -> k' = k)).
  { intros k' v' Hin'. apply elem_of_map_to_list in Hin'. split; [eauto|].
    intros ->. eauto. }
  revert Hin Hall. generalize (map_to_list m). intros l.
  induction l as [|[k' v'] l IH]; intros Hin Hall; [by apply elem_of_nil in Hin|].
  simpl.
  assert (Hlen : forall l', length (foldr (fun '(k, v) acc => <[Z.to_nat v := k]> acc)
                                      (replicate (size m) zero) l') = size m).
  { induction l' as [|[? ?] l' IHl]; simpl.
    - apply length_replicate.
    - by rewrite length_insert. }
  destruct (Hall k' v' ltac:(left)) as [Hv' Hsame].
  destruct (decide (v' = v)) as [->|Hne].
  - rewrite (Hsame eq_refl). apply list_lookup_insert_eq. rewrite Hlen. lia.
  - rewrite list_lookup_insert_ne by lia.
    apply elem_of_cons in Hin as [[= -> ->]|Hin]; [done|].
    apply IH; [done|]. intros k'' v'' Hin''. apply Hall. by right.
Qed.

Lemma reverseIndex_length {K} `{Countable K} (zero : K) (m : gmap K Z) :
  length (reverseIndex zero m) = size m.
Proof.
  unfold reverseIndex. induction (map_to_list m) as [|[? ?] l IH]; simpl.
  - apply length_replicate.
  - by rewrite length_insert.
Qed.

End IndexMaps.

Module EntryCodec.
Import index IndexV2Spec IndexBuilderV2 ByteProps.

Lemma decodeBigEndianUint32_bytes (v : Z) (rest : list Z) :
  indexV2.decodeBigEndianUint32
    (wrapU8 (v ≫ 24) :: wrapU8 (v ≫ 16) :: wrapU8 (v ≫ 8) :: wrapU8 v :: rest)
  = v mod 2 ^ 32.
Proof. apply (decodeBigEndianUint32_PutUint32 v rest). Qed.

Lemma decodeBigEndianUint24_bytes (v : Z) (rest : list Z) :
  indexV2.decodeBigEndianUint24
    (wrapU8 (v ≫ 16) :: wrapU8 (v ≫ 8) :: wrapU8 v :: rest)
  = v mod 2 ^ 24.
Proof. apply (decodeBigEndianUint24_encode v rest). Qed.

Lemma decodeBigEndianUint16_bytes (v : Z) (rest : list Z) :
  indexV2.decodeBigEndianUint16 (wrapU8 (v ≫ 8) :: wrapU8 v :: rest)
  = v mod 2 ^ 16.
Proof. apply (decodeBigEndianUint16_PutUint16 v rest). Qed.

(** The flag byte of the pack offset: [0x80] is set exactly for a deleted
    entry. *)
Lemma deleted_flag (off : Z) (deleted : bool) :
  0 <= off < 2 ^ 30 ->
  let v := if deleted then Z.lor off v2DeletedMarker else off in
  0 <= v < 2 ^ 32
  /\ v mod 2 ^ 31 = off
  /\ negb (Z.land (wrapU8 (v ≫ 24)) indexV2.v2EntryDeletedFlag =? 0) = deleted.
Proof.
  intros Hoff. cbv zeta.
  assert (Hv : (if deleted then Z.lor off v2DeletedMarker else off)
               = off + (if deleted then 2 ^ 31 else 0)).
  { destruct deleted; [|lia].
    change v2DeletedMarker with (2 ^ 31).
    rewrite (lor_add' (2 ^ 31) off 31); [lia|lia|done|].
    split; [lia|]. eapply Z.lt_trans; [apply Hoff|]. done. }
  rewrite Hv. clear Hv.
  assert (Hbyte : wrapU8 ((off + (if deleted then 2 ^ 31 else 0)) ≫ 24)
                  = off / 2 ^ 24 + (if deleted then 128 else 0)).
  { unfold wrapU8. rewrite Z.shiftr_div_pow2 by lia.
    change (2 ^ 30) with 1073741824 in Hoff.
    destruct deleted; change (2 ^ 31) with 2147483648; solve_div. }
  rewrite Hbyte.
  change indexV2.v2EntryDeletedFlag with (1 ≪ 7).
  change (2 ^ 30) with 1073741824 in Hoff.
  split; [|split].
  - destruct deleted; change (2 ^ 31) with 2147483648; solve_div.
  - destruct deleted; change (2 ^ 31) with 2147483648; solve_div.
  - assert (Hsmall : 0 <= off / 2 ^ 24 < 2 ^ 7).
    { change (2 ^ 7) with 128. solve_div. }
    destruct deleted.
    + replace (off / 2 ^ 24 + 128) with (1 * 2 ^ 7 + off / 2 ^ 24)
        by (change (2 ^ 7) with 128; lia).
      rewrite <- (Z.shiftl_mul_pow2 1 7) by lia.
      rewrite <- (lor_add (1 ≪ 7) (off / 2 ^ 24) 7); [|lia|done|done].
      rewrite Z.land_lor_distr_l, Z.land_diag.
      rewrite (Z.land_comm (off / 2 ^ 24)), land_shiftl_small by done.
      done.
    + rewrite Z.add_0_r, Z.land_comm, land_shiftl_small by done. done.
Qed.

(** The byte of the high length bits. *)
Lemma high_length_bits (p o : Z) :
  0 <= p < 2 ^ 28 -> 0 <= o < 2 ^ 28 ->
  let B := Z.lor (wrapU8 (p ≫ v2EntryHighLengthShift))
                 (wrapU8 ((o ≫ v2EntryHighLengthShift)
                            ≪ v2EntryHighLengthBitsOriginalLengthShift)) in
  (p < 2 ^ 24 -> o < 2 ^ 24 -> B = 0)
  /\ Z.lor (p mod 2 ^ 24)
           (wrapU32 (Z.land B indexV2.v2EntryHghLengthBitsPackedLengthMask
                     ≪ v2EntryHighLengthShift)) = p
  /\ Z.lor (o mod 2 ^ 24)
           (wrapU32 ((B ≫ v2EntryHighLengthBitsOriginalLengthShift)
                     ≪ v2EntryHighLengthShift)) = o.
Proof.
  intros Hp Ho.
  change v2EntryHighLengthShift with 24.
  change v2EntryHighLengthBitsOriginalLengthShift with 4.
  change indexV2.v2EntryHghLengthBitsPackedLengthMask with (Z.ones 4).
  change (2 ^ 28) with 268435456 in *.
  assert (HB : Z.lor (wrapU8 (p ≫ 24)) (wrapU8 ((o ≫ 24) ≪ 4))
               = o / 2 ^ 24 * 16 + p / 2 ^ 24).
  { unfold wrapU8. rewrite !Z.shiftr_div_pow2, Z.shiftl_mul_pow2 by lia.
    change (2 ^ 4) with 16.
    rewrite (Z.mod_small (p / 2 ^ 24)) by solve_div.
    rewrite (Z.mod_small (o / 2 ^ 24 * 16)) by solve_div.
    apply (lor_add' _ _ 4); [lia| |]; change (2 ^ 4) with 16; solve_div. }
  cbv zeta. rewrite HB. clear HB.
  split_and!.
  - intros. solve_div.
  - rewrite Z.land_ones, Z.shiftl_mul_pow2 by lia. unfold wrapU32.
    change (2 ^ 4) with 16.
    rewrite (Z.mod_small (_ * 2 ^ 24)) by solve_div.
    rewrite (lor_add' _ _ 24); [|lia| |]; solve_div.
  - rewrite Z.shiftr_div_pow2, Z.shiftl_mul_pow2 by lia. unfold wrapU32.
    change (2 ^ 4) with 16.
    rewrite (Z.mod_small (_ * 2 ^ 24)) by solve_div.
    rewrite (lor_add' _ _ 24); [|lia| |]; solve_div.
Qed.

(** The pack index, split over two bytes and a third. *)
Lemma pack_index_bytes (pidx : Z) :
  0 <= pidx < 2 ^ 24 ->
  (pidx < 2 ^ 16 -> wrapU8 (pidx ≫ v2EntryExtendedPackBlobIDShift) = 0)
  /\ (pidx < 2 ^ 16 -> wrapU16 pidx mod 2 ^ 16 = pidx)
  /\ Z.lor (wrapU16 pidx mod 2 ^ 16)
           (wrapU32 (wrapU8 (pidx ≫ v2EntryExtendedPackBlobIDShift)
                     ≪ v2EntryExtendedPackBlobIDShift)) = pidx.
Proof.
  intros Hp. change v2EntryExtendedPackBlobIDShift with 16.
  unfold wrapU8, wrapU16, wrapU32.
  rewrite Z.shiftr_div_pow2, Z.shiftl_mul_pow2 by lia.
  split_and!.
  - intros. solve_div.
  - intros. solve_div.
  - rewrite (Z.mod_small (_ * 2 ^ 16)) by solve_div.
    rewrite (lor_add' _ _ 16); [|lia| |]; solve_div.
Qed.

End EntryCodec.

Module BuilderInv.
Import index IndexV2Spec IndexBuilderV2 IndexMaps ByteProps.

Section builder.
Variable contentIDToBytes : ID -> list Z.

(** What a builder that [newIndexBuilderV2] hands back knows about its
    input. *)
Lemma newIndexBuilderV2_inv (infos : list Info) (b : indexBuilderV2) :
  newIndexBuilderV2 contentIDToBytes infos = Ok b ->
  packBlobIDOffsets b = ∅
  /\ uniqueFormatInfo2Index b = buildUniqueFormatToIndexMap infos
  /\ packID2Index b = buildPackIDToIndexMap infos
  /\ baseTimestamp b = 0 /\ extraDataOffset b = 0
  /\ entryCount b = Z.of_nat (length infos)
  /\ keyLength b = match infos with
                   | [] => -1
                   | first :: _ => Z.of_nat (length (contentIDToBytes (GetContentID first)))
                   end
  /\ (size (uniqueFormatInfo2Index b) <= 255)%nat
  /\ Z.of_nat (size (packID2Index b)) <= 2 ^ 24
  /\ (forall it, it ∈ infos ->
        GetPackedLength it < 2 ^ 28 /\ GetOriginalLength it < 2 ^ 28
        /\ GetPackOffset it < 2 ^ 30)
  /\ 16 <= entrySize b <= 19
  /\ (entrySize b < 19 -> forall it, it ∈ infos ->
        GetPackedLength it < 2 ^ 24 /\ GetOriginalLength it < 2 ^ 24)
  /\ (entrySize b < 18 -> Z.of_nat (size (packID2Index b)) <= 2 ^ 16)
  /\ (entrySize b < 17 -> (size (uniqueFormatInfo2Index b) <= 1)%nat).
Proof.
  unfold newIndexBuilderV2.
  pose proof (maxContentLengths_reach infos (2 ^ 24) eq_refl) as H24.
  pose proof (maxContentLengths_reach infos (2 ^ 28) eq_refl) as H28.
  pose proof (maxContentLengths_reach infos (2 ^ 30) eq_refl) as H30.
  destruct (maxContentLengths infos) as [[p o] f].
  destruct H24 as (Hp24 & Ho24 & _), H28 as (Hp28 & Ho28 & _), H30 as (_ & _ & Hf30).
  change v2MaxFormatCount with 255.
  change v2MaxUniquePackIDCount with (2 ^ 24).
  change v2MaxShortPackIDCount with (2 ^ 16).
  change v2MaxContentLength with (2 ^ 28).
  change v2MaxShortContentLength with (2 ^ 24).
  change v2MaxPackOffset with (2 ^ 30).
  destruct (Z.ltb_spec 255 (Z.of_nat (size (buildUniqueFormatToIndexMap infos))))
    as [|Hfmt]; [done|].
  destruct (Z.ltb_spec (2 ^ 24) (Z.of_nat (size (buildPackIDToIndexMap infos))))
    as [|Hpk]; [done|].
  destruct (Z.leb_spec (2 ^ 28) p) as [|Hp]; [done|].
  destruct (Z.leb_spec (2 ^ 28) o) as [|Ho]; [done|].
  cbn [orb].
  destruct (Z.leb_spec (2 ^ 30) f) as [|Hf]; [done|].
  intros [= <-]. cbn [packBlobIDOffsets uniqueFormatInfo2Index packID2Index
    baseTimestamp extraDataOffset entryCount keyLength entrySize].
  assert (Hall : forall it, it ∈ infos ->
            GetPackedLength it < 2 ^ 28 /\ GetOriginalLength it < 2 ^ 28
            /\ GetPackOffset it < 2 ^ 30).
  { intros it Hit. split_and!.
    - destruct (Z.lt_ge_cases (GetPackedLength it) (2 ^ 28)); [done|].
      assert (2 ^ 28 <= p) by (apply Hp28; eauto). lia.
    - destruct (Z.lt_ge_cases (GetOriginalLength it) (2 ^ 28)); [done|].
      assert (2 ^ 28 <= o) by (apply Ho28; eauto). lia.
    - destruct (Z.lt_ge_cases (GetPackOffset it) (2 ^ 30)); [done|].
      assert (2 ^ 30 <= f) by (apply Hf30; eauto). lia. }
  assert (Hshort : p < 2 ^ 24 -> o < 2 ^ 24 -> forall it, it ∈ infos ->
            GetPackedLength it < 2 ^ 24 /\ GetOriginalLength it < 2 ^ 24).
  { intros Hps Hos it Hit. split.
    - destruct (Z.lt_ge_cases (GetPackedLength it) (2 ^ 24)); [done|].
      assert (2 ^ 24 <= p) by (apply Hp24; eauto). lia.
    - destruct (Z.lt_ge_cases (GetOriginalLength it) (2 ^ 24)); [done|].
      assert (2 ^ 24 <= o) by (apply Ho24; eauto). lia. }
  unfold index.max, v2EntryOffsetFormatID, v2EntryOffsetFormatIDEnd,
    v2EntryOffsetExtendedPackBlobIDEnd, v2EntryOffsetHighLengthBitsEnd,
    v2EntryOffsetExtendedPackBlobID, v2EntryOffsetHighLengthBits, v2EntryMaxLength,
    len.
  split_and!; try done; try lia.
  all: destruct (Z.ltb_spec 1 (Z.of_nat (size (buildUniqueFormatToIndexMap infos))));
    destruct (Z.ltb_spec (2 ^ 16) (Z.of_nat (size (buildPackIDToIndexMap infos))));
    destruct (Z.leb_spec (2 ^ 24) p); destruct (Z.leb_spec (2 ^ 24) o);
    cbn; try lia; intros; try lia; try (apply Hshort; done || lia).
Qed.

End builder.

End BuilderInv.

Module EntryBytes.
Import index IndexV2Spec IndexBuilderV2 IndexMaps ByteProps EntryCodec.

(** Closed indexes, lengths and comparisons, computed. *)
Ltac has_var t := match t with context [?x] => is_var x end.
Ltac closed t := tryif has_var t then fail else idtac.

Ltac eval_ground :=
  repeat match goal with
         | |- context [Z.to_nat ?n] =>
             closed n;
             let m := eval vm_compute in (Z.to_nat n) in
             progress change (Z.to_nat n) with m
         | |- context [Z.of_nat ?n] =>
             closed n;
             let m := eval vm_compute in (Z.of_nat n) in
             progress change (Z.of_nat n) with m
         | |- context [?a <? ?b] =>
             closed a; closed b;
             let m := eval vm_compute in (a <? b) in
             progress change (a <? b) with m
         end.

Ltac getters :=
  cbv zeta;
  unfold indexV2.GetTimestampSeconds, indexV2.GetDeleted, indexV2.GetPackOffset,
    indexV2.GetOriginalLength, indexV2.GetPackedLength, indexV2.formatIDIndex,
    indexV2.packIDIndex;
  cbn [indexV2.data indexV2.b];
  unfold sliceFrom, byteAt, index.len,
    indexV2.v2EntryOffsetTimestampSeconds, indexV2.v2EntryOffsetPackOffsetAndFlags,
    indexV2.v2EntryOffsetOriginalLength, indexV2.v2EntryOffsetPackedLength,
    indexV2.v2EntryOffsetPackBlobID, v2EntryOffsetHighLengthBits,
    v2EntryOffsetFormatID, v2EntryOffsetExtendedPackBlobID;
  cbn [length]; eval_ground; cbn [drop nth];
  rewrite ?decodeBigEndianUint32_bytes, ?decodeBigEndianUint24_bytes,
    ?decodeBigEndianUint16_bytes.

Lemma writeIndexValueEntry_codec (b : indexBuilderV2) (it : Info)
    (idx : indexV2.indexV2) (id : ID) :
  let pidx := default 0 (packID2Index b !! GetPackBlobID it) in
  let fidx := default 0 (uniqueFormatInfo2Index b !! indexV2FormatInfoFromInfo it) in
  inRange it ->
  GetPackedLength it < 2 ^ 28 -> GetOriginalLength it < 2 ^ 28 ->
  GetPackOffset it < 2 ^ 30 ->
  0 <= pidx < 2 ^ 24 -> 0 <= fidx < 256 ->
  16 <= entrySize b <= 19 ->
  (entrySize b < 19 -> GetPackedLength it < 2 ^ 24 /\ GetOriginalLength it < 2 ^ 24) ->
  (entrySize b < 18 -> pidx < 2 ^ 16) ->
  (entrySize b < 17 -> fidx = 0) ->
  exists data,
    writeIndexValueEntry b it = Ok data
    /\ length data = Z.to_nat (entrySize b)
    /\ (let e := indexV2.mkEntryInfo data id idx in
        indexV2.GetTimestampSeconds e
        = (GetTimestampSeconds it - baseTimestamp b) mod 2 ^ 32
          + indexV2.baseTimestamp (indexV2.hdr idx)
        /\ indexV2.GetDeleted e = GetDeleted it
        /\ indexV2.GetPackOffset e = GetPackOffset it
        /\ indexV2.GetOriginalLength e = GetOriginalLength it
        /\ indexV2.GetPackedLength e = GetPackedLength it
        /\ indexV2.formatIDIndex e = fidx
        /\ indexV2.packIDIndex e = pidx).
Proof.
  intros pidx fidx (Hoff & Horig & Hpacked & _) Hp28 Ho28 Hoff30 Hpidx Hfidx Hes
    Hshort Hpk Hfmt.
  destruct (deleted_flag (GetPackOffset it) (GetDeleted it) ltac:(lia))
    as (Hpof & Hpofmod & Hflag).
  destruct (high_length_bits (GetPackedLength it) (GetOriginalLength it)
              ltac:(lia) ltac:(lia)) as (Hhi0 & Hhip & Hhio).
  destruct (pack_index_bytes pidx Hpidx) as (Hpk0 & Hpk16 & Hpkall).
  unfold writeIndexValueEntry. fold pidx fidx.
  set (pof := if GetDeleted it then Z.lor (GetPackOffset it) v2DeletedMarker
              else GetPackOffset it) in *.
  set (B18 := Z.lor (wrapU8 (GetPackedLength it ≫ v2EntryHighLengthShift))
                    (wrapU8 ((GetOriginalLength it ≫ v2EntryHighLengthShift)
                               ≪ v2EntryHighLengthBitsOriginalLengthShift))) in *.
  set (B17 := wrapU8 (pidx ≫ v2EntryExtendedPackBlobIDShift)) in *.
  set (ts := wrapU32 (GetTimestampSeconds it - baseTimestamp b)).
  unfold PutUint32, PutUint16, encodeBigEndianUint24. cbn [app].
  assert (Hts : ts mod 2 ^ 32 = (GetTimestampSeconds it - baseTimestamp b) mod 2 ^ 32).
  { unfold ts, wrapU32. apply Z.mod_mod. lia. }
  assert (Hcases : entrySize b = 16 \/ entrySize b = 17 \/ entrySize b = 18
                   \/ entrySize b = 19) by lia.
  assert (Hmask : forall x, Z.land (x mod 2 ^ 32) indexV2.v2EntryPackOffsetMask
                            = x mod 2 ^ 31).
  { intros x. change indexV2.v2EntryPackOffsetMask with (Z.ones 31).
    rewrite Z.land_ones by lia.
    change (2 ^ 32) with 4294967296. change (2 ^ 31) with 2147483648.
    Z.to_euclidean_division_equations. lia. }
  destruct Hcases as [He|[He|[He|He]]]; rewrite He in *.
  - rewrite (Hfmt ltac:(lia)), (Hpk0 (Hpk ltac:(lia))),
      (Hhi0 (proj1 (Hshort ltac:(lia))) (proj2 (Hshort ltac:(lia)))).
    eval_ground. cbn [drop take forallb]. change (0 =? 0) with true. cbn [andb].
    eexists. split; [reflexivity|]. split; [reflexivity|].
    getters.
    rewrite Hts, Hflag, Hmask, Hpofmod, (Hpk16 (Hpk ltac:(lia))).
    rewrite (Z.mod_small (GetOriginalLength it) (2 ^ 24)),
      (Z.mod_small (GetPackedLength it) (2 ^ 24))
      by (split; [lia|apply Hshort; lia]).
    done.
  - rewrite (Hpk0 (Hpk ltac:(lia))),
      (Hhi0 (proj1 (Hshort ltac:(lia))) (proj2 (Hshort ltac:(lia)))).
    eval_ground. cbn [drop take forallb]. change (0 =? 0) with true. cbn [andb].
    eexists. split; [reflexivity|]. split; [reflexivity|].
    getters.
    rewrite Hts, Hflag, Hmask, Hpofmod, (Hpk16 (Hpk ltac:(lia))).
    rewrite (Z.mod_small (GetOriginalLength it) (2 ^ 24)),
      (Z.mod_small (GetPackedLength it) (2 ^ 24))
      by (split; [lia|apply Hshort; lia]).
    done.
  - rewrite (Hhi0 (proj1 (Hshort ltac:(lia))) (proj2 (Hshort ltac:(lia)))).
    eval_ground. cbn [drop take forallb]. change (0 =? 0) with true. cbn [andb].
    eexists. split; [reflexivity|]. split; [reflexivity|].
    getters.
    rewrite Hts, Hflag, Hmask, Hpofmod, Hpkall.
    rewrite (Z.mod_small (GetOriginalLength it) (2 ^ 24)),
      (Z.mod_small (GetPackedLength it) (2 ^ 24))
      by (split; [lia|apply Hshort; lia]).
    done.
  - eval_ground. cbn [drop take forallb].
    eexists. split; [reflexivity|]. split; [reflexivity|].
    getters.
    rewrite Hts, Hflag, Hmask, Hpofmod, Hpkall, Hhip, Hhio.
    done.
Qed.

End EntryBytes.

Module EntryRoundTrip.
Import index IndexV2Spec IndexBuilderV2 IndexMaps ByteProps EntryCodec EntryBytes
  BuilderInv.

Section builder.
Variable contentIDToBytes : ID -> list Z.

(** The numbers the two maps of a builder give to an entry of its input. *)
Lemma builder_indexes (infos : list Info) (b : indexBuilderV2) (it : Info) :
  newIndexBuilderV2 contentIDToBytes infos = Ok b ->
  it ∈ infos ->
  exists pidx fidx,
    packID2Index b !! GetPackBlobID it = Some pidx
    /\ uniqueFormatInfo2Index b !! indexV2FormatInfoFromInfo it = Some fidx
    /\ 0 <= pidx < Z.of_nat (size (packID2Index b))
    /\ 0 <= fidx < Z.of_nat (size (uniqueFormatInfo2Index b))
    /\ numbering (packID2Index b) /\ numbering (uniqueFormatInfo2Index b).
Proof.
  intros Hb Hit.
  destruct (newIndexBuilderV2_inv contentIDToBytes infos b Hb)
    as (_ & Hf & Hp & _ & _ & _ & _ & Hfsize & _).
  assert (Hnp : numbering (packID2Index b)).
  { rewrite Hp. apply buildPackIDToIndexMap_numbering. }
  assert (Hnf : numbering (uniqueFormatInfo2Index b)).
  { rewrite Hf. apply buildUniqueFormatToIndexMap_numbering. rewrite <- Hf. lia. }
  assert (Hpin : is_Some (packID2Index b !! GetPackBlobID it)).
  { apply elem_of_dom. rewrite Hp, buildPackIDToIndexMap_dom. unfold uniquePackIDs.
    apply elem_of_list_to_set, list_elem_of_fmap. eauto. }
  assert (Hfin : is_Some (uniqueFormatInfo2Index b !! indexV2FormatInfoFromInfo it)).
  { apply elem_of_dom. rewrite Hf, buildUniqueFormatToIndexMap_dom.
    unfold uniqueFormats. apply elem_of_list_to_set, list_elem_of_fmap. eauto. }
  destruct Hpin as [pidx Hpidx], Hfin as [fidx Hfidx].
  pose proof (proj1 Hnp _ _ Hpidx). pose proof (proj1 Hnf _ _ Hfidx).
  exists pidx, fidx. split_and!; try done; lia.
Qed.

Lemma entry_codec
    (infos : list Info) (b : indexBuilderV2) (it : Info)
    (idx : indexV2.indexV2) (cid : ID) :
  newIndexBuilderV2 contentIDToBytes infos = Ok b ->
  it ∈ infos ->
  inRange it ->
  exists data,
    writeIndexValueEntry b it = Ok data
    /\ Z.of_nat (length data) = entrySize b
    /\ (let e := indexV2.mkEntryInfo data cid idx in
        indexV2.GetTimestampSeconds e
        = GetTimestampSeconds it mod 2 ^ 32 + indexV2.baseTimestamp (indexV2.hdr idx)
        /\ indexV2.GetDeleted e = GetDeleted it
        /\ indexV2.GetPackOffset e = GetPackOffset it
        /\ indexV2.GetOriginalLength e = GetOriginalLength it
        /\ indexV2.GetPackedLength e = GetPackedLength it
        /\ uniqueFormatInfo2Index b !! indexV2FormatInfoFromInfo it
           = Some (indexV2.formatIDIndex e)
        /\ packID2Index b !! GetPackBlobID it = Some (indexV2.packIDIndex e)).
Proof.
  intros Hb Hit Hrange.
  destruct (builder_indexes infos b it Hb Hit)
    as (pidx & fidx & Hpidx & Hfidx & Hpr & Hfr & _ & _).
  destruct (newIndexBuilderV2_inv contentIDToBytes infos b Hb)
    as (_ & _ & _ & Hbase & _ & _ & _ & Hfsize & Hpsize & Hall & Hes & Hshort
        & Hpk & Hfmt).
  destruct (Hall it Hit) as (Hp28 & Ho28 & Hoff30).
  destruct (writeIndexValueEntry_codec b it idx cid) as (data & Hw & Hlen & Hget);
    rewrite ?Hpidx, ?Hfidx; cbn [default from_option id]; try done; try lia.
  - intros H. by apply Hshort.
  - exists data. rewrite Hpidx, Hfidx in Hget. cbn [default from_option id] in Hget.
    rewrite Hbase, Z.sub_0_r in Hget.
    destruct Hget as (H1 & H2 & H3 & H4 & H5 & H6 & H7).
    split_and!; try done.
    + lia.
    + cbv zeta. by rewrite H6.
    + cbv zeta. by rewrite H7.
Qed.

(** X12.  What [writeIndexValueEntry] writes for an entry of the builder's
    input is read back by the getters of [indexV2EntryInfo]: the builder
    never meets its "encoding bug" panic, it writes [entrySize] bytes, and
    the deleted flag, the pack offset, the two lengths and the numbers of
    the pack and of the format are the entry's; the timestamp comes back
    modulo [2^32], on top of the base timestamp of the index read. *)
Theorem writeIndexValueEntry_roundtrip
    (infos : list Info) (b : indexBuilderV2) (it : Info)
    (idx : indexV2.indexV2) (cid : ID) :
  newIndexBuilderV2 contentIDToBytes infos = Ok b ->
  it ∈ infos ->
  inRange it ->
  exists data,
    writeIndexValueEntry b it = Ok data
    /\ Z.of_nat (length data) = entrySize b
    /\ (let e := indexV2.mkEntryInfo data cid idx in
        indexV2.GetTimestampSeconds e
        = GetTimestampSeconds it mod 2 ^ 32 + indexV2.baseTimestamp (indexV2.hdr idx)
        /\ indexV2.GetDeleted e = GetDeleted it
        /\ indexV2.GetPackOffset e = GetPackOffset it
        /\ indexV2.GetOriginalLength e = GetOriginalLength it
        /\ indexV2.GetPackedLength e = GetPackedLength it
        /\ uniqueFormatInfo2Index b !! indexV2FormatInfoFromInfo it
           = Some (indexV2.formatIDIndex e)
        /\ packID2Index b !! GetPackBlobID it = Some (indexV2.packIDIndex e)).
Proof.
  intros Hb Hit Hrange.
  destruct (entry_codec infos b it idx cid Hb Hit Hrange) as (data & Hw & Hlen & Hget).
  exists data. split; [exact Hw|]. split; [exact Hlen|]. exact Hget.
Qed.

End builder.

End EntryRoundTrip.

Module Blocks.

(** A sequence of blocks of one size, written one after the other: where
    the i-th block starts. *)
Lemma drop_concat_blocks {A} (k : nat) (blocks : list (list A)) (rest : list A) :
  Forall (fun v => length v = k) blocks ->
  forall (i : nat) (x : list A),
    blocks !! i = Some x ->
    drop (i * k) (concat blocks ++ rest) = x ++ concat (drop (S i) blocks) ++ rest.
Proof.
  induction 1 as [|v blocks Hv Hall IH]; intros i x Hi; [done|].
  destruct i as [|i]; simpl in *.
  - injection Hi as ->. by rewrite drop_0, <- app_assoc.
  - rewrite <- app_assoc, drop_app_add'; [|lia]. by apply IH.
Qed.

Lemma length_concat_blocks {A} (k : nat) (blocks : list (list A)) :
  Forall (fun v => length v = k) blocks ->
  length (concat blocks) = (length blocks * k)%nat.
Proof.
  induction 1 as [|v blocks Hv Hall IH]; simpl; [done|].
  rewrite length_app, IH. lia.
Qed.

Lemma take_block {A} (k : nat) (blocks : list (list A)) (rest : list A) :
  Forall (fun v => length v = k) blocks ->
  forall (i : nat) (x : list A),
    blocks !! i = Some x ->
    take k (drop (i * k) (concat blocks ++ rest)) = x.
Proof.
  intros Hall i x Hi. rewrite (drop_concat_blocks k blocks rest Hall i x Hi).
  rewrite Forall_forall in Hall.
  rewrite take_app_length'; [done|].
  symmetry. apply Hall. by eapply list_elem_of_lookup_2.
Qed.

End Blocks.

Module FormatCodec.
Import index IndexV2Spec ByteProps EntryBytes Blocks.

Lemma writeFormatInfoEntry_length (f : indexV2FormatInfo) :
  length (writeFormatInfoEntry f) = 6%nat.
Proof. done. Qed.

(** X13.  The formats [buildV2] writes are the formats [openV2PackIndex] parses:
    [parseFormatsBuffer] reads back what [writeFormatInfoEntry] wrote, for
    formats whose compression header ID fits 32 bits. *)
Theorem parseFormatsBuffer_roundtrip (fs : list indexV2FormatInfo) :
  Forall formatInRange fs ->
  indexV2.parseFormatsBuffer (concat (writeFormatInfoEntry <$> fs))
    (Z.of_nat (length fs)) = fs.
Proof.
  intros Hall. unfold indexV2.parseFormatsBuffer. rewrite Nat2Z.id.
  apply list_eq. intros i. rewrite list_lookup_fmap.
  destruct (fs !! i) as [f|] eqn:Hf.
  - rewrite lookup_seq_lt by (by eapply lookup_lt_Some). simpl. f_equal.
    rewrite Forall_forall in Hall.
    destruct (Hall f ltac:(by eapply list_elem_of_lookup_2)) as (Hc & _ & _).
    assert (HF : sliceFrom (concat (writeFormatInfoEntry <$> fs))
                   (v2FormatInfoSize * Z.of_nat i)
                 = writeFormatInfoEntry f
                   ++ concat (drop (S i) (writeFormatInfoEntry <$> fs)) ++ []).
    { unfold sliceFrom.
      replace (Z.to_nat (v2FormatInfoSize * Z.of_nat i)) with (i * 6)%nat
        by (unfold v2FormatInfoSize; lia).
      rewrite <- (app_nil_r (concat (writeFormatInfoEntry <$> fs))).
      apply (drop_concat_blocks 6).
      - by apply Forall_fmap, Forall_true.
      - by rewrite list_lookup_fmap, Hf. }
    rewrite HF. unfold writeFormatInfoEntry at 1 2 3. rewrite <- !app_assoc.
    unfold sliceFrom, indexV2.v2FormatOffsetCompressionID. eval_ground.
    rewrite drop_0, Uint32_PutUint32.
    unfold byteAt, PutUint32, indexV2.v2FormatOffsetFormatVersion,
      indexV2.v2FormatOffsetEncryptionKeyID. eval_ground. cbn [app nth].
    rewrite Z.mod_small by done. by destruct f.
  - rewrite lookup_seq_ge; [done|]. by apply lookup_ge_None.
Qed.

(** One format of the table, read back. *)
Lemma parseFormatsBuffer_lookup (fs : list indexV2FormatInfo) (i : nat)
    (f : indexV2FormatInfo) :
  fs !! i = Some f -> 0 <= compressionHeaderID f < 2 ^ 32 ->
  indexV2.parseFormatsBuffer (concat (writeFormatInfoEntry <$> fs))
    (Z.of_nat (length fs)) !! i = Some f.
Proof.
  intros Hf Hc. unfold indexV2.parseFormatsBuffer.
  rewrite Nat2Z.id, list_lookup_fmap.
  rewrite lookup_seq_lt by (by eapply lookup_lt_Some). simpl. f_equal.
  assert (HF : sliceFrom (concat (writeFormatInfoEntry <$> fs))
                 (v2FormatInfoSize * Z.of_nat i)
               = writeFormatInfoEntry f
                 ++ concat (drop (S i) (writeFormatInfoEntry <$> fs)) ++ []).
  { unfold sliceFrom.
    replace (Z.to_nat (v2FormatInfoSize * Z.of_nat i)) with (i * 6)%nat
      by (unfold v2FormatInfoSize; lia).
    rewrite <- (app_nil_r (concat (writeFormatInfoEntry <$> fs))).
    apply (drop_concat_blocks 6).
    - by apply Forall_fmap, Forall_true.
    - by rewrite list_lookup_fmap, Hf. }
  rewrite HF. unfold writeFormatInfoEntry at 1 2 3. rewrite <- !app_assoc.
  unfold sliceFrom, indexV2.v2FormatOffsetCompressionID. eval_ground.
  rewrite drop_0, Uint32_PutUint32.
  unfold byteAt, PutUint32, indexV2.v2FormatOffsetFormatVersion,
    indexV2.v2FormatOffsetEncryptionKeyID. eval_ground. cbn [app nth].
  rewrite Z.mod_small by done. by destruct f.
Qed.

Lemma parseFormatsBuffer_length (buf : list Z) (n : nat) :
  length (indexV2.parseFormatsBuffer buf (Z.of_nat n)) = n.
Proof.
  unfold indexV2.parseFormatsBuffer. by rewrite length_fmap, length_seq, Nat2Z.id.
Qed.

End FormatCodec.

Module BuildLayout.
Import index IndexV2Spec IndexBuilderV2 IndexMaps ByteProps EntryBytes BuilderInv Blocks.

Section builder.
Variable contentIDToBytes : ID -> list Z.

Abbreviation writeIndexEntry := (writeIndexEntry contentIDToBytes).
Abbreviation writeEntries := (writeEntries contentIDToBytes).
Abbreviation buildV2 := (buildV2 contentIDToBytes).
Abbreviation newIndexBuilderV2 := (newIndexBuilderV2 contentIDToBytes).

Lemma writeIndexEntry_Ok (b : indexBuilderV2) (it : Info) (v : list Z) :
  writeIndexEntry b it = Ok v <->
  Z.of_nat (length (contentIDToBytes (GetContentID it))) = keyLength b
  /\ exists data, writeIndexValueEntry b it = Ok data
                  /\ v = contentIDToBytes (GetContentID it) ++ data.
Proof.
  unfold index.writeIndexEntry, len.
  destruct (Z.eqb_spec (Z.of_nat (length (contentIDToBytes (GetContentID it))))
              (keyLength b)) as [Hk|Hk]; cbn [negb].
  - destruct (writeIndexValueEntry b it) as [data|e]; simpl.
    + split.
      * intros [= <-]. eauto.
      * intros (_ & data' & [= <-] & ->). done.
    + split; [by destruct e|]. by intros (_ & data' & [=] & _).
  - split; [done|]. by intros [? _].
Qed.

(** [writeEntries] succeeds exactly when every entry can be written, and
    then it has appended the entries, one after the other. *)
Lemma writeEntries_Ok (b : indexBuilderV2) (infos : list Info) :
  forall w w',
  writeEntries b infos w = (w', Ok tt) <->
  exists vals, Forall2 (fun it v => writeIndexEntry b it = Ok v) infos vals
               /\ w' = w ++ concat vals.
Proof.
  induction infos as [|it infos IH]; intros w w'; simpl.
  - split.
    + intros [= <-]. exists []. split; [constructor|]. by rewrite app_nil_r.
    + intros (vals & Hv & ->). inversion Hv. by rewrite app_nil_r.
  - destruct (writeIndexEntry b it) as [v|e] eqn:Hw; simpl.
    + rewrite IH. split.
      * intros (vals & Hv & ->). exists (v :: vals). split; [by constructor|].
        simpl. by rewrite app_assoc.
      * intros (vals & Hv & ->). inversion Hv as [|? v' ? vals' Hv1 Hv2]; subst.
        exists vals'. split; [done|]. simpl.
        rewrite Hw in Hv1. injection Hv1 as <-. by rewrite app_assoc.
    + split; [by destruct e|].
      intros (vals & Hv & _). inversion Hv as [|? v' ? vals' Hv1 Hv2]; subst.
      by rewrite Hw in Hv1.
Qed.

Lemma bytesOf_length (s : string) : length (bytesOf s) = String.length s.
Proof.
  unfold bytesOf. rewrite length_fmap.
  induction s as [|c s IH]; simpl; [done|]. by rewrite IH.
Qed.

Lemma stringOf_bytesOf (s : string) : stringOf (bytesOf s) = s.
Proof.
  unfold stringOf, bytesOf. rewrite <- list_fmap_compose.
  rewrite (list_fmap_ext _ id (list_ascii_of_string s)).
  - rewrite list_fmap_id. apply string_of_list_ascii_of_string.
  - intros i c _. simpl. rewrite N2Z.id. apply ascii_N_embedding.
Qed.

Lemma take_drop_app_le {A} (l m : list A) (o k : nat) :
  (o + k <= length l)%nat -> take k (drop o (l ++ m)) = take k (drop o l).
Proof.
  intros H. rewrite drop_app_le by lia. apply take_app_le.
  rewrite length_drop. lia.
Qed.

(** [prepareExtraData] leaves the builder as it is but for the offsets of
    the pack blob names and the offset of the extra data; every pack blob
    ID of the input that is not empty has an offset, at which the extra
    data holds its name. *)
Lemma prepareExtraData_spec (b b2 : indexBuilderV2) (infos : list Info)
    (extraData : list Z) :
  packBlobIDOffsets b = ∅ ->
  prepareExtraData b infos = (b2, extraData) ->
  keyLength b2 = keyLength b /\ entrySize b2 = entrySize b
  /\ entryCount b2 = entryCount b
  /\ uniqueFormatInfo2Index b2 = uniqueFormatInfo2Index b
  /\ packID2Index b2 = packID2Index b
  /\ baseTimestamp b2 = baseTimestamp b
  /\ extraDataOffset b2
     = wrapU32 (wrapU32 (wrapU32 (v2IndexHeaderSize
                                  + wrapU32 (entryCount b * (keyLength b + entrySize b)))
                         + wrapU32 (Z.of_nat (size (packID2Index b)) * v2PackInfoSize))
                + wrapU32 (Z.of_nat (size (uniqueFormatInfo2Index b)) * v2FormatInfoSize))
  /\ packBlobIDOffsets b2 !! ""%string = None
  /\ (forall it, it ∈ infos -> GetPackBlobID it <> ""%string ->
       exists o : nat,
         packBlobIDOffsets b2 !! GetPackBlobID it = Some (wrapU32 (Z.of_nat o))
         /\ take (String.length (GetPackBlobID it)) (drop o extraData)
            = bytesOf (GetPackBlobID it)
         /\ (o + String.length (GetPackBlobID it) <= length extraData)%nat).
Proof.
  intros Hempty. unfold prepareExtraData.
  set (step := fun '(offsets, extraData) (it : Info) =>
         if negb (String.eqb (GetPackBlobID it) "") then
           match (offsets : gmap blobID Z) !! GetPackBlobID it with
           | Some _ => (offsets, extraData)
           | None =>
               (<[GetPackBlobID it := wrapU32 (len extraData)]> offsets,
                extraData ++ bytesOf (GetPackBlobID it))
           end
         else (offsets, extraData)).
  assert (Hfold : forall (l : list Info) (offsets : gmap blobID Z) (extra : list Z),
    let ok (offs : gmap blobID Z) (ex : list Z) :=
      offs !! ""%string = None
      /\ forall p v, offs !! p = Some v ->
           exists o : nat, v = wrapU32 (Z.of_nat o)
             /\ take (String.length p) (drop o ex) = bytesOf p
             /\ (o + String.length p <= length ex)%nat in
    ok offsets extra ->
    ok (foldl step (offsets, extra) l).1 (foldl step (offsets, extra) l).2
    /\ (forall p, is_Some (offsets !! p) ->
          is_Some ((foldl step (offsets, extra) l).1 !! p))
    /\ (forall it, it ∈ l -> GetPackBlobID it <> ""%string ->
          is_Some ((foldl step (offsets, extra) l).1 !! GetPackBlobID it))).
  { induction l as [|it l IH]; intros offsets extra ok Hok; simpl.
    - split_and!; [done|done|]. intros it Hit. by apply elem_of_nil in Hit.
    - destruct (String.eqb_spec (GetPackBlobID it) "") as [Hnil|Hne]; cbn [negb].
      + destruct (IH offsets extra Hok) as (H1 & H2 & H3).
        split_and!; [done|done|].
        intros it' [->|Hit']%elem_of_cons Hne'; [done|by apply H3].
      + destruct (offsets !! GetPackBlobID it) as [v|] eqn:Hl.
        * destruct (IH offsets extra Hok) as (H1 & H2 & H3).
          split_and!; [done|done|].
          intros it' [->|Hit']%elem_of_cons Hne'; [apply H2; eauto|by apply H3].
        * assert (Hok' : ok (<[GetPackBlobID it := wrapU32 (len extra)]> offsets)
                            (extra ++ bytesOf (GetPackBlobID it))).
          { destruct Hok as [Hnone Hall]. split.
            - by rewrite lookup_insert_ne.
            - intros p v. destruct (decide (GetPackBlobID it = p)) as [<-|Hp].
              + rewrite lookup_insert_eq. intros [= <-]. exists (length extra).
                split; [done|]. rewrite drop_app_length, length_app, bytesOf_length.
                split; [|lia]. rewrite <- bytesOf_length. apply firstn_all.
              + rewrite lookup_insert_ne by done. intros Hv.
                destruct (Hall p v Hv) as (o & -> & Ht & Hle). exists o.
                split; [done|]. rewrite take_drop_app_le by done.
                split; [done|]. rewrite length_app. lia. }
          destruct (IH _ _ Hok') as (H1 & H2 & H3).
          split_and!; [done| |].
          -- intros p Hp. apply H2.
             destruct (decide (GetPackBlobID it = p)) as [<-|Hne'].
             ++ rewrite lookup_insert_eq. eauto.
             ++ by rewrite lookup_insert_ne.
          -- intros it' [->|Hit']%elem_of_cons Hne'; [|by apply H3].
             apply H2. rewrite lookup_insert_eq. eauto. }
  specialize (Hfold infos (packBlobIDOffsets b) []).
  destruct (foldl step (packBlobIDOffsets b, []) infos) as [offsets extra] eqn:Hf.
  intros [= <- <-]. cbn [keyLength entrySize entryCount uniqueFormatInfo2Index
    packID2Index baseTimestamp extraDataOffset packBlobIDOffsets].
  destruct Hfold as ((Hnone & Hall) & _ & Hin).
  { rewrite Hempty. split; [done|]. intros p v. by rewrite lookup_empty. }
  simpl in *. split_and!; try done.
  intros it Hit Hne. destruct (Hin it Hit Hne) as [v Hv].
  destruct (Hall _ _ Hv) as (o & -> & Ht & Hle). eauto.
Qed.

(** The bytes [buildV2] hands to its writer when it succeeds: the header,
    the entries, the pack table, the format table and the extra data. *)
Lemma buildV2_layout (infos : list Info) (file : list Z) :
  buildV2 infos = (file, Ok tt) ->
  exists b0 b2 extraData vals,
    newIndexBuilderV2 infos = Ok b0
    /\ prepareExtraData b0 infos = (b2, extraData)
    /\ 1 < keyLength b2
    /\ Forall2 (fun it v => writeIndexEntry b2 it = Ok v) infos vals
    /\ file = v2Header b2 ++ concat vals
              ++ concat (writePackIDEntry b2 <$> reverseIndex ""%string (packID2Index b2))
              ++ concat (writeFormatInfoEntry
                           <$> reverseIndex (mkFormatInfo 0 0 0)
                                 (uniqueFormatInfo2Index b2))
              ++ extraData.
Proof.
  unfold index.buildV2.
  destruct (newIndexBuilderV2 infos) as [b0|e] eqn:Hb0; [|done].
  destruct (prepareExtraData b0 infos) as [b2 extraData] eqn:Hprep.
  destruct (Z.leb_spec (keyLength b2) 1) as [|Hkey]; [done|].
  fold (v2Header b2).
  destruct (writeEntries b2 infos (v2Header b2)) as [w r] eqn:Hw.
  destruct r as [[]|e]; [|done].
  apply writeEntries_Ok in Hw as (vals & Hvals & ->).
  intros [= <-]. exists b0, b2, extraData, vals.
  split_and!; try done. by rewrite <- !app_assoc.
Qed.

(** For entries within the ranges of their Go types, [buildV2] over a
    writer that does not fail succeeds exactly when [newIndexBuilderV2]
    does, there is a first entry, its key is longer than one byte and every
    key is as long as it. *)
Lemma buildV2_Ok_iff (infos : list Info) :
  Forall inRange infos ->
  isOk (buildV2 infos).2 = true
  <-> isOk (newIndexBuilderV2 infos) = true
      /\ exists first rest,
           infos = first :: rest
           /\ 1 < Z.of_nat (length (contentIDToBytes (GetContentID first)))
           /\ forall it, it ∈ infos ->
                length (contentIDToBytes (GetContentID it))
                = length (contentIDToBytes (GetContentID first)).
Proof.
  intros Hrange. unfold index.buildV2.
  destruct (newIndexBuilderV2 infos) as [b0|e] eqn:Hb0; cbn [isOk snd].
  2: { split; [done|]. by intros [? _]. }
  destruct (newIndexBuilderV2_inv contentIDToBytes infos b0 Hb0)
    as (Hoffs & _ & _ & _ & _ & _ & Hkey & _).
  destruct (prepareExtraData b0 infos) as [b2 extraData] eqn:Hprep.
  destruct (prepareExtraData_spec b0 b2 infos extraData Hoffs Hprep)
    as (Hkl & Hes & _ & Hfm & Hpm & Hbt & _).
  fold (v2Header b2).
  destruct (Z.leb_spec (keyLength b2) 1) as [Hshort|Hlong]; cbn [isOk snd].
  { split; [done|]. intros (_ & first & rest & -> & Hlen & _).
    rewrite Hkl, Hkey in Hshort. lia. }
  destruct infos as [|first rest]; [rewrite Hkl, Hkey in Hlong; lia|].
  rewrite Hkl, Hkey in Hlong.
  assert (Hvalue : forall it, it ∈ first :: rest ->
            exists data, writeIndexValueEntry b2 it = Ok data).
  { intros it Hit. rewrite Forall_forall in Hrange.
    destruct (EntryRoundTrip.entry_codec contentIDToBytes
                (first :: rest) b0 it (indexV2.mkIndexV2
                   (indexV2.mkHeaderInfo 0 0 0 0 0 0 0 0 0 0 0) [] []) ""%string
                Hb0 Hit (Hrange it Hit)) as (data & Hw & _).
    exists data. rewrite <- Hw. unfold writeIndexValueEntry.
    by rewrite Hes, Hfm, Hpm, Hbt. }
  destruct (writeEntries b2 (first :: rest) (v2Header b2)) as [w r] eqn:Hw.
  split.
  - intros Hok. split; [done|]. exists first, rest. split_and!; [done|done|].
    destruct r as [[]|e]; [|by destruct e].
    apply writeEntries_Ok in Hw as (vals & Hvals & _).
    intros it Hit. apply list_elem_of_lookup in Hit as [i Hi].
    destruct (Forall2_lookup_l _ _ _ _ _ Hvals Hi) as (v & _ & Hv).
    apply writeIndexEntry_Ok in Hv as [Hv _].
    rewrite Hkl, Hkey in Hv. lia.
  - intros (_ & first' & rest' & [= <- <-] & _ & Hlen).
    assert (Haux : forall l : list Info,
              (forall it, it ∈ l -> exists data, writeIndexValueEntry b2 it = Ok data) ->
              (forall it, it ∈ l ->
                 Z.of_nat (length (contentIDToBytes (GetContentID it))) = keyLength b2) ->
              exists vals, Forall2 (fun it v => writeIndexEntry b2 it = Ok v) l vals).
    { induction l as [|it l IH]; intros Hval Hk.
      - exists []. constructor.
      - destruct IH as [vals Hvals].
        + intros it' Hit'. apply Hval. by right.
        + intros it' Hit'. apply Hk. by right.
        + destruct (Hval it ltac:(left)) as [data Hdata].
          exists ((contentIDToBytes (GetContentID it) ++ data) :: vals).
          constructor; [|done]. apply writeIndexEntry_Ok. split; [|eauto].
          apply Hk. left. }
    assert (Hall : exists vals,
              Forall2 (fun it v => writeIndexEntry b2 it = Ok v) (first :: rest) vals).
    { apply Haux; [done|]. intros it Hit. rewrite Hkl, Hkey, (Hlen it Hit). done. }
    destruct Hall as [vals Hvals].
    assert (Hw' : writeEntries b2 (first :: rest) (v2Header b2)
                  = (v2Header b2 ++ concat vals, Ok tt)).
    { apply writeEntries_Ok. eauto. }
    rewrite Hw' in Hw. injection Hw as <- <-. done.
Qed.

End builder.

End BuildLayout.

Module SearchProps.

(** [sort.Search] over a predicate that does not fail and is false up to
    a threshold and true from it on finds the threshold, within its
    rounds. *)
Lemma searchFrom_threshold (f : Z -> result bool) (t : Z) :
  forall (fuel : nat) (i j : Z),
    i <= t <= j -> j - i <= Z.of_nat fuel ->
    (forall h, i <= h < j -> f h = Ok (bool_decide (t <= h))) ->
    searchFrom fuel f i j = Ok t.
Proof.
  induction fuel as [|fuel IH]; intros i j Ht Hfuel Hf.
  - simpl. destruct (Z.ltb_spec i j); [lia|]. f_equal. lia.
  - simpl. destruct (Z.ltb_spec i j) as [Hij|Hij]; [|f_equal; lia].
    assert (Hh : i <= (i + j) ≫ 1 < j).
    { rewrite Z.shiftr_div_pow2 by lia. change (2 ^ 1) with 2.
      Z.to_euclidean_division_equations. lia. }
    rewrite (Hf _ Hh).
    destruct (bool_decide_reflect (t <= (i + j) ≫ 1)) as [Hle|Hgt].
    + apply IH; [lia|lia|]. intros h Hhr. apply Hf. lia.
    + apply IH; [lia|lia|]. intros h Hhr. apply Hf. lia.
Qed.

Lemma Search_threshold (n : Z) (f : Z -> result bool) (t : Z) :
  0 <= t <= n ->
  (forall h, 0 <= h < n -> f h = Ok (bool_decide (t <= h))) ->
  Search n f = Ok t.
Proof.
  intros Ht Hf. unfold Search. apply searchFrom_threshold; [done|lia|done].
Qed.

(** Whatever the predicate says, as long as it does not fail, the search
    ends within its rounds, at a position of the range or right after it. *)
Lemma searchFrom_range (f : Z -> result bool) :
  forall (fuel : nat) (i j : Z),
    i <= j -> j - i <= Z.of_nat fuel ->
    (forall h, i <= h < j -> exists r, f h = Ok r) ->
    exists p, searchFrom fuel f i j = Ok p /\ i <= p <= j.
Proof.
  induction fuel as [|fuel IH]; intros i j Hij Hfuel Hf.
  - simpl. destruct (Z.ltb_spec i j); [lia|]. exists i. split; [done|lia].
  - simpl. destruct (Z.ltb_spec i j) as [Hlt|Hge]; [|exists i; split; [done|lia]].
    assert (Hh : i <= (i + j) ≫ 1 < j).
    { rewrite Z.shiftr_div_pow2 by lia. change (2 ^ 1) with 2.
      Z.to_euclidean_division_equations. lia. }
    destruct (Hf _ Hh) as [r ->]. destruct r.
    + destruct (IH i ((i + j) ≫ 1)) as (p & Hp & Hr); [lia|lia| |].
      * intros h Hhr. apply Hf. lia.
      * exists p. split; [done|lia].
    + destruct (IH ((i + j) ≫ 1 + 1) j) as (p & Hp & Hr); [lia|lia| |].
      * intros h Hhr. apply Hf. lia.
      * exists p. split; [done|lia].
Qed.

Lemma Search_range (n : Z) (f : Z -> result bool) :
  0 <= n ->
  (forall h, 0 <= h < n -> exists r, f h = Ok r) ->
  exists p, Search n f = Ok p /\ 0 <= p <= n.
Proof. intros Hn Hf. unfold Search. apply searchFrom_range; [done|lia|done]. Qed.

End SearchProps.

Module HeaderCodec.
Import index IndexV2Spec ByteProps EntryBytes.

Lemma Uint32_bytes (v : Z) (rest : list Z) :
  Uint32 (wrapU8 (v ≫ 24) :: wrapU8 (v ≫ 16) :: wrapU8 (v ≫ 8) :: wrapU8 v :: rest)
  = v mod 2 ^ 32.
Proof. apply (Uint32_PutUint32 v rest). Qed.

Lemma Uint16_bytes (v : Z) (rest : list Z) :
  Uint16 (wrapU8 (v ≫ 8) :: wrapU8 v :: rest) = v mod 2 ^ 16.
Proof. apply (Uint16_PutUint16 v rest). Qed.

Lemma wrap_small (x m : Z) : 0 <= x < m -> x mod m = x.
Proof. apply Z.mod_small. Qed.

(** Reading a piece of a file back: [n] bytes at the offset where the
    piece starts. *)
Lemma readAtAll_app (pre x rest : list Z) (n offset : Z) :
  n = Z.of_nat (length x) -> offset = Z.of_nat (length pre) ->
  indexV2.readAtAll (pre ++ x ++ rest) n offset = Ok x.
Proof.
  intros -> ->. unfold indexV2.readAtAll, index.len.
  rewrite !Nat2Z.id, drop_app_length, take_app_length.
  replace (0 <=? Z.of_nat (length pre)) with true by (symmetry; apply Z.leb_le; lia).
  replace (_ || _) with true; [done|].
  symmetry. apply orb_true_iff. right. apply Z.leb_le.
  rewrite !length_app. lia.
Qed.

Lemma v2Header_length (b2 : indexBuilderV2) : length (v2Header b2) = 17%nat.
Proof. done. Qed.

(** The header [buildV2] writes, read as [openV2PackIndex] reads it. *)
Lemma v2Header_fields (b2 : indexBuilderV2) (rest : list Z) :
  0 <= keyLength b2 < 256 -> 0 <= entrySize b2 < 2 ^ 16 ->
  0 <= entryCount b2 < 2 ^ 32 ->
  Z.of_nat (size (packID2Index b2)) < 2 ^ 32 ->
  Z.of_nat (size (uniqueFormatInfo2Index b2)) < 256 ->
  0 <= baseTimestamp b2 < 2 ^ 32 ->
  let header := v2Header b2 in
  indexV2.readAtAll (header ++ rest) v2IndexHeaderSize 0 = Ok header
  /\ byteAt header 0 = Version2
  /\ byteAt header 1 = keyLength b2
  /\ Uint16 (sliceRange header 2 4) = entrySize b2
  /\ Uint32 (sliceRange header 4 8) = entryCount b2
  /\ Uint32 (sliceRange header 8 12) = Z.of_nat (size (packID2Index b2))
  /\ byteAt header 12 = Z.of_nat (size (uniqueFormatInfo2Index b2))
  /\ Uint32 (sliceRange header 13 17) = baseTimestamp b2.
Proof.
  intros Hk He Hn Hp Hf Hb. cbv zeta.
  split.
  { apply (readAtAll_app [] (v2Header b2) rest); done. }
  unfold v2Header, PutUint16, PutUint32. cbn [app].
  unfold sliceRange, byteAt.
  eval_ground. cbn [drop take nth].
  rewrite Uint16_bytes, !Uint32_bytes.
  unfold wrapU8, wrapU16, wrapU32.
  change (2 ^ 8) with 256.
  rewrite !Z.mod_mod by lia.
  rewrite !wrap_small by lia.
  done.
Qed.

End HeaderCodec.

Module BuiltIndex.
Import index IndexV2Spec IterateSpec IndexBuilderV2 IndexMaps ByteProps EntryBytes
  BuilderInv Blocks BuildLayout HeaderCodec EntryRoundTrip SearchProps FormatCodec.

Section built.
Variable contentIDToBytes : ID -> list Z.
Variable infos : list Info.
Variable file : list Z.
Variables b0 b2 : indexBuilderV2.
Variable extraData : list Z.
Variable vals : list (list Z).

Abbreviation packNames := (reverseIndex ""%string (packID2Index b2)).
Abbreviation formatList :=
  (reverseIndex (mkFormatInfo 0 0 0) (uniqueFormatInfo2Index b2)).
Abbreviation packTable := (concat (writePackIDEntry b2 <$> packNames)).
Abbreviation formatTable := (concat (writeFormatInfoEntry <$> formatList)).
Abbreviation stride := (keyLength b2 + entrySize b2).

Hypothesis Hb0 : newIndexBuilderV2 contentIDToBytes infos = Ok b0.
Hypothesis Hprep : prepareExtraData b0 infos = (b2, extraData).
Hypothesis Hkey : 1 < keyLength b2.
Hypothesis Hvals :
  Forall2 (fun it v => writeIndexEntry contentIDToBytes b2 it = Ok v) infos vals.
Hypothesis Hfile :
  file = v2Header b2 ++ concat vals ++ packTable ++ formatTable ++ extraData.
Hypothesis Hrange : Forall inRange infos.
Hypothesis Hsize : Z.of_nat (length file) < 2 ^ 32.
Hypothesis Hstride : stride <= 256.

(** The builder that wrote the file. *)
Lemma built_builder :
  packBlobIDOffsets b0 = ∅
  /\ keyLength b2 = keyLength b0 /\ entrySize b2 = entrySize b0
  /\ entryCount b2 = Z.of_nat (length infos)
  /\ uniqueFormatInfo2Index b2 = uniqueFormatInfo2Index b0
  /\ packID2Index b2 = packID2Index b0
  /\ baseTimestamp b2 = 0
  /\ 16 <= entrySize b2 <= 19
  /\ (size (uniqueFormatInfo2Index b2) <= 255)%nat
  /\ numbering (packID2Index b2) /\ numbering (uniqueFormatInfo2Index b2).
Proof.
  destruct (newIndexBuilderV2_inv contentIDToBytes infos b0 Hb0)
    as (Hoffs & Hf & Hp & Hbase & _ & Hcount & _ & Hfsize & _ & _ & Hes & _).
  destruct (prepareExtraData_spec b0 b2 infos extraData Hoffs Hprep)
    as (Hkl & Hes2 & Hcnt & Hfm & Hpm & Hbt & _).
  assert (Hnp : numbering (packID2Index b2)).
  { rewrite Hpm, Hp. apply buildPackIDToIndexMap_numbering. }
  assert (Hnf : numbering (uniqueFormatInfo2Index b2)).
  { rewrite Hfm, Hf. apply buildUniqueFormatToIndexMap_numbering. rewrite <- Hf. lia. }
  split_and!; try done; try congruence; try lia.
Qed.

(** Every entry written is a key of [keyLength] bytes and a value of
    [entrySize] bytes. *)
Lemma built_entries :
  length vals = length infos
  /\ Forall (fun v => length v = Z.to_nat stride) vals
  /\ forall i it, infos !! i = Some it ->
       exists data,
         vals !! i = Some (contentIDToBytes (GetContentID it) ++ data)
         /\ Z.of_nat (length (contentIDToBytes (GetContentID it))) = keyLength b2
         /\ writeIndexValueEntry b2 it = Ok data
         /\ Z.of_nat (length data) = entrySize b2.
Proof.
  destruct built_builder as (Hoffs & Hkl & Hes & Hcnt & Hfm & Hpm & Hbt & Hrg & _).
  assert (Hentry : forall i it, infos !! i = Some it ->
            exists data,
              vals !! i = Some (contentIDToBytes (GetContentID it) ++ data)
              /\ Z.of_nat (length (contentIDToBytes (GetContentID it))) = keyLength b2
              /\ writeIndexValueEntry b2 it = Ok data
              /\ Z.of_nat (length data) = entrySize b2).
  { intros i it Hi.
    destruct (Forall2_lookup_l _ _ _ _ _ Hvals Hi) as (v & Hv & Hw).
    apply writeIndexEntry_Ok in Hw as (Hlen & data & Hdata & ->).
    exists data. split_and!; try done.
    rewrite Forall_forall in Hrange.
    assert (Hit : it ∈ infos) by (by eapply list_elem_of_lookup_2).
    destruct (entry_codec contentIDToBytes infos b0 it
                (indexV2.mkIndexV2 (indexV2.mkHeaderInfo 0 0 0 0 0 0 0 0 0 0 0) [] [])
                ""%string Hb0 Hit (Hrange it Hit)) as (data' & Hw' & Hlen' & _).
    assert (Hsame : writeIndexValueEntry b2 it = writeIndexValueEntry b0 it).
    { unfold writeIndexValueEntry. by rewrite Hes, Hfm, Hpm, Hbt,
        (proj1 (proj2 (proj2 (proj2 (newIndexBuilderV2_inv _ _ _ Hb0))))). }
    rewrite Hsame, Hw' in Hdata. injection Hdata as <-. lia. }
  split_and!; [by eapply eq_sym, Forall2_length| |done].
  apply Forall_forall. intros v Hv.
  apply list_elem_of_lookup in Hv as [i Hi].
  destruct (Forall2_lookup_r _ _ _ _ _ Hvals Hi) as (it & Hit & _).
  destruct (Hentry i it Hit) as (data & Hv' & Hlen & _ & Hdl).
  rewrite Hi in Hv'. injection Hv' as ->. rewrite length_app. lia.
Qed.

Lemma writePackIDEntry_length (p : blobID) : length (writePackIDEntry b2 p) = 5%nat.
Proof. done. Qed.

(** How long the pieces of the file are, and where the extra data starts. *)
Lemma built_sizes :
  length (concat vals) = (length infos * Z.to_nat stride)%nat
  /\ length packTable = (size (packID2Index b2) * 5)%nat
  /\ length formatTable = (size (uniqueFormatInfo2Index b2) * 6)%nat
  /\ Z.of_nat (length file)
     = 17 + Z.of_nat (length infos) * stride
       + Z.of_nat (size (packID2Index b2)) * 5
       + Z.of_nat (size (uniqueFormatInfo2Index b2)) * 6
       + Z.of_nat (length extraData)
  /\ extraDataOffset b2
     = 17 + Z.of_nat (length infos) * stride
       + Z.of_nat (size (packID2Index b2)) * 5
       + Z.of_nat (size (uniqueFormatInfo2Index b2)) * 6.
Proof.
  destruct built_builder as (Hoffs & Hkl & Hes & Hcnt & Hfm & Hpm & Hbt & Hrg & _).
  destruct built_entries as (Hlen & Hall & _).
  assert (H1 : length (concat vals) = (length infos * Z.to_nat stride)%nat).
  { rewrite (length_concat_blocks (Z.to_nat stride)) by done. by rewrite Hlen. }
  assert (H2 : length packTable = (size (packID2Index b2) * 5)%nat).
  { rewrite (length_concat_blocks 5).
    - by rewrite length_fmap, reverseIndex_length.
    - by apply Forall_fmap, Forall_true. }
  assert (H3 : length formatTable = (size (uniqueFormatInfo2Index b2) * 6)%nat).
  { rewrite (length_concat_blocks 6).
    - by rewrite length_fmap, reverseIndex_length.
    - by apply Forall_fmap, Forall_true. }
  assert (H4 : Z.of_nat (length file)
               = 17 + Z.of_nat (length infos) * stride
                 + Z.of_nat (size (packID2Index b2)) * 5
                 + Z.of_nat (size (uniqueFormatInfo2Index b2)) * 6
                 + Z.of_nat (length extraData)).
  { rewrite Hfile, !length_app, H1, H2, H3, v2Header_length. lia. }
  split_and!; try done.
  destruct (prepareExtraData_spec b0 b2 infos extraData Hoffs Hprep)
    as (_ & _ & _ & _ & _ & _ & Hoff & _).
  rewrite Hoff. rewrite <- Hkl, <- Hes, <- Hpm, <- Hfm.
  replace (entryCount b0) with (Z.of_nat (length infos)).
  2: { destruct (prepareExtraData_spec b0 b2 infos extraData Hoffs Hprep)
         as (_ & _ & Hc & _). congruence. }
  unfold wrapU32, v2IndexHeaderSize, v2PackInfoSize, v2FormatInfoSize.
  assert (0 <= Z.of_nat (length infos) * stride) by nia.
  rewrite (Z.mod_small (Z.of_nat (length infos) * stride)) by lia.
  rewrite (Z.mod_small (Z.of_nat (size (packID2Index b2)) * 5)) by lia.
  rewrite (Z.mod_small (Z.of_nat (size (uniqueFormatInfo2Index b2)) * 6)) by lia.
  rewrite (Z.mod_small (17 + _)) by lia.
  rewrite (Z.mod_small (17 + _ + _)) by lia.
  rewrite (Z.mod_small (17 + _ + _ + _)) by lia.
  done.
Qed.

(** The index [openV2PackIndex] makes of the file. *)
Lemma built_open :
  exists idx,
    indexV2.openV2PackIndex file = Ok idx
    /\ indexV2.readerAt idx = file
    /\ indexV2.keySize (indexV2.hdr idx) = keyLength b2
    /\ indexV2.entrySize (indexV2.hdr idx) = entrySize b2
    /\ indexV2.entryCount (indexV2.hdr idx) = Z.of_nat (length infos)
    /\ indexV2.packCount (indexV2.hdr idx) = Z.of_nat (size (packID2Index b2))
    /\ indexV2.formatCount (indexV2.hdr idx)
       = Z.of_nat (size (uniqueFormatInfo2Index b2))
    /\ indexV2.baseTimestamp (indexV2.hdr idx) = 0
    /\ indexV2.entriesOffset (indexV2.hdr idx) = 17
    /\ indexV2.entryStride (indexV2.hdr idx) = stride
    /\ indexV2.packsOffset (indexV2.hdr idx)
       = 17 + Z.of_nat (length infos) * stride
    /\ indexV2.formats idx
       = indexV2.parseFormatsBuffer formatTable
           (Z.of_nat (size (uniqueFormatInfo2Index b2))).
Proof.
  destruct built_builder as (Hoffs & Hkl & Hes & Hcnt & Hfm & Hpm & Hbt & Hrg & Hfs & _).
  destruct built_sizes as (H1 & H2 & H3 & H4 & _).
  assert (0 <= Z.of_nat (length infos) * stride) by nia.
  assert (Z.of_nat (length infos) <= Z.of_nat (length infos) * stride) by nia.
  destruct (v2Header_fields b2
              (concat vals ++ packTable ++ formatTable ++ extraData))
    as (Hread & Hv & Hk & He & Hn & Hp & Hf & Hb); try lia.
  unfold indexV2.openV2PackIndex. rewrite Hfile, Hread, Hk, He, Hn, Hp, Hf, Hb.
  unfold v2EntryMinLength, v2EntryOffsetFormatID, v2EntryMaxLength, v2MaxFormatCount,
    invalidFormatVersion, indexV2.v2MaxEntrySize, v2IndexHeaderSize, v2PackInfoSize,
    v2FormatInfoSize.
  destruct (Z.leb_spec (keyLength b2) 1); [lia|].
  destruct (Z.ltb_spec (entrySize b2) 16); [lia|].
  destruct (Z.ltb_spec 19 (entrySize b2)); [lia|].
  destruct (Z.ltb_spec (entryCount b2) 0); [lia|].
  destruct (Z.ltb_spec 255 (Z.of_nat (size (uniqueFormatInfo2Index b2)))); [lia|].
  cbn [orb].
  destruct (Z.ltb_spec 256 stride); [lia|].
  rewrite (app_assoc (v2Header b2)), (app_assoc _ packTable).
  rewrite (readAtAll_app _ formatTable extraData).
  - eexists. split; [reflexivity|]. cbn. rewrite Hcnt. split_and!; try done.
  - rewrite H3. lia.
  - rewrite !length_app, H1, H2, v2Header_length, Hcnt. lia.
Qed.

(** The entry at a position of the file is the key and the value written
    for the entry at that position of the input. *)
Lemma built_entry_at (idx : indexV2.indexV2) (i : nat) (it : Info) :
  indexV2.openV2PackIndex file = Ok idx ->
  infos !! i = Some it ->
  exists data,
    indexV2.readAtAll (indexV2.readerAt idx) (indexV2.entryStride (indexV2.hdr idx))
      (indexV2.entryOffset idx (Z.of_nat i))
    = Ok (contentIDToBytes (GetContentID it) ++ data)
    /\ Z.of_nat (length (contentIDToBytes (GetContentID it))) = keyLength b2
    /\ writeIndexValueEntry b2 it = Ok data
    /\ Z.of_nat (length data) = entrySize b2.
Proof.
  intros Hopen Hi.
  destruct built_open as (idx' & Hopen' & Hreader & _ & _ & _ & _ & _ & _ & Heo & Hst & _).
  rewrite Hopen in Hopen'. injection Hopen' as <-.
  destruct built_builder as (_ & _ & _ & _ & _ & _ & _ & Hrg & _).
  destruct built_entries as (Hlen & Hall & Hentry).
  destruct built_sizes as (H1 & H2 & H3 & H4 & _).
  destruct (Hentry i it Hi) as (data & Hv & Hkl & Hw & Hdl).
  exists data. split_and!; try done.
  unfold indexV2.entryOffset. rewrite Hreader, Heo, Hst.
  unfold indexV2.readAtAll, index.len.
  assert (Hi' : (i < length infos)%nat) by (by eapply lookup_lt_Some).
  assert (Z.of_nat i * stride + stride <= Z.of_nat (length infos) * stride) by nia.
  assert (0 <= Z.of_nat i * stride) by nia.
  replace (0 <=? 17 + stride * Z.of_nat i) with true
    by (symmetry; apply Z.leb_le; lia).
  replace ((stride =? 0) || (17 + stride * Z.of_nat i + stride <=? Z.of_nat (length file)))
    with true by (symmetry; apply orb_true_iff; right; apply Z.leb_le; lia).
  cbn [andb]. f_equal.
  replace (Z.to_nat (17 + stride * Z.of_nat i)) with (17 + i * Z.to_nat stride)%nat
    by lia.
  rewrite Hfile, drop_app_add' by apply (v2Header_length b2).
  by apply take_block.
Qed.

Variable greaterOrEqual : list Z -> list Z -> bool.
Variable unknownKeySize : Z.

Hypothesis Hsorted :
  keysInOrder greaterOrEqual ((fun it => contentIDToBytes (GetContentID it)) <$> infos).
Hypothesis Hunknown : keyLength b2 <> unknownKeySize.

Lemma sliceRange_key (key data : list Z) (n : Z) :
  n = Z.of_nat (length key) -> sliceRange (key ++ data) 0 n = key.
Proof.
  intros ->. unfold sliceRange. rewrite Z.sub_0_r, Nat2Z.id.
  change (Z.to_nat 0) with 0%nat. by rewrite drop_0, take_app_length.
Qed.

Lemma sliceFrom_key (key data : list Z) (n : Z) :
  n = Z.of_nat (length key) -> sliceFrom (key ++ data) n = data.
Proof. intros ->. unfold sliceFrom. by rewrite Nat2Z.id, drop_app_length. Qed.

(** The search of [findEntry] ends at the position of the entry looked up,
    and the value found is the one written for it. *)
Lemma built_findEntry (idx : indexV2.indexV2) (q : nat) (it : Info) :
  indexV2.openV2PackIndex file = Ok idx ->
  infos !! q = Some it ->
  exists data,
    indexV2.findEntry contentIDToBytes greaterOrEqual unknownKeySize idx
      (GetContentID it) = Ok (Some data)
    /\ writeIndexValueEntry b2 it = Ok data
    /\ Z.of_nat (length data) = entrySize b2.
Proof.
  intros Hopen Hq.
  destruct built_open as (idx' & Hopen' & Hreader & Hks & _ & Hcount & _).
  rewrite Hopen in Hopen'. injection Hopen' as <-.
  destruct (built_entry_at idx q it Hopen Hq) as (data & Hread & Hkl & Hw & Hdl).
  exists data. split_and!; try done.
  unfold indexV2.findEntry, index.len. rewrite Hks, Hkl.
  destruct (Z.eqb_spec (keyLength b2) unknownKeySize); [done|].
  rewrite Z.eqb_refl. cbn [negb].
  assert (Hq' : (q < length infos)%nat) by (by eapply lookup_lt_Some).
  assert (Hpos : indexV2.findEntryPositionExact greaterOrEqual idx
                   (contentIDToBytes (GetContentID it)) = Ok (Z.of_nat q)).
  { unfold indexV2.findEntryPositionExact. rewrite Hcount.
    apply Search_threshold; [lia|].
    intros h Hh.
    destruct (lookup_lt_is_Some_2 infos (Z.to_nat h) ltac:(lia)) as [it' Hit'].
    destruct (built_entry_at idx (Z.to_nat h) it' Hopen Hit')
      as (data' & Hread' & Hkl' & _).
    rewrite Z2Nat.id in Hread' by lia. rewrite Hread', Hks.
    rewrite sliceRange_key by done. f_equal.
    pose proof (Hsorted (Z.to_nat h) q (contentIDToBytes (GetContentID it'))
                  (contentIDToBytes (GetContentID it))) as Hord.
    rewrite !list_lookup_fmap, Hit', Hq in Hord.
    specialize (Hord eq_refl eq_refl).
    destruct (greaterOrEqual _ _); destruct (bool_decide_reflect (Z.of_nat q <= h));
      try done.
    - exfalso. assert (q <= Z.to_nat h)%nat by (by apply Hord). lia.
    - exfalso. assert (true = false -> False) by done.
      assert (false = true) by (apply Hord; lia). done. }
  rewrite Hpos. simpl.
  rewrite Hcount. destruct (Z.leb_spec (Z.of_nat (length infos)) (Z.of_nat q)); [lia|].
  rewrite Hread. rewrite sliceRange_key, sliceFrom_key by done.
  by rewrite bool_decide_eq_true_2.
Qed.

(** The format an entry names by its number is the format of the entry
    written. *)
Lemma built_format (idx : indexV2.indexV2) (it : Info) (fidx : Z) :
  indexV2.openV2PackIndex file = Ok idx ->
  it ∈ infos ->
  uniqueFormatInfo2Index b2 !! indexV2FormatInfoFromInfo it = Some fidx ->
  0 <= fidx < index.len (indexV2.formats idx)
  /\ indexV2.formats idx !! Z.to_nat fidx = Some (indexV2FormatInfoFromInfo it).
Proof.
  intros Hopen Hit Hfidx.
  destruct built_open as (idx' & Hopen' & _ & _ & _ & _ & _ & _ & _ & _ & _ & _ & Hfmts).
  rewrite Hopen in Hopen'. injection Hopen' as <-.
  destruct built_builder as (_ & _ & _ & _ & _ & _ & _ & _ & _ & _ & Hnf).
  pose proof (proj1 Hnf _ _ Hfidx) as Hlt.
  rewrite Hfmts. unfold index.len. rewrite parseFormatsBuffer_length. split; [done|].
  rewrite <- (reverseIndex_length (mkFormatInfo 0 0 0) (uniqueFormatInfo2Index b2)).
  apply parseFormatsBuffer_lookup.
  - by apply reverseIndex_lookup.
  - rewrite Forall_forall in Hrange. destruct (Hrange it Hit) as (_ & _ & _ & _ & Hc & _).
    done.
Qed.

(** The pack blob an entry names by its number is the pack blob of the
    entry written: the name is read back from the extra data. *)
Lemma built_pack (idx : indexV2.indexV2) (it : Info) (pidx : Z) :
  indexV2.openV2PackIndex file = Ok idx ->
  it ∈ infos ->
  Z.of_nat (String.length (GetPackBlobID it)) < 256 ->
  packID2Index b2 !! GetPackBlobID it = Some pidx ->
  indexV2.getPackBlobIDByIndex idx pidx = GetPackBlobID it.
Proof.
  intros Hopen Hit Hname Hpidx.
  destruct built_open
    as (idx' & Hopen' & Hreader & _ & _ & _ & Hpc & _ & _ & _ & _ & Hpo & _).
  rewrite Hopen in Hopen'. injection Hopen' as <-.
  destruct built_builder as (Hoffs & _ & _ & _ & _ & _ & _ & Hrg & _ & Hnp & _).
  destruct built_sizes as (H1 & H2 & H3 & H4 & Hedo).
  pose proof (proj1 Hnp _ _ Hpidx) as Hlt.
  assert (0 <= Z.of_nat (length infos) * stride) by nia.
  destruct (prepareExtraData_spec b0 b2 infos extraData Hoffs Hprep)
    as (_ & _ & _ & _ & _ & _ & _ & Hnone & Hsome).
  unfold indexV2.getPackBlobIDByIndex. rewrite Hpc, Hreader, Hpo.
  unfold wrapU32, v2PackInfoSize.
  rewrite (Z.mod_small (Z.of_nat (size (packID2Index b2)))) by lia.
  rewrite (Z.mod_small (5 * pidx)) by lia.
  destruct (Z.leb_spec (Z.of_nat (size (packID2Index b2))) pidx); [lia|].
  assert (Hbuf : indexV2.readAtAll file 5
                   (17 + Z.of_nat (length infos) * stride + 5 * pidx)
                 = Ok (writePackIDEntry b2 (GetPackBlobID it))).
  { unfold indexV2.readAtAll, index.len.
    replace (0 <=? _) with true by (symmetry; apply Z.leb_le; lia).
    replace ((5 =? 0) || _) with true
      by (symmetry; apply orb_true_iff; right; apply Z.leb_le; lia).
    cbn [andb]. f_equal.
    replace (Z.to_nat (17 + Z.of_nat (length infos) * stride + 5 * pidx))
      with (length (v2Header b2 ++ concat vals) + Z.to_nat pidx * 5)%nat
      by (rewrite length_app, H1, v2Header_length; lia).
    rewrite Hfile, (app_assoc (v2Header b2)), drop_app_add' by done.
    change (Z.to_nat 5) with 5%nat.
    apply take_block.
    - by apply Forall_fmap, Forall_true.
    - rewrite list_lookup_fmap, (reverseIndex_lookup _ _ (GetPackBlobID it)); done. }
  rewrite Hbuf. unfold writePackIDEntry, byteAt, sliceFrom.
  eval_ground. cbn [nth drop]. rewrite drop_0.
  rewrite <- (app_nil_r (PutUint32 _)), Uint32_PutUint32.
  unfold wrapU8, wrapU32. change (2 ^ 8) with 256.
  rewrite (Z.mod_small (Z.of_nat _) 256) by lia.
  rewrite Z.mod_mod by lia.
  destruct (String.eqb_spec (GetPackBlobID it) "") as [Hnil|Hne].
  - assert (Hnone' : packBlobIDOffsets b2 !! GetPackBlobID it = None)
      by (rewrite Hnil; exact Hnone).
    rewrite Hnone', Hnil. cbn [default from_option id String.length].
    rewrite Z.add_0_l, Z.mod_small by lia.
    unfold indexV2.readAtAll. change (Z.of_nat 0 =? 0) with true.
    replace (0 <=? extraDataOffset b2) with true by (symmetry; apply Z.leb_le; lia).
    done.
  - destruct (Hsome it Hit Hne) as (o & Ho & Htake & Hle).
    rewrite Ho. cbn [default from_option id]. unfold wrapU32.
    rewrite (Z.mod_small (Z.of_nat o)) by lia.
    rewrite Z.mod_small by lia.
    unfold indexV2.readAtAll, index.len.
    replace (0 <=? _) with true by (symmetry; apply Z.leb_le; lia).
    replace (_ || _) with true
      by (symmetry; apply orb_true_iff; right; apply Z.leb_le; lia).
    cbn [andb]. rewrite Nat2Z.id.
    replace (Z.to_nat (Z.of_nat o + extraDataOffset b2))
      with (length (v2Header b2 ++ concat vals ++ packTable ++ formatTable) + o)%nat
      by (rewrite !length_app, H1, H2, H3, v2Header_length; lia).
    rewrite Hfile.
    replace (v2Header b2 ++ concat vals ++ packTable ++ formatTable ++ extraData)
      with ((v2Header b2 ++ concat vals ++ packTable ++ formatTable) ++ extraData)
      by (by rewrite <- !app_assoc).
    rewrite drop_app_add' by done. rewrite Htake.
    by rewrite stringOf_bytesOf.
Qed.

Lemma built_same_write (it : Info) :
  writeIndexValueEntry b2 it = writeIndexValueEntry b0 it.
Proof.
  destruct built_builder as (Hoffs & Hkl & Hes & Hcnt & Hfm & Hpm & Hbt & _).
  unfold writeIndexValueEntry. by rewrite Hes, Hfm, Hpm, Hbt,
    (proj1 (proj2 (proj2 (proj2 (newIndexBuilderV2_inv _ _ _ Hb0))))).
Qed.

(** The getters of the entry that holds the bytes written for an entry
    give back what was written. *)
Lemma built_entry_fields (idx : indexV2.indexV2) (it : Info) (data : list Z) :
  indexV2.openV2PackIndex file = Ok idx ->
  it ∈ infos ->
  Z.of_nat (String.length (GetPackBlobID it)) < 256 ->
  writeIndexValueEntry b2 it = Ok data ->
  16 <= Z.of_nat (length data)
  /\ sameFields it (indexV2.mkEntryInfo data (GetContentID it) idx).
Proof.
  intros Hopen Hit Hname Hw.
  destruct built_open as (idx' & Hopen' & _ & _ & _ & _ & _ & _ & Hbase & _).
  rewrite Hopen in Hopen'. injection Hopen' as <-.
  destruct built_builder as (_ & _ & Hes & _ & Hfm & Hpm & _ & Hrg & _).
  pose proof (proj1 (Forall_forall _ _) Hrange) as Hr.
  destruct (entry_codec contentIDToBytes infos b0 it idx (GetContentID it)
              Hb0 Hit (Hr it Hit))
    as (data' & Hw' & Hlen & Hts & Hdel & Hoff & Hol & Hpl & Hf & Hp).
  rewrite built_same_write, Hw' in Hw. injection Hw as ->.
  split; [lia|].
  rewrite <- Hfm in Hf. rewrite <- Hpm in Hp.
  destruct (built_format idx it _ Hopen Hit Hf) as (Hfr & Hfl).
  unfold sameFields. split_and!; try done.
  - rewrite Hts, Hbase. lia.
  - unfold indexV2.GetPackBlobID. cbn [indexV2.b]. by apply built_pack.
  - unfold indexV2.GetFormatVersion, indexV2.formatOf. cbn [indexV2.b].
    destruct (Z.ltb_spec (index.len (indexV2.formats idx))
                (indexV2.formatIDIndex (indexV2.mkEntryInfo data (GetContentID it) idx)));
      [lia|]. by rewrite Hfl.
  - unfold indexV2.GetCompressionHeaderID, indexV2.formatOf. cbn [indexV2.b].
    destruct (Z.ltb_spec (index.len (indexV2.formats idx))
                (indexV2.formatIDIndex (indexV2.mkEntryInfo data (GetContentID it) idx)));
      [lia|]. by rewrite Hfl.
  - unfold indexV2.GetEncryptionKeyID, indexV2.formatOf. cbn [indexV2.b].
    destruct (Z.ltb_spec (index.len (indexV2.formats idx))
                (indexV2.formatIDIndex (indexV2.mkEntryInfo data (GetContentID it) idx)));
      [lia|]. by rewrite Hfl.
Qed.

(** Looking up a content that was written gives an entry whose getters
    give back what was written. *)
Lemma built_GetInfo (idx : indexV2.indexV2) (it : Info) :
  indexV2.openV2PackIndex file = Ok idx ->
  it ∈ infos ->
  Z.of_nat (String.length (GetPackBlobID it)) < 256 ->
  exists e,
    indexV2.GetInfo contentIDToBytes greaterOrEqual unknownKeySize idx
      (GetContentID it) = Ok (Some e)
    /\ sameFields it e.
Proof.
  intros Hopen Hit Hname.
  pose proof Hit as Hit'. apply list_elem_of_lookup in Hit' as [q Hq].
  destruct (built_findEntry idx q it Hopen Hq) as (data & Hfind & Hw & Hlen).
  destruct (built_entry_fields idx it data Hopen Hit Hname Hw) as (Hmin & Hsame).
  exists (indexV2.mkEntryInfo data (GetContentID it) idx). split; [|done].
  unfold indexV2.GetInfo. rewrite Hfind. simpl.
  unfold indexV2.entryToInfo, index.len, v2EntryMinLength, v2EntryOffsetFormatID.
  by destruct (Z.ltb_spec (Z.of_nat (length data)) 16); [lia|].
Qed.

(** Looking up a content that was not written gives nothing: whatever
    the comparison of keys says, the entry the search ends at has another
    key. *)
Lemma built_absent (idx : indexV2.indexV2) (cid : ID) :
  indexV2.openV2PackIndex file = Ok idx ->
  Z.of_nat (length (contentIDToBytes cid)) = keyLength b2 ->
  (forall it, it ∈ infos -> contentIDToBytes (GetContentID it) <> contentIDToBytes cid) ->
  indexV2.GetInfo contentIDToBytes greaterOrEqual unknownKeySize idx cid = Ok None.
Proof.
  intros Hopen Hlen Habsent.
  destruct built_open as (idx' & Hopen' & Hreader & Hks & _ & Hcount & _).
  rewrite Hopen in Hopen'. injection Hopen' as <-.
  unfold indexV2.GetInfo, indexV2.findEntry, index.len. rewrite Hks, Hlen.
  destruct (Z.eqb_spec (keyLength b2) unknownKeySize); [done|].
  rewrite Z.eqb_refl. cbn [negb].
  destruct (Search_range (indexV2.entryCount (indexV2.hdr idx))
              (fun p =>
                 match indexV2.readAtAll (indexV2.readerAt idx)
                         (indexV2.entryStride (indexV2.hdr idx))
                         (indexV2.entryOffset idx p) with
                 | Err e => Err e
                 | Ok entryBuf =>
                     Ok (greaterOrEqual
                           (sliceRange entryBuf 0 (indexV2.keySize (indexV2.hdr idx)))
                           (contentIDToBytes cid))
                 end)) as (p & Hp & Hpr).
  { rewrite Hcount. lia. }
  { intros h Hh. rewrite Hcount in Hh.
    destruct (lookup_lt_is_Some_2 infos (Z.to_nat h) ltac:(lia)) as [it' Hit'].
    destruct (built_entry_at idx (Z.to_nat h) it' Hopen Hit') as (data' & Hread' & _).
    rewrite Z2Nat.id in Hread' by lia. rewrite Hread'. eauto. }
  unfold indexV2.findEntryPositionExact. rewrite Hp. simpl.
  rewrite Hcount in Hpr |- *.
  destruct (Z.leb_spec (Z.of_nat (length infos)) p); [done|].
  destruct (lookup_lt_is_Some_2 infos (Z.to_nat p) ltac:(lia)) as [it' Hit'].
  destruct (built_entry_at idx (Z.to_nat p) it' Hopen Hit')
    as (data' & Hread' & Hkl' & _).
  rewrite Z2Nat.id in Hread' by lia. rewrite Hread'.
  rewrite sliceRange_key by done.
  rewrite bool_decide_eq_false_2; [done|].
  apply Habsent. by eapply list_elem_of_lookup_2.
Qed.

Variable bytesToContentID : list Z -> ID.
Context {State : Type}.
Variable cb : State -> indexV2.indexV2EntryInfo -> State * option error.

Hypothesis Hback : forall it, it ∈ infos ->
  bytesToContentID (contentIDToBytes (GetContentID it)) = GetContentID it.
Hypothesis Hids : idsIncrease infos.
Hypothesis Hnames : Forall packNameFits infos.

(** A property of positions that holds of every position before one it
    holds of, holds up to a threshold. *)
Lemma prefix_threshold (p : nat -> bool) (n : nat) :
  (forall i j, (i < j < n)%nat -> p j = true -> p i = true) ->
  exists t, (t <= n)%nat /\ forall i, (i < n)%nat -> (p i = true <-> (i < t)%nat).
Proof.
  induction n as [|n IH]; intros Hp.
  - exists 0%nat. split; [done|]. intros i Hi. lia.
  - destruct IH as (t & Ht & Hiff).
    { intros i j Hij. apply Hp. lia. }
    destruct (p n) eqn:Hn.
    + exists (S n). split; [done|]. intros i Hi. split; [done|]. intros _.
      destruct (decide (i = n)) as [->|Hne]; [done|].
      apply (Hp i n); [lia|done].
    + exists t. split; [lia|]. intros i Hi.
      destruct (decide (i = n)) as [->|Hne].
      * rewrite Hn. split; [done|lia].
      * apply Hiff. lia.
Qed.

(** The entries written whose content ID is before a given one are those
    before the position [findEntryPosition] finds. *)
Lemma built_findEntryPosition (idx : indexV2.indexV2) (start : ID) :
  indexV2.openV2PackIndex file = Ok idx ->
  exists t : nat,
    (t <= length infos)%nat
    /\ indexV2.findEntryPosition bytesToContentID idx start = Ok (Z.of_nat t)
    /\ forall i it, infos !! i = Some it ->
         (strLess (GetContentID it) start = true <-> (i < t)%nat).
Proof.
  intros Hopen.
  destruct built_open as (idx' & Hopen' & Hreader & Hks & _ & Hcount & _).
  rewrite Hopen in Hopen'. injection Hopen' as <-.
  destruct (prefix_threshold
              (fun i => match infos !! i with
                        | Some it => strLess (GetContentID it) start
                        | None => false
                        end) (length infos)) as (t & Ht & Hiff).
  { intros i j Hij.
    destruct (lookup_lt_is_Some_2 infos i ltac:(lia)) as [a Ha].
    destruct (lookup_lt_is_Some_2 infos j ltac:(lia)) as [b Hb].
    rewrite Ha, Hb. intros Hlt.
    eapply StringOrder.strLess_trans; [|exact Hlt].
    apply (Hids i j a b Ha Hb). lia. }
  exists t. split; [done|].
  assert (Hiff' : forall i it, infos !! i = Some it ->
            (strLess (GetContentID it) start = true <-> (i < t)%nat)).
  { intros i it Hi. specialize (Hiff i ltac:(by eapply lookup_lt_Some)).
    by rewrite Hi in Hiff. }
  split; [|done].
  unfold indexV2.findEntryPosition. rewrite Hcount.
  apply Search_threshold; [lia|].
  intros h Hh.
  destruct (lookup_lt_is_Some_2 infos (Z.to_nat h) ltac:(lia)) as [it' Hit'].
  destruct (built_entry_at idx (Z.to_nat h) it' Hopen Hit')
    as (data' & Hread' & Hkl' & _).
  rewrite Z2Nat.id in Hread' by lia. rewrite Hread', Hks.
  rewrite sliceRange_key by done. f_equal.
  rewrite Hback by (by eapply list_elem_of_lookup_2).
  pose proof (Hiff' _ _ Hit') as Hi.
  destruct (strLess (GetContentID it') start);
    destruct (bool_decide_reflect (Z.of_nat t <= h)); try done.
  - exfalso. assert (Z.to_nat h < t)%nat by (by apply Hi). lia.
  - exfalso. assert (false = true) by (apply Hi; lia). done.
Qed.

Lemma drop_cons_lookup {A} (l : list A) (i : nat) (x : A) (l' : list A) :
  drop i l = x :: l' -> l !! i = Some x /\ drop (S i) l = l'.
Proof.
  intros Hd.
  assert (Hx : l !! i = Some x).
  { rewrite <- (Nat.add_0_r i), <- lookup_drop. by rewrite Hd. }
  split; [done|]. rewrite (drop_S _ _ _ Hx) in Hd. by injection Hd.
Qed.

Lemma filter_none {A} (f : A -> bool) (l : list A) :
  Forall (fun x => f x = false) l -> List.filter f l = [].
Proof. induction 1 as [|x l Hx _ IH]; simpl; [done|]. by rewrite Hx. Qed.

(** The entry that holds what was written for an entry of the input. *)
Lemma built_written (idx : indexV2.indexV2) (it : Info) :
  indexV2.openV2PackIndex file = Ok idx ->
  it ∈ infos ->
  exists data,
    writeIndexValueEntry b2 it = Ok data
    /\ writtenEntry b2 idx it = indexV2.mkEntryInfo data (GetContentID it) idx
    /\ 16 <= Z.of_nat (length data)
    /\ sameFields it (writtenEntry b2 idx it).
Proof.
  intros Hopen Hit.
  pose proof Hit as Hit'. apply list_elem_of_lookup in Hit' as [q Hq].
  destruct built_entries as (_ & _ & Hentry).
  destruct (Hentry q it Hq) as (data & _ & _ & Hw & _).
  pose proof (proj1 (Forall_forall _ _) Hnames it Hit) as Hname.
  destruct (built_entry_fields idx it data Hopen Hit Hname Hw) as (Hmin & Hsame).
  exists data. unfold writtenEntry. rewrite Hw. done.
Qed.

(** The loop of [Iterate], from a position on: it visits the entries
    written from there on whose content ID is in the range. *)
Lemma built_iterateFrom (idx : indexV2.indexV2) (r : indexV2.IDRange) :
  indexV2.openV2PackIndex file = Ok idx ->
  forall (l : list Info) (i : nat) (s : State),
    drop i infos = l ->
    Forall (fun it => strLess (GetContentID it) (indexV2.StartID r) = false) l ->
    indexV2.iterateFrom bytesToContentID cb idx r (length l) (Z.of_nat i) s
    = visitAll cb s
        (writtenEntry b2 idx
           <$> List.filter (fun it => inIDRange r (GetContentID it)) l).
Proof.
  intros Hopen.
  destruct built_open as (idx' & Hopen' & Hreader & Hks & _ & Hcount & _).
  rewrite Hopen in Hopen'. injection Hopen' as <-.
  induction l as [|it l IH]; intros i s Hdrop Hstart; [done|].
  apply drop_cons_lookup in Hdrop as [Hi Hdrop].
  apply Forall_cons in Hstart as [Hit_start Hstart].
  assert (Hit : it ∈ infos) by (by eapply list_elem_of_lookup_2).
  destruct (built_entry_at idx i it Hopen Hi) as (data & Hread & Hkl & Hw & Hdl).
  destruct (built_written idx it Hopen Hit) as (data' & Hw' & Hwe & Hmin & _).
  rewrite Hw in Hw'. injection Hw' as <-.
  cbn [length indexV2.iterateFrom List.filter]. rewrite Hread, Hks.
  rewrite sliceRange_key, sliceFrom_key by done. cbv zeta.
  rewrite (Hback it Hit).
  unfold inIDRange at 1. rewrite Hit_start. cbn [negb andb].
  destruct (strLess (GetContentID it) (indexV2.EndID r)) eqn:Hend; cbn [negb].
  - unfold indexV2.entryToInfo, index.len, v2EntryMinLength, v2EntryOffsetFormatID.
    destruct (Z.ltb_spec (Z.of_nat (length data)) 16); [lia|].
    cbn [fmap list_fmap visitAll]. rewrite Hwe.
    destruct (cb s _) as [s' [err|]]; [done|].
    replace (Z.of_nat i + 1) with (Z.of_nat (S i)) by lia.
    by apply IH.
  - rewrite filter_none; [done|].
    apply Forall_forall. intros it' Hit'.
    apply list_elem_of_lookup in Hit' as [j Hj].
    rewrite <- Hdrop, lookup_drop in Hj.
    assert (Hlt : strLess (GetContentID it) (GetContentID it') = true).
    { apply (Hids i (S i + j)%nat it it' Hi Hj). lia. }
    unfold inIDRange.
    destruct (strLess (GetContentID it') (indexV2.EndID r)) eqn:Hend';
      [|by rewrite andb_false_r].
    by rewrite (StringOrder.strLess_trans _ _ _ Hlt Hend') in Hend.
Qed.

Lemma filter_fmap_written (idx : indexV2.indexV2) (f : ID -> bool) (l : list Info) :
  List.filter (fun e => f (indexV2.GetContentID e)) (writtenEntry b2 idx <$> l)
  = writtenEntry b2 idx <$> List.filter (fun it => f (GetContentID it)) l.
Proof.
  induction l as [|it l IH]; [done|]. cbn [fmap list_fmap List.filter].
  change (indexV2.GetContentID (writtenEntry b2 idx it)) with (GetContentID it).
  destruct (f (GetContentID it)); cbn [fmap list_fmap]; by rewrite <- IH.
Qed.

(** [Iterate] over a range visits the entries written whose content ID is
    in the range, in their order. *)
Lemma built_Iterate (idx : indexV2.indexV2) (r : indexV2.IDRange) (s : State) :
  indexV2.openV2PackIndex file = Ok idx ->
  indexV2.Iterate bytesToContentID cb idx r s
  = visitAll cb s
      (List.filter (fun e => inIDRange r (indexV2.GetContentID e))
         (writtenEntry b2 idx <$> infos)).
Proof.
  intros Hopen.
  destruct built_open as (idx' & Hopen' & Hreader & Hks & _ & Hcount & _).
  rewrite Hopen in Hopen'. injection Hopen' as <-.
  destruct (built_findEntryPosition idx (indexV2.StartID r) Hopen)
    as (t & Ht & Hpos & Hiff).
  unfold indexV2.Iterate. rewrite Hpos, Hcount.
  replace (Z.to_nat (Z.of_nat (length infos) - Z.of_nat t))
    with (length (drop t infos)) by (rewrite length_drop; lia).
  rewrite (built_iterateFrom idx r Hopen (drop t infos) t s eq_refl).
  - rewrite filter_fmap_written. f_equal. f_equal.
    rewrite <- (take_drop t infos) at 2. rewrite List.filter_app.
    rewrite (filter_none _ (take t infos)); [done|].
    apply Forall_forall. intros it Hit.
    apply list_elem_of_lookup in Hit as [i Hi].
    pose proof (lookup_lt_Some _ _ _ Hi) as Hlt. rewrite length_take in Hlt.
    rewrite lookup_take_lt in Hi by lia.
    unfold inIDRange. by rewrite (proj2 (Hiff i it Hi)) by lia.
  - apply Forall_forall. intros it Hit.
    apply list_elem_of_lookup in Hit as [j Hj]. rewrite lookup_drop in Hj.
    pose proof (Hiff _ _ Hj) as Hi.
    destruct (strLess (GetContentID it) (indexV2.StartID r)); [|done].
    assert (t + j < t)%nat by (by apply Hi). lia.
Qed.

End built.

End BuiltIndex.

Module BuildOpenLookup.
Import index IndexV2Spec IterateSpec IndexBuilderV2 BuilderInv BuildLayout BuiltIndex.

Section lookup.
Variable contentIDToBytes : ID -> list Z.
Variable greaterOrEqual : list Z -> list Z -> bool.
Variable unknownKeySize : Z.

(** What a successful build gives the lemmas on the file built. *)
Lemma buildV2_built (infos : list Info) (file : list Z) :
  buildV2 contentIDToBytes infos = (file, Ok tt) ->
  Forall (keyFits contentIDToBytes unknownKeySize) infos ->
  exists b0 b2 extraData vals,
    newIndexBuilderV2 contentIDToBytes infos = Ok b0
    /\ prepareExtraData b0 infos = (b2, extraData)
    /\ 1 < keyLength b2
    /\ Forall2 (fun it v => writeIndexEntry contentIDToBytes b2 it = Ok v) infos vals
    /\ file = v2Header b2 ++ concat vals
              ++ concat (writePackIDEntry b2 <$> reverseIndex ""%string (packID2Index b2))
              ++ concat (writeFormatInfoEntry
                           <$> reverseIndex (mkFormatInfo 0 0 0)
                                 (uniqueFormatInfo2Index b2))
              ++ extraData
    /\ keyLength b2 + entrySize b2 <= 256
    /\ keyLength b2 <> unknownKeySize
    /\ forall it, it ∈ infos ->
         len (contentIDToBytes (GetContentID it)) = keyLength b2.
Proof.
  intros Hbuild Hfits.
  destruct (buildV2_layout contentIDToBytes infos file Hbuild)
    as (b0 & b2 & extraData & vals & Hb0 & Hprep & Hkey & Hvals & Hfile).
  exists b0, b2, extraData, vals. split_and!; try done.
  all: destruct (newIndexBuilderV2_inv contentIDToBytes infos b0 Hb0)
         as (Hoffs & _ & _ & _ & _ & _ & Hkl & _ & _ & _ & Hes & _).
  all: destruct (prepareExtraData_spec b0 b2 infos extraData Hoffs Hprep)
         as (Hkl2 & Hes2 & _).
  all: destruct infos as [|first rest]; [lia|].
  all: apply Forall_cons in Hfits as [[Hfit Hne] _].
  all: unfold len, v2EntryMaxLength, indexV2.v2MaxEntrySize in *.
  - lia.
  - lia.
  - intros it Hit. apply list_elem_of_lookup in Hit as [i Hi].
    destruct (Forall2_lookup_l _ _ _ _ _ Hvals Hi) as (v & _ & Hw).
    by apply writeIndexEntry_Ok in Hw as [Hlen _].
Qed.

(** X15.  An index written by [buildV2] and opened by [openV2PackIndex]
    holds what was written: the file opens, and [GetInfo] of the content
    ID of any entry written gives an entry whose getters return the fields
    of the entry written (the timestamp within 32 bits).  The entries are
    in the order of their keys, the fields within the ranges of their Go
    types, and the file is shorter than 4 GiB. *)
Theorem buildV2_open_GetInfo (infos : list Info) (file : list Z) :
  buildV2 contentIDToBytes infos = (file, Ok tt) ->
  Forall inRange infos ->
  Forall packNameFits infos ->
  Forall (keyFits contentIDToBytes unknownKeySize) infos ->
  keysInOrder greaterOrEqual
    ((fun it => contentIDToBytes (GetContentID it)) <$> infos) ->
  len file < 2 ^ 32 ->
  exists idx,
    indexV2.openV2PackIndex file = Ok idx
    /\ indexV2.ApproximateCount idx = len infos
    /\ forall it, it ∈ infos ->
         exists e,
           indexV2.GetInfo contentIDToBytes greaterOrEqual unknownKeySize idx
             (GetContentID it) = Ok (Some e)
           /\ indexV2.GetContentID e = GetContentID it
           /\ indexV2.GetTimestampSeconds e = GetTimestampSeconds it mod 2 ^ 32
           /\ indexV2.GetDeleted e = GetDeleted it
           /\ indexV2.GetPackBlobID e = GetPackBlobID it
           /\ indexV2.GetPackOffset e = GetPackOffset it
           /\ indexV2.GetOriginalLength e = GetOriginalLength it
           /\ indexV2.GetPackedLength e = GetPackedLength it
           /\ indexV2.GetFormatVersion e = Ok (GetFormatVersion it)
           /\ indexV2.GetCompressionHeaderID e = Ok (GetCompressionHeaderID it)
           /\ indexV2.GetEncryptionKeyID e = Ok (GetEncryptionKeyID it).
Proof.
  intros Hbuild Hrange Hnames Hfits Hsorted Hsize.
  destruct (buildV2_built infos file Hbuild Hfits)
    as (b0 & b2 & extraData & vals & Hb0 & Hprep & Hkey & Hvals & Hfile & Hstride
        & Hunknown & _).
  destruct (built_open contentIDToBytes infos file b0 b2 extraData vals
              Hb0 Hprep Hkey Hvals Hfile Hrange Hsize Hstride)
    as (idx & Hopen & _ & _ & _ & Hcount & _).
  exists idx. split_and!; [done|done|].
  intros it Hit.
  apply (built_GetInfo contentIDToBytes infos file b0 b2 extraData vals
           Hb0 Hprep Hkey Hvals Hfile Hrange Hsize Hstride
           greaterOrEqual unknownKeySize Hsorted Hunknown idx it Hopen Hit).
  rewrite Forall_forall in Hnames. by apply Hnames.
Qed.

(** X16.  The index built holds nothing else: [GetInfo] of a content ID
    whose key is not the key of an entry written gives nil when the key has
    the length of the keys written, and the error of an invalid content ID
    when it has another length; this whatever the comparison of keys
    says. *)
Theorem buildV2_open_GetInfo_absent (infos : list Info) (file : list Z)
    (it0 : Info) (cid : ID) :
  buildV2 contentIDToBytes infos = (file, Ok tt) ->
  Forall inRange infos ->
  Forall (keyFits contentIDToBytes unknownKeySize) infos ->
  len file < 2 ^ 32 ->
  it0 ∈ infos ->
  (forall it, it ∈ infos -> contentIDToBytes (GetContentID it) <> contentIDToBytes cid) ->
  exists idx,
    indexV2.openV2PackIndex file = Ok idx
    /\ indexV2.GetInfo contentIDToBytes greaterOrEqual unknownKeySize idx cid
       = if len (contentIDToBytes cid) =? len (contentIDToBytes (GetContentID it0))
         then Ok None
         else Err (ErrNew "invalid content ID").
Proof.
  intros Hbuild Hrange Hfits Hsize Hit0 Habsent.
  destruct (buildV2_built infos file Hbuild Hfits)
    as (b0 & b2 & extraData & vals & Hb0 & Hprep & Hkey & Hvals & Hfile & Hstride
        & Hunknown & Hlens).
  destruct (built_open contentIDToBytes infos file b0 b2 extraData vals
              Hb0 Hprep Hkey Hvals Hfile Hrange Hsize Hstride)
    as (idx & Hopen & _ & Hks & _).
  exists idx. split; [done|]. rewrite (Hlens it0 Hit0).
  destruct (Z.eqb_spec (len (contentIDToBytes cid)) (keyLength b2)) as [Heq|Hne].
  - by apply (built_absent contentIDToBytes infos file b0 b2 extraData vals
             Hb0 Hprep Hkey Hvals Hfile Hrange Hsize Hstride
             greaterOrEqual unknownKeySize Hunknown idx cid Hopen).
  - unfold indexV2.GetInfo, indexV2.findEntry. rewrite Hks.
    destruct (Z.eqb_spec (keyLength b2) unknownKeySize); [done|].
    destruct (Z.eqb_spec (len (contentIDToBytes cid)) (keyLength b2)); [done|].
    done.
Qed.

End lookup.

Section iterate.
Variable contentIDToBytes : ID -> list Z.
Variable bytesToContentID : list Z -> ID.

(** X17.  [Iterate] over an index written by [buildV2] and opened by
    [openV2PackIndex] calls the callback on the entries written whose
    content ID is in the range, from [StartID] on and before [EndID], in
    the order they were written and until the callback fails; the entries
    it hands over have the fields of the entries written.  The content IDs
    written increase, and are read back from their keys. *)
Theorem buildV2_open_Iterate (infos : list Info) (file : list Z) :
  buildV2 contentIDToBytes infos = (file, Ok tt) ->
  Forall inRange infos ->
  Forall packNameFits infos ->
  Forall (fun it => len (contentIDToBytes (GetContentID it)) + v2EntryMaxLength
                    <= indexV2.v2MaxEntrySize) infos ->
  (forall it, it ∈ infos ->
     bytesToContentID (contentIDToBytes (GetContentID it)) = GetContentID it) ->
  idsIncrease infos ->
  len file < 2 ^ 32 ->
  exists idx es,
    indexV2.openV2PackIndex file = Ok idx
    /\ Forall2 sameFields infos es
    /\ forall (State : Type)
          (cb : State -> indexV2.indexV2EntryInfo -> State * option error)
          (r : indexV2.IDRange) (s : State),
         indexV2.Iterate bytesToContentID cb idx r s
         = visitAll cb s
             (List.filter (fun e => inIDRange r (indexV2.GetContentID e)) es).
Proof.
  intros Hbuild Hrange Hnames Hkeys Hback Hids Hsize.
  assert (Hfits : Forall (keyFits contentIDToBytes (-1)) infos).
  { apply Forall_forall. intros it Hit. split.
    - by apply (proj1 (Forall_forall _ _) Hkeys).
    - unfold len. lia. }
  destruct (buildV2_built contentIDToBytes (-1) infos file Hbuild Hfits)
    as (b0 & b2 & extraData & vals & Hb0 & Hprep & Hkey & Hvals & Hfile & Hstride
        & _ & _).
  destruct (built_open contentIDToBytes infos file b0 b2 extraData vals
              Hb0 Hprep Hkey Hvals Hfile Hrange Hsize Hstride)
    as (idx & Hopen & _).
  exists idx, (writtenEntry b2 idx <$> infos). split_and!; [done| |].
  - apply Forall2_fmap_r, Forall_Forall2_diag, Forall_forall. intros it Hit.
    by destruct (built_written contentIDToBytes infos file b0 b2 extraData vals
                   Hb0 Hprep Hkey Hvals Hfile Hrange Hsize Hstride Hnames
                   idx it Hopen Hit) as (data & _ & _ & _ & Hsame).
  - intros State cb r s.
    by apply (built_Iterate contentIDToBytes infos file b0 b2 extraData vals
                Hb0 Hprep Hkey Hvals Hfile Hrange Hsize Hstride
                bytesToContentID cb Hback Hids Hnames idx r s Hopen).
Qed.

End iterate.

End BuildOpenLookup.

(** ** Pack index v2: the build and its writer *)

Module BuildWriter.
Import index IndexV2Spec BuildWriterSpec BuildLayout.

Lemma Wrap_Err {A} (e : error) (msg : string) :
  exists e', Wrap (Err e : result A) msg = Err e'.
Proof. destruct e; simpl; eauto. Qed.

Section writer.
Variable contentIDToBytes : ID -> list Z.
Context {Writer : Type}.
Variable Write : Writer -> list Z -> Writer * option error.
Variable Flush : Writer -> Writer * option error.

Abbreviation acceptsAll := (acceptsAll Write).
Abbreviation okEntry b :=
  (fun it : Info =>
     len (contentIDToBytes (GetContentID it)) = keyLength b
     /\ exists d, writeIndexValueEntry b it = Ok d).

Lemma acceptsAll_app (w : Writer) (a b : list (list Z)) :
  acceptsAll w (a ++ b)
  = match acceptsAll w a with
    | Some w' => acceptsAll w' b
    | None => None
    end.
Proof.
  revert w. induction a as [|p a IH]; intros w; simpl; [done|].
  destruct (Write w p) as [w1 [e|]]; [done|]. apply IH.
Qed.

(** The loop over the entries succeeds exactly when every key has the
    length of the builder, no value meets the panic, and the writer takes
    every key and value. *)
Lemma writeEntriesTo_Ok (b : indexBuilderV2) (infos : list Info) :
  forall w w',
    writeEntriesTo contentIDToBytes Write w b infos = (w', Ok tt)
    <-> Forall (okEntry b) infos
        /\ acceptsAll w (flat_map (entryWrites contentIDToBytes b) infos) = Some w'.
Proof.
  induction infos as [|it infos IH]; intros w w'; simpl.
  - split; [intros [= ->]; by split|intros [_ [= ->]]; done].
  - unfold writeIndexEntryTo, writeIndexValueEntryTo.
    destruct (Z.eqb_spec (len (contentIDToBytes (GetContentID it))) (keyLength b))
      as [Hk|Hk]; cbn [negb].
    2: { split; [done|]. intros [[[Hk' _] _]%Forall_cons _]. done. }
    destruct (Write w (contentIDToBytes (GetContentID it))) as [w1 [e|]] eqn:Hw1.
    { destruct e; simpl; (split; [done|]; by intros [_ ?]). }
    destruct (writeIndexValueEntry b it) as [d|e] eqn:Hv.
    2: { cbn [Wrap]. destruct e; simpl;
         (split; [done|]; intros [[[_ [d Hd]] _]%Forall_cons _]; congruence). }
    destruct (Write w1 d) as [w2 [e|]] eqn:Hw2; cbn [wrapErr].
    { destruct e; simpl; (split; [done|]; by intros [_ ?]). }
    cbn [Wrap]. rewrite IH. split.
    + intros [Hall Hacc]. split; [|done]. apply Forall_cons. eauto.
    + intros [[_ Hall]%Forall_cons Hacc]. done.
Qed.

Lemma writePackIDEntriesTo_Ok (b : indexBuilderV2) (packs : list blobID) :
  forall w w',
    writePackIDEntriesTo Write w b packs = (w', Ok tt)
    <-> acceptsAll w (writePackIDEntry b <$> packs) = Some w'.
Proof.
  induction packs as [|p packs IH]; intros w w'; simpl.
  - split; by intros [= ->].
  - unfold writePackIDEntryTo.
    destruct (Write w (writePackIDEntry b p)) as [w1 [e|]]; cbn [wrapErr].
    + by destruct e.
    + apply IH.
Qed.

Lemma writeFormatInfoEntriesTo_Ok (formats : list indexV2FormatInfo) :
  forall w w',
    writeFormatInfoEntriesTo Write w formats = (w', Ok tt)
    <-> acceptsAll w (writeFormatInfoEntry <$> formats) = Some w'.
Proof.
  induction formats as [|f formats IH]; intros w w'; simpl.
  - split; by intros [= ->].
  - unfold writeFormatInfoEntryTo.
    destruct (Write w (writeFormatInfoEntry f)) as [w1 [e|]]; cbn [wrapErr].
    + by destruct e.
    + apply IH.
Qed.

(** Over a writer that does not fail, the entries are written exactly
    when every key has the length of the builder and no value meets the
    panic. *)
Lemma writeEntries_isOk (b : indexBuilderV2) (infos : list Info) :
  forall pw,
    isOk (writeEntries contentIDToBytes b infos pw).2 = true
    <-> Forall (okEntry b) infos.
Proof.
  induction infos as [|it infos IH]; intros pw; simpl.
  - split; [by constructor|done].
  - unfold writeIndexEntry.
    destruct (Z.eqb_spec (len (contentIDToBytes (GetContentID it))) (keyLength b))
      as [Hk|Hk]; cbn [negb].
    2: { split; [done|]. intros [[Hk' _] _]%Forall_cons. done. }
    destruct (writeIndexValueEntry b it) as [d|e] eqn:Hv; simpl.
    + rewrite IH. split.
      * intros Hall. apply Forall_cons. eauto.
      * by intros [_ Hall]%Forall_cons.
    + destruct e; simpl;
        (split; [done|]; intros [[_ [d Hd]] _]%Forall_cons; congruence).
Qed.

(** [buildV2] over a writer succeeds exactly when it does over a writer
    that does not fail, and the writer takes every write and the flush
    after them. *)
Lemma buildV2To_Ok (infos : list Info) (w w' : Writer) :
  buildV2To contentIDToBytes Write Flush w infos = (w', Ok tt)
  <-> isOk (buildV2 contentIDToBytes infos).2 = true
      /\ exists w1, acceptsAll w (buildWrites contentIDToBytes infos) = Some w1
                    /\ Flush w1 = (w', None).
Proof.
  unfold buildV2To, index.buildV2, buildWrites.
  destruct (newIndexBuilderV2 contentIDToBytes infos) as [b0|e]; simpl.
  2: { split; [done|]. by intros [? _]. }
  destruct (prepareExtraData b0 infos) as [b2 extraData] eqn:Hprep.
  destruct (keyLength b2 <=? 1); simpl.
  { split; [done|]. by intros [? _]. }
  change ([Version2; wrapU8 (keyLength b2)] ++ _) with (v2Header b2).
  change (Version2 :: wrapU8 (keyLength b2) :: _) with (v2Header b2).
  assert (Hpure :
    isOk (match writeEntries contentIDToBytes b2 infos (v2Header b2) with
          | (w0, Ok _) =>
              (((w0 ++ concat (writePackIDEntry b2
                                 <$> reverseIndex ""%string (packID2Index b2)))
                ++ concat (writeFormatInfoEntry
                             <$> reverseIndex (mkFormatInfo 0 0 0)
                                   (uniqueFormatInfo2Index b2)))
               ++ extraData, Ok tt)
          | (w0, Err e) => (w0, Err e)
          end).2 = true
    <-> Forall (okEntry b2) infos).
  { rewrite <- (writeEntries_isOk b2 infos (v2Header b2)).
    by destruct (writeEntries contentIDToBytes b2 infos (v2Header b2)) as [pw [[]|e]]. }
  rewrite Hpure. clear Hpure.
  destruct (Write w (v2Header b2)) as [w1 [e|]] eqn:Hh.
  { split; [by destruct e|]. by intros [_ (? & ? & _)]. }
  rewrite acceptsAll_app.
  split.
  - intros H.
    destruct (writeEntriesTo contentIDToBytes Write w1 b2 infos)
      as [w2 [[]|e]] eqn:HE; [|done].
    destruct (writePackIDEntriesTo Write w2 b2 _) as [w3 [[]|e]] eqn:HP; [|done].
    destruct (writeFormatInfoEntriesTo Write w3 _) as [w4 [[]|e]] eqn:HF; [|done].
    destruct (Write w4 extraData) as [w5 [e|]] eqn:HX; [by destruct e|].
    destruct (Flush w5) as [w6 [e|]] eqn:HFl; [by destruct e|].
    cbn in H. injection H as <-.
    apply writeEntriesTo_Ok in HE as [Hall HE].
    apply writePackIDEntriesTo_Ok in HP. apply writeFormatInfoEntriesTo_Ok in HF.
    split; [done|]. exists w5.
    rewrite HE, acceptsAll_app, HP, acceptsAll_app, HF. simpl. by rewrite HX.
  - intros [Hall (w5 & Hacc & HFl)].
    destruct (BuildWriterSpec.acceptsAll Write w1
                (flat_map (entryWrites contentIDToBytes b2) infos))
      as [w2|] eqn:HE; [|done].
    rewrite acceptsAll_app in Hacc.
    destruct (BuildWriterSpec.acceptsAll Write w2
                (writePackIDEntry b2 <$> reverseIndex ""%string (packID2Index b2)))
      as [w3|] eqn:HP; [|done].
    rewrite acceptsAll_app in Hacc.
    destruct (BuildWriterSpec.acceptsAll Write w3
                (writeFormatInfoEntry
                   <$> reverseIndex (mkFormatInfo 0 0 0) (uniqueFormatInfo2Index b2)))
      as [w4|] eqn:HF; [|done].
    simpl in Hacc.
    destruct (Write w4 extraData) as [w5' [e|]] eqn:HX; [done|].
    injection Hacc as ->.
    rewrite (proj2 (writeEntriesTo_Ok b2 infos w1 w2) (conj Hall HE)).
    rewrite (proj2 (writePackIDEntriesTo_Ok b2 _ w2 w3) HP).
    rewrite (proj2 (writeFormatInfoEntriesTo_Ok _ w3 w4) HF).
    by rewrite HX, HFl.
Qed.

Lemma accepts_true (w : Writer) (chunks : list (list Z)) :
  accepts Write Flush w chunks = true
  <-> exists w1 w', acceptsAll w chunks = Some w1 /\ Flush w1 = (w', None).
Proof.
  unfold accepts.
  destruct (BuildWriterSpec.acceptsAll Write w chunks) as [w1|].
  - destruct (Flush w1) as [w' [e|]] eqn:HF.
    + split; [done|]. intros (? & ? & [= <-] & H). congruence.
    + split; [|done]. intros _. eauto.
  - split; [done|]. by intros (? & ? & ? & _).
Qed.

(** X14.  For entries within the ranges of their Go types, [buildV2]
    succeeds exactly when [newIndexBuilderV2] does, there is a first entry,
    its key is longer than one byte and every key is as long as it, and
    the writer takes every write of the build - the header, the key and
    the value of each entry, the pack blob entries, the format entries, the
    extra data - and the flush after them.  An empty list of entries cannot
    be built, whatever the writer. *)
Theorem buildV2_succeeds_iff (infos : list Info) (w : Writer) :
  Forall inRange infos ->
  isOk (buildV2To contentIDToBytes Write Flush w infos).2 = true
  <-> (isOk (newIndexBuilderV2 contentIDToBytes infos) = true
       /\ exists first rest,
            infos = first :: rest
            /\ 1 < Z.of_nat (length (contentIDToBytes (GetContentID first)))
            /\ forall it, it ∈ infos ->
                 length (contentIDToBytes (GetContentID it))
                 = length (contentIDToBytes (GetContentID first)))
      /\ accepts Write Flush w (buildWrites contentIDToBytes infos) = true.
Proof.
  intros Hrange.
  rewrite <- (buildV2_Ok_iff contentIDToBytes infos Hrange), accepts_true.
  split.
  - destruct (buildV2To contentIDToBytes Write Flush w infos) as [w' [[]|e]] eqn:Hb;
      [|done].
    intros _. apply buildV2To_Ok in Hb as (Hok & w1 & Hacc & HF). eauto.
  - intros (Hok & w1 & w' & Hacc & HF).
    by rewrite (proj2 (buildV2To_Ok infos w w') (conj Hok (ex_intro _ w1 (conj Hacc HF)))).
Qed.

End writer.

(** Over the writer that does not fail, the bytes written are the writes
    of the build, one after the other. *)
Lemma acceptsAll_buffer (chunks : list (list Z)) : forall w,
  acceptsAll bufferWrite w chunks = Some (w ++ concat chunks).
Proof.
  induction chunks as [|p chunks IH]; intros w; simpl.
  - by rewrite app_nil_r.
  - by rewrite IH, app_assoc.
Qed.

Lemma buildV2_bytes (contentIDToBytes : ID -> list Z) (infos : list Info)
    (file : list Z) :
  buildV2 contentIDToBytes infos = (file, Ok tt) ->
  file = concat (buildWrites contentIDToBytes infos).
Proof.
  intros Hbuild.
  destruct (buildV2_layout contentIDToBytes infos file Hbuild)
    as (b0 & b2 & extraData & vals & Hb0 & Hprep & _ & Hvals & ->).
  unfold buildWrites. rewrite Hb0, Hprep. rewrite !concat_app.
  cbn [concat]. rewrite !app_nil_r. do 2 f_equal.
  clear Hb0 Hprep Hbuild. induction Hvals as [|it v infos vals Hv _ IH]; [done|].
  apply writeIndexEntry_Ok in Hv as (_ & d & Hd & ->).
  cbn [flat_map concat]. unfold entryWrites at 1. rewrite Hd.
  rewrite concat_app. cbn [concat]. by rewrite IH, app_nil_r.
Qed.

(** [buildV2] is [buildV2To] over the writer that does not fail. *)
Lemma buildV2To_buffer (contentIDToBytes : ID -> list Z) (infos : list Info)
    (file : list Z) :
  buildV2To contentIDToBytes bufferWrite bufferFlush [] infos = (file, Ok tt)
  <-> buildV2 contentIDToBytes infos = (file, Ok tt).
Proof.
  rewrite buildV2To_Ok. split.
  - intros (Hok & w1 & Hacc & HF).
    rewrite acceptsAll_buffer in Hacc. injection Hacc as <-.
    injection HF as <-.
    destruct (buildV2 contentIDToBytes infos) as [f [[]|e]] eqn:Hb; [|done].
    by rewrite (buildV2_bytes contentIDToBytes infos f Hb).
  - intros Hb. rewrite Hb. split; [done|].
    exists file. rewrite acceptsAll_buffer.
    by rewrite (buildV2_bytes contentIDToBytes infos file Hb).
Qed.

End BuildWriter.

Module IndexV2Examples.
Import index IndexV2Spec IterateSpec BuildWriterSpec IndexV2Samples.

Lemma twoInfos_inRange : Forall inRange twoInfos.
Proof. repeat constructor; cbn; lia. Qed.

(** X12, witness: the second sample entry, under the builder of the two. *)
Lemma writeIndexValueEntry_roundtrip_witness :
  exists b,
    newIndexBuilderV2 bytesOf twoInfos = Ok b
    /\ entryCD ∈ twoInfos /\ inRange entryCD
    /\ exists data,
         writeIndexValueEntry b entryCD = Ok data
         /\ Z.of_nat (length data) = entrySize b
         /\ (let e := indexV2.mkEntryInfo data "cd"
                        (indexV2.mkIndexV2 (indexV2.mkHeaderInfo 2 2 17 2 2 2 0 17 0 0 19)
                           [] []) in
             indexV2.GetTimestampSeconds e
             = GetTimestampSeconds entryCD mod 2 ^ 32 + 0
             /\ indexV2.GetDeleted e = GetDeleted entryCD
             /\ indexV2.GetPackOffset e = GetPackOffset entryCD
             /\ indexV2.GetOriginalLength e = GetOriginalLength entryCD
             /\ indexV2.GetPackedLength e = GetPackedLength entryCD
             /\ uniqueFormatInfo2Index b !! indexV2FormatInfoFromInfo entryCD
                = Some (indexV2.formatIDIndex e)
             /\ packID2Index b !! GetPackBlobID entryCD = Some (indexV2.packIDIndex e)).
Proof.
  destruct (newIndexBuilderV2 bytesOf twoInfos) as [b|e] eqn:Hb;
    [|by vm_compute in Hb].
  assert (Hin : entryCD ∈ twoInfos) by (apply elem_of_cons; right; apply elem_of_cons; by left).
  assert (Hr : inRange entryCD) by (repeat constructor; cbn; lia).
  exists b. split_and!; [done|done|done|].
  exact (EntryRoundTrip.writeIndexValueEntry_roundtrip bytesOf twoInfos b entryCD _ "cd"%string
           Hb Hin Hr).
Defined.

(** X13, witness. *)
Lemma parseFormatsBuffer_roundtrip_witness :
  Forall formatInRange twoFormats
  /\ indexV2.parseFormatsBuffer (concat (writeFormatInfoEntry <$> twoFormats))
       (Z.of_nat (length twoFormats)) = twoFormats.
Proof.
  assert (Hr : Forall formatInRange twoFormats) by (repeat constructor; cbn; lia).
  split; [exact Hr|].
  exact (FormatCodec.parseFormatsBuffer_roundtrip twoFormats Hr).
Defined.

(** X14, witness: the two sample entries, written to a buffer. *)
Lemma buildV2_succeeds_iff_witness :
  Forall inRange twoInfos
  /\ (isOk (buildV2To bytesOf bufferWrite bufferFlush [] twoInfos).2 = true
      <-> (isOk (newIndexBuilderV2 bytesOf twoInfos) = true
           /\ exists first rest,
                twoInfos = first :: rest
                /\ 1 < Z.of_nat (length (bytesOf (GetContentID first)))
                /\ forall it, it ∈ twoInfos ->
                     length (bytesOf (GetContentID it))
                     = length (bytesOf (GetContentID first)))
          /\ accepts bufferWrite bufferFlush [] (buildWrites bytesOf twoInfos) = true).
Proof.
  split; [exact twoInfos_inRange|].
  exact (BuildWriter.buildV2_succeeds_iff bytesOf bufferWrite bufferFlush
           twoInfos [] twoInfos_inRange).
Defined.

Lemma twoInfos_keyFits : Forall (keyFits bytesOf 255) twoInfos.
Proof. repeat (apply Forall_cons; split); [| |apply Forall_nil]; by vm_compute. Qed.

Lemma twoInfos_built : buildV2 bytesOf twoInfos = (twoFile, Ok tt).
Proof. by vm_compute. Qed.

Lemma twoFile_size : len twoFile < 2 ^ 32.
Proof. by vm_compute. Qed.

(** X15, witness. *)
Lemma buildV2_open_GetInfo_witness :
  exists idx,
    indexV2.openV2PackIndex twoFile = Ok idx
    /\ indexV2.ApproximateCount idx = len twoInfos
    /\ forall it, it ∈ twoInfos ->
         exists e,
           indexV2.GetInfo bytesOf bytesGreaterOrEqual 255 idx (GetContentID it)
           = Ok (Some e)
           /\ indexV2.GetContentID e = GetContentID it
           /\ indexV2.GetTimestampSeconds e = GetTimestampSeconds it mod 2 ^ 32
           /\ indexV2.GetDeleted e = GetDeleted it
           /\ indexV2.GetPackBlobID e = GetPackBlobID it
           /\ indexV2.GetPackOffset e = GetPackOffset it
           /\ indexV2.GetOriginalLength e = GetOriginalLength it
           /\ indexV2.GetPackedLength e = GetPackedLength it
           /\ indexV2.GetFormatVersion e = Ok (GetFormatVersion it)
           /\ indexV2.GetCompressionHeaderID e = Ok (GetCompressionHeaderID it)
           /\ indexV2.GetEncryptionKeyID e = Ok (GetEncryptionKeyID it).
Proof.
  apply (BuildOpenLookup.buildV2_open_GetInfo bytesOf bytesGreaterOrEqual 255
           twoInfos twoFile twoInfos_built twoInfos_inRange).
  - repeat constructor.
  - exact twoInfos_keyFits.
  - intros i j ki kj Hi Hj.
    destruct i as [|[|i]], j as [|[|j]]; simplify_eq/=; split; intros; try lia; done.
  - exact twoFile_size.
Defined.

(** X16, witness: a key that was not written, and one of another length. *)
Lemma buildV2_open_GetInfo_absent_witness :
  exists idx,
    indexV2.openV2PackIndex twoFile = Ok idx
    /\ indexV2.GetInfo bytesOf bytesGreaterOrEqual 255 idx "bc"
       = if len (bytesOf "bc") =? len (bytesOf (GetContentID entryAB))
         then Ok None
         else Err (ErrNew "invalid content ID").
Proof.
  apply (BuildOpenLookup.buildV2_open_GetInfo_absent bytesOf bytesGreaterOrEqual 255
           twoInfos twoFile entryAB "bc"%string twoInfos_built twoInfos_inRange
           twoInfos_keyFits twoFile_size).
  - apply elem_of_cons. by left.
  - intros it Hit. repeat (apply elem_of_cons in Hit as [->|Hit]); [done|done|].
    by apply elem_of_nil in Hit.
Defined.

(** X17, witness. *)
Lemma buildV2_open_Iterate_witness :
  exists idx es,
    indexV2.openV2PackIndex twoFile = Ok idx
    /\ Forall2 sameFields twoInfos es
    /\ forall (State : Type)
          (cb : State -> indexV2.indexV2EntryInfo -> State * option error)
          (r : indexV2.IDRange) (s : State),
         indexV2.Iterate stringOf cb idx r s
         = visitAll cb s
             (List.filter (fun e => inIDRange r (indexV2.GetContentID e)) es).
Proof.
  apply (BuildOpenLookup.buildV2_open_Iterate bytesOf stringOf twoInfos twoFile
           twoInfos_built twoInfos_inRange).
  - repeat constructor.
  - repeat (apply Forall_cons; split); [| |apply Forall_nil]; by vm_compute.
  - intros it Hit. repeat (apply elem_of_cons in Hit as [->|Hit]); [done|done|].
    by apply elem_of_nil in Hit.
  - intros i j a b Hi Hj Hlt.
    destruct i as [|[|i]], j as [|[|j]]; simplify_eq/=; try lia; done.
  - exact twoFile_size.
Defined.

End IndexV2Examples.
